(** * threepy5: the card model and the board's interaction engine

    A shallow embedding of

    - [threepy5/threepy5.py]: the data model ([Card], [Content], [Header],
      [Image]) with [Dump], [Load] and [Content.IncreaseRating];
    - [threepy5/gui/wxutils.py]: [MakeEncirclingRect];
    - [src/boardbase.py]: [BoardBase], the board that owns the card widgets:
      creation and placement, selection, copy, delete, arrangement,
      navigation by label and the drag-select handlers.

    Python integers are unbounded and are embedded as [Z].  Widgets are
    Python objects compared by identity: the board's lists hold references
    into a store of card widgets, so that two lists naming the same card
    see the same rectangle. *)

From Stdlib Require Import ZArith QArith Lia.
From Equations Require Import Equations.
From stdpp Require Import base list sorting gmap strings functions.

#[local] Open Scope string_scope.
#[local] Open Scope list_scope.
#[local] Open Scope Z_scope.

(** ** Python list primitives *)

Module Py.

Section ListOps.
Context {A : Type} `{EqDecision A}.

(** [l.remove(x)]: drops the first item equal to [x]; [None] stands for
    the [ValueError] raised when there is none. *)
Fixpoint remove (x : A) (l : list A) : option (list A) :=
  match l with
  | [] => None
  | y :: l' => if decide (y = x) then Some l' else cons y <$> remove x l'
  end.

(** [l.index(x)]: position of the first item equal to [x]. *)
Fixpoint index (x : A) (l : list A) : option nat :=
  match l with
  | [] => None
  | y :: l' => if decide (y = x) then Some 0%nat else S <$> index x l'
  end.

(** [l.sort(key=...)]: Python's sort is stable; items whose keys compare
    equal keep their order.  Insertion from the right, placing an item
    before the first one whose key is not smaller, is stable. *)
Fixpoint insert_key (key : A -> Z) (x : A) (l : list A) : list A :=
  match l with
  | [] => [x]
  | y :: l' => if decide (key x <= key y) then x :: y :: l'
               else y :: insert_key key x l'
  end.

Definition sort (key : A -> Z) (l : list A) : list A :=
  foldr (insert_key key) [] l.
End ListOps.

(** [min(l)] and [max(l)] on a list of integers; [None] is the
    [ValueError] on an empty list. *)
Definition min (l : list Z) : option Z :=
  match l with
  | [] => None
  | x :: l' => Some (foldl Z.min x l')
  end.

Definition max (l : list Z) : option Z :=
  match l with
  | [] => None
  | x :: l' => Some (foldl Z.max x l')
  end.

End Py.

(** ** The toolkit's geometry: [wx.Point] and [wx.Rect]

    These are the conventions of the widget toolkit, which the repository
    uses but does not define: a rectangle is a corner and a size, and its
    [right] and [bottom] are the last column and row it covers. *)

Module Wx.

Definition Point : Type := Z * Z.

Definition DefaultPosition : Point := (-1, -1).

Definition point_add (p q : Point) : Point := (p.1 + q.1, p.2 + q.2).
Definition point_sub (p q : Point) : Point := (p.1 - q.1, p.2 - q.2).

Record Rect : Type := mkRect { rx : Z; ry : Z; width : Z; height : Z }.

Definition left (r : Rect) : Z := rx r.
Definition top (r : Rect) : Z := ry r.
Definition right (r : Rect) : Z := rx r + width r - 1.
Definition bottom (r : Rect) : Z := ry r + height r - 1.

Definition GetPosition (r : Rect) : Point := (rx r, ry r).
Definition GetSize (r : Rect) : Z * Z := (width r, height r).

Definition move_to (p : Point) (r : Rect) : Rect :=
  {| rx := p.1; ry := p.2; width := width r; height := height r |}.

Definition resize (sz : Z * Z) (r : Rect) : Rect :=
  {| rx := rx r; ry := ry r; width := sz.1; height := sz.2 |}.

(** [wx.Rect.Intersect]: the common part, emptied (size 0 x 0) when the
    two rectangles share no pixel. *)
Definition Intersect (a b : Rect) : Rect :=
  let x := Z.max (rx a) (rx b) in
  let y := Z.max (ry a) (ry b) in
  let x2 := Z.min (right a) (right b) in
  let y2 := Z.min (bottom a) (bottom b) in
  let w := x2 - x + 1 in
  let h := y2 - y + 1 in
  if decide (w <= 0 \/ h <= 0) then mkRect x y 0 0 else mkRect x y w h.

(** [wx.Rect.Contains]: the pixels a rectangle covers. *)
Definition Contains (r : Rect) (p : Point) : bool :=
  bool_decide (rx r <= p.1 /\ p.1 - rx r < width r
               /\ ry r <= p.2 /\ p.2 - ry r < height r).

(** [wx.Rect.Intersects]: the common part is not empty. *)
Definition Intersects (a b : Rect) : bool :=
  bool_decide (width (Intersect a b) <> 0).

End Wx.

(** ** [wxutils.MakeEncirclingRect] *)

Definition MakeEncirclingRect (p1 p2 : Wx.Point) : Wx.Rect :=
  let l := Z.min p1.1 p2.1 in
  let t := Z.min p1.2 p2.2 in
  let w := Z.abs (p1.1 - p2.1) in
  let h := Z.abs (p1.2 - p2.2) in
  Wx.mkRect l t w h.

(** ** The data model of [threepy5.py] *)

Module Threepy5.

Definition NO_RECT : list Z := [0; 0; -1; -1].
Definition DEFAULT_KIND : string := "kind".
Definition DEFAULT_RATING : Z := 0.
Definition DEFAULT_SCALE : Q := 1%Q.
Definition RATING_MAX : Z := 3.
Definition DEFAULT_RECT_CONT : list Z := [0; 0; 250; 150].

(** Modelled from the spec: [utils.Publisher], the base class that gives
    every entity its [id], is not among the sources.  The spec's data model
    says a card has an integer [id] whose "no id" sentinel is -1; the
    constructors below start from it. *)
Definition NO_ID : Z := -1.

(** What [Card.__init__] sets on every card: the publisher's [id] and the
    [rect], a four-item sequence (x, y, w, h). *)
Record Card : Type := mkCard { id : Z; rect : list Z }.

Record Content : Type := mkContent {
  content_base : Card;
  title : string;
  kind : string;
  rating : Z;
  content : string;
  collapsed : bool }.

Record Header : Type := mkHeader {
  header_base : Card;
  header : string }.

Record Image : Type := mkImage {
  image_base : Card;
  path : string;
  scale : Q }.

(** The constructors with every argument left at its default. *)
Definition new_Card : Card := mkCard NO_ID NO_RECT.
Definition new_Content : Content :=
  mkContent (mkCard NO_ID DEFAULT_RECT_CONT) "" DEFAULT_KIND DEFAULT_RATING "" false.
Definition new_Header : Header := mkHeader (mkCard NO_ID NO_RECT) "".
Definition new_Image : Image := mkImage (mkCard NO_ID NO_RECT) "" DEFAULT_SCALE.

(** Inheritance: a subclass of [Card] carries the base part and may replace
    it; the methods it does not override act on that part alone. *)
Class CardClass (T : Type) : Type := {
  base : T -> Card;
  with_base : Card -> T -> T }.

#[global] Instance Card_class : CardClass Card :=
  {| base := fun c => c; with_base := fun b _ => b |}.

#[global] Instance Content_class : CardClass Content :=
  {| base := content_base;
     with_base := fun b c =>
       mkContent b (title c) (kind c) (rating c) (content c) (collapsed c) |}.

#[global] Instance Header_class : CardClass Header :=
  {| base := header_base; with_base := fun b h => mkHeader b (header h) |}.

#[global] Instance Image_class : CardClass Image :=
  {| base := image_base; with_base := fun b i => mkImage b (path i) (scale i) |}.

(** The values stored in the dict that [Dump] returns. *)
Inductive PyVal : Type :=
| PyInt (n : Z)
| PySeq (l : list Z).

(** [Card.Dump]: [{"id": self.id, "rect": self.rect}].  No subclass
    overrides it. *)
Definition Dump {T} `{CardClass T} (self : T) : gmap string PyVal :=
  <["id" := PyInt (id (base self))]>
    (<["rect" := PySeq (rect (base self))]> ∅).

(** [Card.Load]: [self.id = data["id"]; self.rect = data["rect"]].  [None]
    is the [KeyError] of a missing key (or a value [Dump] never stores).
    No subclass overrides it. *)
Definition Load {T} `{CardClass T} (self : T) (data : gmap string PyVal)
  : option T :=
  match data !! "id", data !! "rect" with
  | Some (PyInt i), Some (PySeq r) => Some (with_base (mkCard i r) self)
  | _, _ => None
  end.

(** [Content.IncreaseRating]. *)
Definition IncreaseRating (self : Content) (wrap : bool) : Content :=
  let new := rating self + 1 in
  let set_rating n :=
    mkContent (content_base self) (title self) (kind self) n
              (content self) (collapsed self) in
  if wrap && bool_decide (new > RATING_MAX) then set_rating 0
  else if bool_decide (new > RATING_MAX) then self
  else set_rating new.

End Threepy5.

(** ** The board of [boardbase.py] *)

Module Board.

(** A reference to a card widget (the identity of the Python object). *)
Definition ref : Type := nat.

Definition CARD_PADDING : Z := 15.

(** Modelled from the spec: [card.py], which declares the widget classes
    [Card], [Content], [Header] and [Image] that the board creates, is not
    among the sources.  A widget is modelled by what [BoardBase] passes to
    its constructor and reads back: the [label], the rectangle of
    [GetRect], and per class the [title], [kind] and [content] of a
    Content ([GetTitle], [GetKind], [GetContent]), the [header] of a
    Header ([GetHeader]) and the [path] of an Image. *)
Inductive Body : Type :=
| Content (title kind content : string)
| Header (header : string)
| Image (path : string).

Record CardW : Type := mkCardW {
  label : Z;
  rect : Wx.Rect;
  body : Body;
  shown : bool }.

(** The class constants of [card.py] that [boardbase.py] reads, and the
    size the board asks for, [[i*self.scale for i in sz]], as the toolkit
    stores it. *)
Class CardDefaults : Type := {
  Content_DEFAULT_TITLE : string;
  Content_DEFAULT_LBL : string;
  Content_DEFAULT_CONTENT : string;
  Content_DEFAULT_SZ : Z * Z;
  Content_BORDER_WIDTH : Z;
  Header_DEFAULT_TITLE : string;
  Header_DEFAULT_SZ : Z * Z;
  Image_DEFAULT_PATH : string;
  Image_DEFAULT_SZ : Z * Z;
  scaled : Z * Z -> Z * Z }.

(** What [FindFocus()] can return, along the branches of
    [GetFocusedCard].  An [EditText] is taken to sit directly inside a
    card. *)
Inductive Focus : Type :=
| FocusNothing
| FocusCard (c : ref)
| FocusInEditText (c : ref)
| FocusCardChild (c : ref)
| FocusElsewhere.

(** The control handed to [GetNextCard] and [GetPrevCard], by where the
    card is among its ancestors. *)
Inductive Ctrl : Type :=
| ChildOf (c : ref)
| GrandchildOf (c : ref)
| NotInCard.

(** Keyword arguments of [NewCard]. *)
Inductive Kw : Type :=
| KwStr (s : string)
| KwSize (w h : Z).

Record Board : Type := mkBoard {
  heap : ref -> CardW;
  next_ref : ref;
  cards : list ref;
  selected_cards : list ref;
  moving_cards_pos : list (ref * Wx.Point * Wx.Point);
  drag_select : bool;
  on_motion : bool;
  init_pos : option Wx.Point;
  cur_pos : option Wx.Point;
  focus : Focus }.

Definition set_heap (f : (ref -> CardW) -> ref -> CardW) (b : Board) : Board :=
  mkBoard (f (heap b)) (next_ref b) (cards b) (selected_cards b)
          (moving_cards_pos b) (drag_select b) (on_motion b) (init_pos b)
          (cur_pos b) (focus b).
Definition set_next_ref (n : ref) (b : Board) : Board :=
  mkBoard (heap b) n (cards b) (selected_cards b)
          (moving_cards_pos b) (drag_select b) (on_motion b) (init_pos b)
          (cur_pos b) (focus b).
Definition set_cards (l : list ref) (b : Board) : Board :=
  mkBoard (heap b) (next_ref b) l (selected_cards b)
          (moving_cards_pos b) (drag_select b) (on_motion b) (init_pos b)
          (cur_pos b) (focus b).
Definition set_selected_cards (l : list ref) (b : Board) : Board :=
  mkBoard (heap b) (next_ref b) (cards b) l
          (moving_cards_pos b) (drag_select b) (on_motion b) (init_pos b)
          (cur_pos b) (focus b).
Definition set_moving_cards_pos (l : list (ref * Wx.Point * Wx.Point))
  (b : Board) : Board :=
  mkBoard (heap b) (next_ref b) (cards b) (selected_cards b)
          l (drag_select b) (on_motion b) (init_pos b)
          (cur_pos b) (focus b).
Definition set_drag_select (v : bool) (b : Board) : Board :=
  mkBoard (heap b) (next_ref b) (cards b) (selected_cards b)
          (moving_cards_pos b) v (on_motion b) (init_pos b)
          (cur_pos b) (focus b).
Definition set_on_motion (v : bool) (b : Board) : Board :=
  mkBoard (heap b) (next_ref b) (cards b) (selected_cards b)
          (moving_cards_pos b) (drag_select b) v (init_pos b)
          (cur_pos b) (focus b).
Definition set_init_pos (p : option Wx.Point) (b : Board) : Board :=
  mkBoard (heap b) (next_ref b) (cards b) (selected_cards b)
          (moving_cards_pos b) (drag_select b) (on_motion b) p
          (cur_pos b) (focus b).
Definition set_cur_pos (p : option Wx.Point) (b : Board) : Board :=
  mkBoard (heap b) (next_ref b) (cards b) (selected_cards b)
          (moving_cards_pos b) (drag_select b) (on_motion b) (init_pos b)
          p (focus b).
Definition set_focus (f : Focus) (b : Board) : Board :=
  mkBoard (heap b) (next_ref b) (cards b) (selected_cards b)
          (moving_cards_pos b) (drag_select b) (on_motion b) (init_pos b)
          (cur_pos b) f.

(** [BoardBase.__init__]: no cards, nothing selected, no drag under way;
    the constructor ends with [self.SetFocus()]. *)
Definition blank : CardW := mkCardW 0 (Wx.mkRect 0 0 0 0) (Header "") false.
Definition init : Board :=
  mkBoard (fun _ => blank) 0%nat [] [] [] false false None None FocusElsewhere.

(** *** Methods run in a state-and-exception monad

    A method either returns a value and the board as it left it, or
    raises, and then too the board stays as the method left it. *)
Inductive Result (A : Type) : Type :=
| Return (a : A) (st : Board)
| Raise (st : Board).
Arguments Return {A} a st.
Arguments Raise {A} st.

Definition state_of {A} (r : Result A) : Board :=
  match r with Return _ st => st | Raise st => st end.

Definition M (A : Type) : Type := Board -> Result A.

Definition ret {A} (a : A) : M A := fun st => Return a st.
Definition bind {A B} (m : M A) (k : A -> M B) : M B :=
  fun st => match m st with
            | Return a st' => k a st'
            | Raise st' => Raise st'
            end.
Definition raise {A} : M A := fun st => Raise st.
Definition gets {A} (f : Board -> A) : M A := fun st => Return (f st) st.
Definition modify (f : Board -> Board) : M unit := fun st => Return tt (f st).
Definition lift {A} (o : option A) : M A :=
  match o with Some a => ret a | None => raise end.

Notation "x <- m ;; k" := (bind m (fun x => k))
  (at level 100, m at next level, right associativity).
Notation "m ;; k" := (bind m (fun _ => k))
  (at level 100, right associativity).

(** [for x in l: body]. *)
Fixpoint for_ {A} (l : list A) (body : A -> M unit) : M unit :=
  match l with
  | [] => ret tt
  | x :: l' => body x ;; for_ l' body
  end.

(** *** Widget accessors (the toolkit's, on the store) *)

Definition upd_card (c : ref) (f : CardW -> CardW) (b : Board) : Board :=
  set_heap (fun h => <[c := f (h c)]> h) b.

Definition GetRect (c : ref) : M Wx.Rect := gets (fun st => rect (heap st c)).
Definition GetPosition (c : ref) : M Wx.Point :=
  gets (fun st => Wx.GetPosition (rect (heap st c))).
Definition SetPosition (c : ref) (p : Wx.Point) : M unit :=
  modify (upd_card c (fun w =>
    mkCardW (label w) (Wx.move_to p (rect w)) (body w) (shown w))).
Definition Move (c : ref) (p : Wx.Point) : M unit := SetPosition c p.
Definition Hide (c : ref) : M unit :=
  modify (upd_card c (fun w => mkCardW (label w) (rect w) (body w) false)).
Definition SetFocus (c : ref) : M unit := modify (set_focus (FocusCard c)).
Definition get_label (c : ref) : M Z := gets (fun st => label (heap st c)).
Definition get_body (c : ref) : M Body := gets (fun st => body (heap st c)).

(** The constructor of a widget: a new object, distinct from all others. *)
Definition alloc (w : CardW) : M ref :=
  fun st => Return (next_ref st)
              (set_next_ref (S (next_ref st))
                 (set_heap (fun h => <[next_ref st := w]> h) st)).

(** *** Selection *)

Definition GetCards : M (list ref) := gets cards.
Definition GetSelection : M (list ref) := gets selected_cards.

(** [UnselectCard]: [if card in self.selected_cards:
    self.selected_cards.remove(card)]; erasing the highlight only draws. *)
Definition UnselectCard (card : ref) : M unit :=
  sel <- gets selected_cards ;;
  if decide (card ∈ sel) then
    sel' <- lift (Py.remove card sel) ;;
    modify (set_selected_cards sel')
  else ret tt.

(** The value of an expression together with the equation that names
    it, for the loop below. *)
Definition inspect {A} (a : A) : {b : A | a = b} := exist _ a eq_refl.

(** [UnselectAll]: [while len(self.selected_cards) > 0:
    self.UnselectCard(self.selected_cards[0])].  Each round removes the
    card at the front, so the selection shrinks. *)
Equations? UnselectAll (st : Board) : Result unit
  by wf (length (selected_cards st)) lt :=
  UnselectAll st with inspect (selected_cards st) := {
    | @exist [] _ => Return tt st
    | @exist (c :: l) Hsel with inspect (UnselectCard c st) := {
        | @exist (Return _ st') Hrun => UnselectAll st'
        | @exist (Raise st') _ => Raise st' } }.
Proof.
  revert Hrun. unfold UnselectCard, bind, gets. rewrite Hsel.
  rewrite decide_True by left. simpl. rewrite decide_True by done. simpl.
  unfold modify. intros [= _ <-]. simpl. lia.
Qed.

(** [SelectCard]: with [new_sel] the card becomes the whole selection;
    otherwise it is appended unless already there. *)
Definition SelectCard (card : ref) (new_sel : bool) : M unit :=
  if new_sel then
    UnselectAll ;;
    modify (set_selected_cards [card])
  else
    sel <- gets selected_cards ;;
    if decide (card ∉ sel) then modify (set_selected_cards (sel ++ [card]))
    else ret tt.

(** *** Lookup and navigation *)

Definition is_Content (b : Body) : bool :=
  match b with Content _ _ _ => true | _ => false end.
Definition is_Header (b : Body) : bool :=
  match b with Header _ => true | _ => false end.

Definition GetHeaders : M (list ref) :=
  gets (fun st => filter (fun c => is_Header (body (heap st c)) = true) (cards st)).
Definition GetContents : M (list ref) :=
  gets (fun st => filter (fun c => is_Content (body (heap st c)) = true) (cards st)).

Definition GetCard (lbl : Z) : M (option ref) :=
  gets (fun st => list.head (filter (fun c => label (heap st c) = lbl) (cards st))).

(** The card a control belongs to: its parent, else its grandparent. *)
Definition card_of (ctrl : Ctrl) : option ref :=
  match ctrl with
  | ChildOf c => Some c
  | GrandchildOf c => Some c
  | NotInCard => None
  end.

(** [GetNextCard]: the result is a card or Python's [None]; indexing an
    empty list raises. *)
Definition GetNextCard (ctrl : Ctrl) (cycle : bool) : M (option ref) :=
  match card_of ctrl with
  | None => ret None
  | Some card =>
    st <- gets (fun st => st) ;;
    let lbl c := label (heap st c) in
    let greater_lbl := filter (fun c => lbl c > lbl card) (cards st) in
    let greater_lbl := Py.sort lbl greater_lbl in
    match greater_lbl with
    | c :: _ => ret (Some c)
    | [] =>
      if negb cycle then ret None
      else
        let cards := Py.sort lbl (cards st) in
        c <- lift (list.head cards) ;;
        ret (Some c)
    end
  end.

Definition GetPrevCard (ctrl : Ctrl) (cycle : bool) : M (option ref) :=
  match card_of ctrl with
  | None => ret None
  | Some card =>
    st <- gets (fun st => st) ;;
    let lbl c := label (heap st c) in
    let lesser_lbl := filter (fun c => lbl c < lbl card) (cards st) in
    let lesser_lbl := Py.sort lbl lesser_lbl in
    match lesser_lbl with
    | _ :: _ => c <- lift (list.last lesser_lbl) ;; ret (Some c)
    | [] =>
      if negb cycle then ret None
      else
        let cards := Py.sort lbl (cards st) in
        c <- lift (list.last cards) ;;
        ret (Some c)
    end
  end.

(** [GetFocusedCard]: with no focused window at all, [obj.GetParent()]
    raises. *)
Definition GetFocusedCard : M (option ref) :=
  obj <- gets focus ;;
  match obj with
  | FocusCard c => ret (Some c)
  | FocusInEditText c => ret (Some c)
  | FocusCardChild c => ret (Some c)
  | FocusElsewhere => ret None
  | FocusNothing => raise
  end.

Section Methods.
Context `{CardDefaults}.

(** *** Creating cards *)

Definition kw_str (kwargs : gmap string Kw) (key default : string) : M string :=
  match kwargs !! key with
  | None => ret default
  | Some (KwStr s) => ret s
  | Some (KwSize _ _) => raise
  end.

Definition kw_size (kwargs : gmap string Kw) (key : string)
  (default : Z * Z) : M (Z * Z) :=
  match kwargs !! key with
  | None => ret default
  | Some (KwSize w h) => ret (w, h)
  | Some (KwStr _) => raise
  end.

Definition rect_at (pos : Wx.Point) (sz : Z * Z) : Wx.Rect :=
  Wx.mkRect pos.1 pos.2 sz.1 sz.2.

(** [NewCard]: an unknown [subclass] leaves [new] unbound, and the first
    use of it raises before the board has changed.  A keyword argument of
    the wrong type is refused by the widget's constructor.  Recomputing
    the virtual size ([FitToChildren]) touches no card. *)
Definition NewCard (subclass : string) (pos : Wx.Point) (label : Z)
  (kwargs : gmap string Kw) : M ref :=
  n <- gets (fun st => length (cards st)) ;;
  let label := if decide (label = -1) then Z.of_nat n else label in
  new <-
    (if decide (subclass = "Content") then
       title <- kw_str kwargs "title" Content_DEFAULT_TITLE ;;
       kind <- kw_str kwargs "kind" Content_DEFAULT_LBL ;;
       content <- kw_str kwargs "content" Content_DEFAULT_CONTENT ;;
       alloc (mkCardW label (rect_at pos (scaled Content_DEFAULT_SZ))
                      (Content title kind content) true)
     else if decide (subclass = "Header") then
       txt <- kw_str kwargs "txt" Header_DEFAULT_TITLE ;;
       sz <- kw_size kwargs "size" Header_DEFAULT_SZ ;;
       alloc (mkCardW label (rect_at pos (scaled sz)) (Header txt) true)
     else if decide (subclass = "Image") then
       path <- kw_str kwargs "path" Image_DEFAULT_PATH ;;
       alloc (mkCardW label (rect_at pos (scaled Image_DEFAULT_SZ))
                      (Image path) true)
     else raise) ;;
  SetFocus new ;;
  modify (fun st => set_cards (cards st ++ [new]) st) ;;
  ret new.

(** [PlaceNewCard]. *)
Definition PlaceNewCard (subclass : string) (pos : Wx.Point) (below : bool)
  : M unit :=
  new <-
    (if decide (pos = Wx.DefaultPosition) then
       cs <- GetCards ;;
       pos <-
         (if decide (length cs < 1)%nat then
            ret (CARD_PADDING, CARD_PADDING)
          else
            focused <- GetFocusedCard ;;
            match focused with
            | Some _ =>
              focused <- GetFocusedCard ;;
              c <- lift focused ;;
              rect <- GetRect c ;;
              if below then
                let top := Wx.bottom rect + CARD_PADDING in
                let left := Wx.left rect in
                ret (left, top)
              else
                let top := Wx.top rect in
                let left := Wx.right rect + CARD_PADDING in
                ret (left, top)
            | None =>
              st <- gets (fun st => st) ;;
              let rects := map (fun c => rect (heap st c)) cs in
              let rights := map Wx.right rects in
              top <- lift (Py.min (map Wx.top rects)) ;;
              rightmost <- lift (Py.max rights) ;;
              let left := rightmost + CARD_PADDING in
              ret (left, top)
            end) ;;
       NewCard subclass pos (-1) ∅
     else NewCard subclass pos (-1) ∅) ;;
  UnselectAll ;;
  SetFocus new.

(** *** Moving, copying, deleting *)

Definition MoveCard (card : ref) (dx dy : Z) : M unit :=
  pos <- GetPosition card ;;
  Move card (pos.1 + dx, pos.2 + dy).

Definition MoveSelected (dx dy : Z) : M unit :=
  sel <- GetSelection ;;
  for_ sel (fun c => MoveCard c dx dy).

(** The loop of [CopySelected], with [new] as accumulator. *)
Fixpoint copy_loop (sel new : list ref) : M (list ref) :=
  match sel with
  | [] => ret new
  | c :: sel' =>
    p <- GetPosition c ;;
    let pos := Wx.point_add p (CARD_PADDING, CARD_PADDING) in
    b <- get_body c ;;
    new <-
      (match b with
       | Content title kind content =>
         n <- NewCard "Content" pos (-1)
                (<["title" := KwStr title]>
                 (<["kind" := KwStr kind]>
                  (<["content" := KwStr content]> ∅))) ;;
         ret (new ++ [n])
       | _ => ret new
       end) ;;
    new <-
      (match b with
       | Header header =>
         n <- NewCard "Header" pos (-1) (<["txt" := KwStr header]> ∅) ;;
         ret (new ++ [n])
       | _ => ret new
       end) ;;
    copy_loop sel' new
  end.

Definition CopySelected : M unit :=
  sel <- gets selected_cards ;;
  new <- copy_loop sel [] ;;
  UnselectAll ;;
  for_ new (fun c => SelectCard c false).

Definition DeleteSelected : M unit :=
  sel <- gets selected_cards ;;
  for_ sel (fun c =>
    Hide c ;;
    cs <- gets cards ;;
    cs' <- lift (Py.remove c cs) ;;
    modify (set_cards cs')) ;;
  UnselectAll.

(** *** Arranging *)

(** The positioning loop shared by the two arrangements: [place] turns
    the running edge into a position, [next] reads the trailing edge of
    the card just placed. *)
Fixpoint place_loop (place : Z -> Wx.Point) (next : Wx.Rect -> Z)
  (arrange : list ref) (edge : Z) : M unit :=
  match arrange with
  | [] => ret tt
  | c :: arrange' =>
    SetPosition c (place edge) ;;
    r <- GetRect c ;;
    place_loop place next arrange' (next r + CARD_PADDING)
  end.

Definition HArrangeSelectedCards : M unit :=
  sel <- gets selected_cards ;;
  if decide (length sel < 1)%nat then ret tt
  else
    let arrange := sel in
    UnselectAll ;;
    st <- gets (fun st => st) ;;
    let lefts := map (fun c => Wx.left (rect (heap st c))) arrange in
    left <- lift (Py.min lefts) ;;
    i <- lift (Py.index left lefts) ;;
    card <- lift (arrange !! i) ;;
    r <- GetRect card ;;
    let top := Wx.top r in
    let arrange := Py.sort (fun c => Wx.left (rect (heap st c))) arrange in
    place_loop (fun left => (left, top)) Wx.right arrange left.

Definition VArrangeSelectedCards : M unit :=
  sel <- gets selected_cards ;;
  if decide (length sel < 1)%nat then ret tt
  else
    let arrange := sel in
    UnselectAll ;;
    st <- gets (fun st => st) ;;
    let tops := map (fun c => Wx.top (rect (heap st c))) arrange in
    top <- lift (Py.min tops) ;;
    i <- lift (Py.index top tops) ;;
    card <- lift (arrange !! i) ;;
    r <- GetRect card ;;
    let left := Wx.left r in
    let arrange := Py.sort (fun c => Wx.top (rect (heap st c))) arrange in
    place_loop (fun top => (left, top)) Wx.bottom arrange top.

(** *** Event handlers

    A handler takes what it reads from its event: the pointer position,
    whether a button is held during motion, the state of the control
    key.  Which handler the toolkit calls for an event is the toolkit's
    affair; painting and mouse capture leave the board's data alone. *)

Definition OnCardDelete (card : ref) : M unit :=
  SelectCard card true ;;
  DeleteSelected.

Definition OnCardLeftDown (card : ref) (control_down : bool)
  (ev_pos : Wx.Point) : M unit :=
  modify (set_focus (FocusCard card)) ;;
  (if negb control_down then SelectCard card true
   else
     sel <- gets selected_cards ;;
     if decide (card ∈ sel) then UnselectCard card
     else SelectCard card false) ;;
  modify (set_on_motion false) ;;
  p <- GetPosition card ;;
  let pos := Wx.point_add p ev_pos in
  modify (set_moving_cards_pos []) ;;
  sel <- gets selected_cards ;;
  for_ sel (fun c =>
    cp <- GetPosition c ;;
    modify (fun st =>
      set_moving_cards_pos
        (moving_cards_pos st ++ [(c, Wx.point_sub cp pos, cp)]) st)).

Definition OnMovingCard (dragging : bool) (ev_pos : Wx.Point) : M unit :=
  moving <- gets moving_cards_pos ;;
  if dragging && negb (bool_decide (moving = [])) then
    modify (set_on_motion true)
  else ret tt.

Definition OnCardLeftUp (ev_pos : Wx.Point) : M unit :=
  moving_now <- gets on_motion ;;
  (if moving_now then
     modify (set_selected_cards []) ;;
     modify (set_on_motion false) ;;
     moving <- gets moving_cards_pos ;;
     for_ moving (fun '(c, orig, _) =>
       let final_pos :=
         Wx.point_sub (Wx.point_add ev_pos orig)
                      (Content_BORDER_WIDTH, Content_BORDER_WIDTH) in
       Move c final_pos)
   else ret tt) ;;
  modify (set_moving_cards_pos []).

Definition OnLeftDown (ev_pos : Wx.Point) : M unit :=
  UnselectAll ;;
  modify (set_focus FocusElsewhere) ;;
  modify (set_init_pos (Some ev_pos)) ;;
  modify (set_cur_pos (Some ev_pos)).

(** [OnDragSelect]: the rubber band is repainted from [init_pos] and
    [cur_pos], which exist once [OnLeftDown] has run. *)
Definition OnDragSelect (dragging : bool) (ev_pos : Wx.Point) : M unit :=
  moving <- gets moving_cards_pos ;;
  if dragging && bool_decide (moving = []) then
    modify (set_drag_select true) ;;
    init <- gets init_pos ;;
    init <- lift init ;;
    cur <- gets cur_pos ;;
    _ <- lift cur ;;
    let final_pos := Wx.point_sub ev_pos init in
    modify (set_cur_pos (Some final_pos))
  else ret tt.

Definition OnLeftUp : M unit :=
  dragging <- gets drag_select ;;
  if dragging then
    modify (set_drag_select false) ;;
    init <- gets init_pos ;;
    init <- lift init ;;
    cur <- gets cur_pos ;;
    cur <- lift cur ;;
    let final_rect := MakeEncirclingRect init (Wx.point_add init cur) in
    cs <- GetCards ;;
    st <- gets (fun st => st) ;;
    let selected :=
      filter (fun c => Wx.Intersects (rect (heap st c)) final_rect = true) cs in
    for_ selected (fun c => SelectCard c false)
  else ret tt.

Definition OnLeftDClick (ev_pos : Wx.Point) : M unit :=
  _ <- NewCard "Content" ev_pos (-1)
         (<["kind" := KwStr Content_DEFAULT_LBL]>
          (<["title" := KwStr ""]>
           (<["content" := KwStr ""]> ∅))) ;;
  ret tt.

(** *** Sequences of operations on one board *)

Inductive Op : Type :=
| DoNewCard (subclass : string) (pos : Wx.Point) (label : Z)
            (kwargs : gmap string Kw)
| DoPlaceNewCard (subclass : string) (pos : Wx.Point) (below : bool)
| DoSelectCard (card : ref) (new_sel : bool)
| DoUnselectCard (card : ref)
| DoUnselectAll
| DoCopySelected
| DoDeleteSelected
| DoMoveSelected (dx dy : Z)
| DoHArrange
| DoVArrange
| EvCardDelete (card : ref)
| EvCardLeftDown (card : ref) (control_down : bool) (ev_pos : Wx.Point)
| EvMovingCard (dragging : bool) (ev_pos : Wx.Point)
| EvCardLeftUp (ev_pos : Wx.Point)
| EvLeftDown (ev_pos : Wx.Point)
| EvDragSelect (dragging : bool) (ev_pos : Wx.Point)
| EvLeftUp
| EvLeftDClick (ev_pos : Wx.Point)
| EvFocus (f : Focus).

Definition run (op : Op) : M unit :=
  match op with
  | DoNewCard subclass pos label kwargs =>
    _ <- NewCard subclass pos label kwargs ;; ret tt
  | DoPlaceNewCard subclass pos below => PlaceNewCard subclass pos below
  | DoSelectCard card new_sel => SelectCard card new_sel
  | DoUnselectCard card => UnselectCard card
  | DoUnselectAll => UnselectAll
  | DoCopySelected => CopySelected
  | DoDeleteSelected => DeleteSelected
  | DoMoveSelected dx dy => MoveSelected dx dy
  | DoHArrange => HArrangeSelectedCards
  | DoVArrange => VArrangeSelectedCards
  | EvCardDelete card => OnCardDelete card
  | EvCardLeftDown card control_down ev_pos =>
    OnCardLeftDown card control_down ev_pos
  | EvMovingCard dragging ev_pos => OnMovingCard dragging ev_pos
  | EvCardLeftUp ev_pos => OnCardLeftUp ev_pos
  | EvLeftDown ev_pos => OnLeftDown ev_pos
  | EvDragSelect dragging ev_pos => OnDragSelect dragging ev_pos
  | EvLeftUp => OnLeftUp
  | EvLeftDClick ev_pos => OnLeftDClick ev_pos
  | EvFocus f => modify (set_focus f)
  end.

(** The board after an operation, whether it returned or raised. *)
Definition exec (st : Board) (op : Op) : Board := state_of (run op st).

Definition exec_all (ops : list Op) (st : Board) : Board :=
  foldl exec st ops.
End Methods.

(** *** Vocabulary for the statements below *)

(** The board once widget [w] has been constructed, focused and appended:
    what a successful [NewCard] leaves. *)
Definition with_new_card (w : CardW) (st : Board) : Board :=
  set_cards (cards st ++ [next_ref st])
    (set_focus (FocusCard (next_ref st))
       (set_next_ref (S (next_ref st))
          (set_heap (fun h => <[next_ref st := w]> h) st))).

(** Selecting a list of cards one by one, as the drag-select and the
    copy do: each card not yet selected joins at the end. *)
Fixpoint add_all (l sel : list ref) : list ref :=
  match l with
  | [] => sel
  | c :: l' => add_all l' (if decide (c ∈ sel) then sel else sel ++ [c])
  end.

(** A method keeps a property of the board, whether it returns or
    raises. *)
Definition preserves {A} (P : Board -> Prop) (m : M A) : Prop :=
  forall st, P st -> P (state_of (m st)).

(** No card is selected twice. *)
Definition selection_NoDup (st : Board) : Prop := NoDup (selected_cards st).

(** The body and size [NewCard] gives a card when no keyword argument is
    passed; [None] for a class name it does not know. *)
Definition default_card `{CardDefaults} (subclass : string)
  : option (Body * (Z * Z)) :=
  if decide (subclass = "Content") then
    Some (Content Content_DEFAULT_TITLE Content_DEFAULT_LBL
                  Content_DEFAULT_CONTENT, scaled Content_DEFAULT_SZ)
  else if decide (subclass = "Header") then
    Some (Header Header_DEFAULT_TITLE, scaled Header_DEFAULT_SZ)
  else if decide (subclass = "Image") then
    Some (Image Image_DEFAULT_PATH, scaled Image_DEFAULT_SZ)
  else None.

(** Among the board's cards that satisfy [P], [r] has the least (the
    greatest) label. *)
Definition least_label (st : Board) (P : ref -> Prop) (r : ref) : Prop :=
  r ∈ cards st /\ P r
  /\ forall d, d ∈ cards st -> P d -> label (heap st r) <= label (heap st d).

Definition greatest_label (st : Board) (P : ref -> Prop) (r : ref) : Prop :=
  r ∈ cards st /\ P r
  /\ forall d, d ∈ cards st -> P d -> label (heap st d) <= label (heap st r).

(** The cards with a label above (below) that of [cur]. *)
Definition above (st : Board) (cur : ref) : ref -> Prop :=
  fun d => label (heap st d) > label (heap st cur).
Definition below (st : Board) (cur : ref) : ref -> Prop :=
  fun d => label (heap st d) < label (heap st cur).
Definition any_card : ref -> Prop := fun _ => True.

(** No two cards of the board carry the same label. *)
Definition labels_distinct (st : Board) : Prop :=
  NoDup (map (fun c => label (heap st c)) (cards st)).

(** A chain of cards: the first is placed at [edge], each next one where
    the one before it ends, plus the padding. *)
Fixpoint laid_out (place : Z -> Wx.Point) (next : Wx.Rect -> Z)
  (h : ref -> CardW) (l : list ref) (edge : Z) : Prop :=
  match l with
  | [] => True
  | c :: l' =>
    Wx.GetPosition (rect (h c)) = place edge
    /\ laid_out place next h l' (next (rect (h c)) + CARD_PADDING)
  end.

(** Widget [w'] is widget [w] at another position. *)
Definition moved (w w' : CardW) : Prop :=
  label w' = label w /\ body w' = body w /\ shown w' = shown w
  /\ Wx.GetSize (rect w') = Wx.GetSize (rect w).

(** The selected cards that [CopySelected] duplicates. *)
Definition copyable (st : Board) (sel : list ref) : list ref :=
  filter (fun c => is_Content (body (heap st c)) || is_Header (body (heap st c)) = true) sel.

(** The size [NewCard] gives the copy of a widget with this body. *)
Definition copy_size `{CardDefaults} (b : Body) : Z * Z :=
  match b with
  | Content _ _ _ => scaled Content_DEFAULT_SZ
  | Header _ => scaled Header_DEFAULT_SZ
  | Image _ => scaled Image_DEFAULT_SZ
  end.

(** The widget [CopySelected] builds from card [c], as the [i]-th copy
    it makes: the same body at the offset position, with the default size
    of its class and the card count of that moment as label. *)
Definition copy_of `{CardDefaults} (st : Board) (i : nat) (c : ref) : CardW :=
  let w := heap st c in
  mkCardW (Z.of_nat (length (cards st) + i))
          (rect_at (Wx.point_add (Wx.GetPosition (rect w))
                                 (CARD_PADDING, CARD_PADDING))
                   (copy_size (body w)))
          (body w) true.

(** The handler calls of one drag on the empty board: the button goes
    down at [p1], the pointer moves with the button held through [via] and
    then to [p2], where the button is released. *)
Definition drag_select_gesture `{CardDefaults} (p1 : Wx.Point)
  (via : list Wx.Point) (p2 : Wx.Point) : M unit :=
  OnLeftDown p1 ;;
  for_ (via ++ [p2]) (fun q => OnDragSelect true q) ;;
  OnLeftUp.

(** *** Worked examples *)

(** Some values for the constants of [card.py], for running examples. *)
Definition sample_defaults : CardDefaults := {|
  Content_DEFAULT_TITLE := "";
  Content_DEFAULT_LBL := "kind";
  Content_DEFAULT_CONTENT := "";
  Content_DEFAULT_SZ := (250, 150);
  Content_BORDER_WIDTH := 5;
  Header_DEFAULT_TITLE := "";
  Header_DEFAULT_SZ := (150, 32);
  Image_DEFAULT_PATH := "";
  Image_DEFAULT_SZ := (50, 50);
  scaled := fun sz => sz |}.

(** Three Content cards created one after the other on an empty board,
    at (10,10), (400,40) and (90,200). *)
Definition three_cards : Board :=
  @exec_all sample_defaults
    [DoNewCard "Content" (10, 10) (-1) ∅;
     DoNewCard "Content" (400, 40) (-1) ∅;
     DoNewCard "Content" (90, 200) (-1) ∅] init.

(** The same board after the first card (label 0) has been selected and
    deleted: the survivors carry the labels 1 and 2. *)
Definition after_delete : Board :=
  @exec_all sample_defaults [DoSelectCard 0%nat true; DoDeleteSelected] three_cards.

(** The three cards, selected in the order second, first, third. *)
Definition all_selected : Board :=
  @exec_all sample_defaults
    [DoSelectCard 1%nat false; DoSelectCard 0%nat false;
     DoSelectCard 2%nat false] three_cards.

(** The board after the deletion, with the card labelled 2 selected. *)
Definition survivor_selected : Board :=
  @exec_all sample_defaults [DoSelectCard 2%nat true] after_delete.

(** A Header created 300 wide and 50 high, then selected. *)
Definition wide_header : Board :=
  @exec_all sample_defaults
    [DoNewCard "Header" (10, 10) (-1)
       (<["txt" := KwStr "Biology"]> (<["size" := KwSize 300 50]> ∅));
     DoSelectCard 0%nat true] init.

End Board.

(** ** More of the data model: position, size and [MoveBy] *)

Module CardGeometry.

Section Numbers.
(** The items of a rect are Python numbers, ints or floats, and [add] is
    Python's [+] on them; nothing is assumed of it. *)
Variable num : Type.
Variable add : num -> num -> num.

(** A rect is a list, as [NO_RECT] is, or a tuple, as
    [DEFAULT_RECT_CONT] is. *)
Inductive Seq : Type :=
| PyList (items : list num)
| PyTuple (items : list num).

Definition items (r : Seq) : list num :=
  match r with PyList l => l | PyTuple l => l end.

Record Card : Type := mkCard { id : Z; rect : Seq }.

(** A method of a card either completes or raises, and then too the card
    stays as the method left it. *)
Inductive Outcome : Type :=
| Done (self : Card)
| Failed (self : Card).

(** The getter of [Position]: [(self.rect[0], self.rect[1])]; [None] is
    the [IndexError] of a rect with fewer than two items. *)
Definition Position (self : Card) : option (num * num) :=
  x ← items (rect self) !! 0%nat; y ← items (rect self) !! 1%nat; Some (x, y).

(** The getter of [Size]: [(self.rect[2], self.rect[3])]. *)
Definition Size (self : Card) : option (num * num) :=
  w ← items (rect self) !! 2%nat; h ← items (rect self) !! 3%nat; Some (w, h).

(** [r[i] = v]: in place on a list, with [None] for the [IndexError];
    on a tuple [None] for the [TypeError]. *)
Definition setitem (r : Seq) (i : nat) (v : num) : option Seq :=
  match r with
  | PyList l =>
    if decide (i < length l)%nat then Some (PyList (<[i := v]> l)) else None
  | PyTuple _ => None
  end.

(** The setter of [Position]:
    [self.rect[0], self.rect[1] = pt[0], pt[1]], one item after the
    other. *)
Definition set_Position (self : Card) (pt : num * num) : Outcome :=
  match setitem (rect self) 0 pt.1 with
  | None => Failed self
  | Some r0 =>
    match setitem r0 1 pt.2 with
    | None => Failed (mkCard (id self) r0)
    | Some r1 => Done (mkCard (id self) r1)
    end
  end.

(** [MoveBy]: [self.Position = (self.rect[0] + dx, self.rect[1] + dy)];
    the right-hand side is read before anything is written. *)
Definition MoveBy (self : Card) (dx dy : num) : Outcome :=
  match items (rect self) !! 0%nat, items (rect self) !! 1%nat with
  | Some x, Some y => set_Position self (add x dx, add y dy)
  | _, _ => Failed self
  end.
End Numbers.

Arguments PyList {num} items.
Arguments PyTuple {num} items.
Arguments items {num} r.
Arguments mkCard {num} id rect.
Arguments id {num} c.
Arguments rect {num} c.
Arguments Done {num} self.
Arguments Failed {num} self.
Arguments Position {num} self.
Arguments Size {num} self.
Arguments MoveBy {num} add self dx dy.

End CardGeometry.

(** ** More of the toolkit's rectangles *)

Module WxRect.

(** [wx.DefaultCoord]: the coordinate that stands for "leave as it is". *)
Definition DefaultCoord : Z := -1.

(** [wx.Rect.Union]: the bounding rectangle of two rectangles, where a
    rectangle of width or height 0 counts for nothing. *)
Definition Union (a b : Wx.Rect) : Wx.Rect :=
  if decide (Wx.width a = 0 \/ Wx.height a = 0) then b
  else if decide (Wx.width b <> 0 /\ Wx.height b <> 0) then
    let x1 := Z.min (Wx.rx a) (Wx.rx b) in
    let y1 := Z.min (Wx.ry a) (Wx.ry b) in
    let y2 := Z.max (Wx.ry a + Wx.height a) (Wx.height b + Wx.ry b) in
    let x2 := Z.max (Wx.rx a + Wx.width a) (Wx.width b + Wx.rx b) in
    Wx.mkRect x1 y1 (x2 - x1) (y2 - y1)
  else a.

(** Rectangle [outer] reaches at least as far as [inner] on every side. *)
Definition covers (outer inner : Wx.Rect) : Prop :=
  Wx.rx outer <= Wx.rx inner /\ Wx.ry outer <= Wx.ry inner
  /\ Wx.rx inner + Wx.width inner <= Wx.rx outer + Wx.width outer
  /\ Wx.ry inner + Wx.height inner <= Wx.ry outer + Wx.height outer.

(** A rectangle whose sizes are not negative, and one that covers some
    pixel. *)
Definition nonneg (r : Wx.Rect) : Prop := 0 <= Wx.width r /\ 0 <= Wx.height r.
Definition nonempty (r : Wx.Rect) : Prop := 0 < Wx.width r /\ 0 < Wx.height r.

End WxRect.

(** ** [wxutils.AutoSize]: the virtual size of a scrolled window *)

Module AutoSize.

Definition SCROLL_STEP : Z := 10.

(** [_virtual_sz] is the size the window keeps for itself, [VirtualSize]
    the one it hands to the toolkit. *)
Record AutoSize : Type := mkAutoSize {
  _virtual_sz : Z * Z;
  VirtualSize : Z * Z }.

(** [UpdateVirtualSize]: both tests compare with the size on entry. *)
Definition UpdateVirtualSize (sz : Z * Z) (self : AutoSize) : AutoSize :=
  let flag := false in
  let virt_sz := _virtual_sz self in
  let '(flag, v) :=
    if decide (sz.1 > virt_sz.1) then (true, (sz.1, (_virtual_sz self).2))
    else (flag, _virtual_sz self) in
  let '(flag, v) :=
    if decide (sz.2 > virt_sz.2) then (true, (v.1, sz.2)) else (flag, v) in
  if flag then mkAutoSize v v else mkAutoSize v (VirtualSize self).

(** [FitToChildren]: [children] are the rectangles of the child windows,
    read with the scrollbars at the origin. *)
Definition FitToChildren (children : list Wx.Rect) (pad : Z)
  (self : AutoSize) : AutoSize :=
  if decide (length children = 0%nat) then self
  else
    let rect := foldl WxRect.Union (Wx.mkRect 0 0 0 0) children in
    let right := Wx.right rect + 1 in
    let bottom := Wx.bottom rect + 1 in
    let sz := _virtual_sz self in
    let sz := if decide (right > sz.1) then (right + pad, sz.2) else sz in
    let sz := if decide (bottom > sz.2) then (sz.1, bottom + pad) else sz in
    mkAutoSize sz sz.

(** [ExpandVirtualSize]. *)
Definition ExpandVirtualSize (dx dy : Z) (self : AutoSize) : AutoSize :=
  let size := ((_virtual_sz self).1 + dx, (_virtual_sz self).2 + dy) in
  mkAutoSize size size.

End AutoSize.

(** ** [BoardBase.ScrollToPoint] *)

Module Scrolling.

(** What [ScrollToPoint] asks of the toolkit: [None] when it returns
    without scrolling, else the two arguments of its call to [Scroll].
    [view_start] is [GetViewStart()], in scroll units, [client] is
    [GetClientSize()], and [pt] is a [wx.Point], whose coordinates are
    integers, so that [/=] is the floor division. *)
Definition ScrollToPoint (view_start client : Z * Z) (pt : Wx.Point)
  : option (Z * Z) :=
  let step := AutoSize.SCROLL_STEP in
  let view := (view_start.1 * step, view_start.2 * step) in
  let rect := Wx.mkRect view.1 view.2 client.1 client.2 in
  if Wx.Contains rect pt then None
  else
    let scroll := false in
    let pad := Board.CARD_PADDING in
    let ysc := WxRect.DefaultCoord in
    let xsc := WxRect.DefaultCoord in
    let '(scroll, xsc) :=
      if decide (pt.1 >= Wx.right rect \/ pt.1 <= Wx.left rect)
      then (true, (pt.1 - pad) / step) else (scroll, xsc) in
    let '(scroll, ysc) :=
      if decide (pt.2 <= Wx.top rect \/ pt.2 >= Wx.bottom rect)
      then (true, (pt.2 - pad) / step) else (scroll, ysc) in
    if scroll then Some (xsc, ysc) else None.

(** The rectangle [ScrollToPoint] takes for the part in view. *)
Definition view_rect (view_start client : Z * Z) : Wx.Rect :=
  Wx.mkRect (view_start.1 * AutoSize.SCROLL_STEP)
            (view_start.2 * AutoSize.SCROLL_STEP) client.1 client.2.

(** Scroll position [sc], in scroll units, is the one that starts the
    view at most one scroll step before the pixel [CARD_PADDING] short
    of [p]. *)
Definition brings_into_view (p sc : Z) : Prop :=
  AutoSize.SCROLL_STEP * sc <= p - Board.CARD_PADDING
  /\ p - Board.CARD_PADDING < AutoSize.SCROLL_STEP * sc + AutoSize.SCROLL_STEP.

End Scrolling.

(** ** [wxutils.GetAncestors] and [wxutils.GetCardAncestor] *)

Module WxUtils.

(** A window as these functions see it: which one it is, whether it is a
    card window, and its parent (a top-level window has none). *)
Inductive Window : Type :=
| TopWin (wid : nat) (is_card : bool)
| ChildWin (wid : nat) (is_card : bool) (parent : Window).

Definition wid (w : Window) : nat :=
  match w with TopWin i _ => i | ChildWin i _ _ => i end.
Definition is_card (w : Window) : bool :=
  match w with TopWin _ c => c | ChildWin _ c _ => c end.
Definition GetParent (w : Window) : option Window :=
  match w with TopWin _ _ => None | ChildWin _ _ p => Some p end.

(** [isinstance(p, CardWin)], where [p] may be Python's [None]. *)
Definition isinstance_CardWin (p : option Window) : bool :=
  match p with Some w => is_card w | None => false end.

(** The loop of [GetAncestors]: [while ctrl:
    ancestors.append(ctrl.GetParent()); ctrl = ctrl.GetParent()].  The
    last item appended is the [None] above the top-level window. *)
Fixpoint ancestors_loop (ctrl : Window) : list (option Window) :=
  match ctrl with
  | TopWin _ _ => [None]
  | ChildWin _ _ p => Some p :: ancestors_loop p
  end.

(** [del l[-1]]: [None] is the [IndexError] on an empty list. *)
Definition del_last {A} (l : list A) : option (list A) :=
  match l with
  | [] => None
  | _ => Some (removelast l)
  end.

(** [GetAncestors]: [ctrl] may be Python's [None], for which the loop
    does not run.  The outer [None] of the result is the exception. *)
Definition GetAncestors (ctrl : option Window) : option (list (option Window)) :=
  let ancestors :=
    match ctrl with
    | Some w => ancestors_loop w
    | None => []
    end in
  del_last ancestors.

(** [GetCardAncestor]: the first card window among the ancestors, or
    Python's [None]. *)
Definition GetCardAncestor (ctrl : option Window)
  : option (option Window) :=
  match GetAncestors ctrl with
  | None => None
  | Some ancestors =>
    let cards := filter (fun p => isinstance_CardWin p = true) ancestors in
    match cards with
    | c :: _ => Some c
    | [] => Some None
    end
  end.

(** Window [a] is the ancestor of [w] that is [n] steps above its
    parent. *)
Fixpoint nth_ancestor (n : nat) (w : Window) : option Window :=
  match n with
  | O => GetParent w
  | S n' => p ← GetParent w; nth_ancestor n' p
  end.

(** The proper ancestors of a window, the parent first. *)
Fixpoint chain (w : Window) : list Window :=
  match w with
  | TopWin _ _ => []
  | ChildWin _ _ p => p :: chain p
  end.

End WxUtils.

(** ** The frame of [notes.py]: selection commands *)

Module Notes.
Import Board.

(** [MyFrame.OnSelectAll]: [board.UnselectAll()], then
    [board.SelectCard(c)] for every card of the board. *)
Definition OnSelectAll : M unit :=
  UnselectAll ;;
  cs <- GetCards ;;
  for_ cs (fun c => SelectCard c false).

(** [MyFrame.OnSelectNone]. *)
Definition OnSelectNone : M unit :=
  UnselectAll ;;
  modify (set_focus FocusElsewhere).

End Notes.

(** ** [notes.py]: searching the cards' texts

    The frame keeps the finds of the last search, the string searched
    for and the index of the current find.  Painting the finds, and
    scrolling the current one into view, is the toolkit's and the
    board's; what the functions below keep is which finds are read, what
    gets the focus and what text gets selected. *)

Module Search.
Import Board.

(** The text controls of a card in which [Search] looks. *)
Inductive Field : Type := TitleField | ContentField | HeaderField.
Definition TextCtrl : Type := (ref * Field)%type.

(** What [SetFocus] was last called on. *)
Inductive FocusTarget : Type :=
| OnTextCtrl (ctrl : TextCtrl)
| OnCard (c : ref)
| OnBoard.

Record Frame : Type := mkFrame {
  search_find : list (TextCtrl * Z);
  search_str : string;
  search_head : option Z;
  search_ctrl_shown : bool;
  focus_on : option FocusTarget;
  text_selection : option (TextCtrl * (Z * Z)) }.

(** A method of the frame either completes or raises. *)
Inductive Outcome : Type :=
| Done (self : Frame)
| Failed (self : Frame).

(** Python's [txt.find(s)]: the lowest index at which [s] occurs in
    [txt], or -1. *)
Definition find (s txt : string) : Z :=
  match String.index 0 s txt with
  | Some n => Z.of_nat n
  | None => -1
  end.

(** Python's [l[i]]: a negative index counts from the end; [None] is the
    [IndexError]. *)
Definition getitem {A} (l : list A) (i : Z) : option A :=
  if decide (0 <= i) then l !! Z.to_nat i
  else if decide (- Z.of_nat (length l) <= i)
       then l !! Z.to_nat (Z.of_nat (length l) + i)
       else None.

Section WithLower.
(** Python's [lower()] on the texts. *)
Variable lower : string -> string.

(** The texts [Search] gathers, in lower case, each with its control:
    title and content of a Content, header of a Header. *)
Definition txt_ctrls (bd : Board) : list (string * TextCtrl) :=
  c ← cards bd;
  match body (heap bd c) with
  | Content title _ content =>
    [(lower title, (c, TitleField)); (lower content, (c, ContentField))]
  | Header header => [(lower header, (c, HeaderField))]
  | Image _ => []
  end.

(** [Search], for the text [value] of the search control and the current
    board [bd]. *)
Definition Search (value : string) (bd : Board) (self : Frame) : Frame :=
  let s := lower value in
  let reset :=
    mkFrame [] "" None (search_ctrl_shown self) (focus_on self)
            (text_selection self) in
  if decide (s = "") then reset
  else
    let finds :=
      omap (fun '(txt, ctrl) =>
              let pos := find s txt in
              if decide (pos > -1) then Some (ctrl, pos) else None)
           (txt_ctrls bd) in
    match finds with
    | _ :: _ =>
      mkFrame finds s (Some 0) (search_ctrl_shown self) (focus_on self)
              (text_selection self)
    | [] => reset
    end.
End WithLower.

(** [CancelSearch], where [sel] is the selection of the current board. *)
Definition CancelSearch (sel : list ref) (self : Frame) : Outcome :=
  match search_find self with
  | _ :: _ =>
    match search_head self with
    | None => Failed self
    | Some head =>
      match getitem (search_find self) (head - 1) with
      | None => Failed self
      | Some (ctrl, pos) =>
        Done (mkFrame [] "" None false (Some (OnTextCtrl ctrl))
                (Some (ctrl,
                       (pos, pos + Z.of_nat (String.length (search_str self))))))
      end
    end
  | [] =>
    let target :=
      match list.last sel with
      | Some c => OnCard c
      | None => OnBoard
      end in
    Done (mkFrame (search_find self) (search_str self) (search_head self)
            false (Some target) (text_selection self))
  end.

Definition set_search_head (h : option Z) (self : Frame) : Frame :=
  mkFrame (search_find self) (search_str self) h (search_ctrl_shown self)
          (focus_on self) (text_selection self).

(** Going from find to find reaches beyond the frame's variables: it
    scrolls the board and may uncollapse a card.  A view is the frame
    together with which cards are collapsed, the card last passed to
    [ScrollToCard], and the card and position last passed to
    [ScrollToChar]. *)
Record View : Type := mkView {
  frame : Frame;
  collapsed : ref -> bool;
  scrolled_to_card : option ref;
  scrolled_to_char : option (ref * Z) }.

Inductive Jump : Type :=
| Jumped (self : View)
| Stuck (self : View).

(** A title or content control sits in a Content, a header control in a
    Header: [isinstance(card, Content)] for the card of a control. *)
Definition in_Content (ctrl : TextCtrl) : bool :=
  match ctrl.2 with
  | TitleField | ContentField => true
  | HeaderField => false
  end.

(** [JumpSearchResults]: reads the finds at [old] and at [new]; the card
    of the new find, which [GetCardAncestor] answers for a text control
    of a card, is scrolled to, and a Content is uncollapsed if need be
    and scrolled to the position of the find. *)
Definition JumpSearchResults (old new : Z) (self : View) : Jump :=
  match getitem (search_find (frame self)) old with
  | None => Stuck self
  | Some _ =>
    match getitem (search_find (frame self)) new with
    | None => Stuck self
    | Some (ctrl, pos) =>
      let card := ctrl.1 in
      let self :=
        mkView (frame self) (collapsed self) (Some card)
               (scrolled_to_char self) in
      if in_Content ctrl then
        let self :=
          if collapsed self card
          then mkView (frame self) (<[card := false]> (collapsed self))
                      (scrolled_to_card self) (scrolled_to_char self)
          else self in
        Jumped (mkView (frame self) (collapsed self) (scrolled_to_card self)
                       (Some (card, pos)))
      else Jumped self
    end
  end.

Definition set_head (h : option Z) (self : View) : View :=
  mkView (set_search_head h (frame self)) (collapsed self)
         (scrolled_to_card self) (scrolled_to_char self).

Definition PrevSearchResult (self : View) : Jump :=
  match search_head (frame self) with
  | Some i =>
    let old := i in
    let new := i - 1 in
    let new :=
      if decide (new < 0) then Z.of_nat (length (search_find (frame self))) - 1
      else new in
    match JumpSearchResults old new self with
    | Jumped self => Jumped (set_head (Some new) self)
    | Stuck self => Stuck self
    end
  | None => Jumped self
  end.

Definition NextSearchResult (self : View) : Jump :=
  match search_head (frame self) with
  | Some i =>
    let old := i in
    let new := i + 1 in
    let new :=
      if decide (new >= Z.of_nat (length (search_find (frame self)))) then 0
      else new in
    match JumpSearchResults old new self with
    | Jumped self => Jumped (set_head (Some new) self)
    | Stuck self => Stuck self
    end
  | None => Jumped self
  end.

(** View [self'] is view [self] once the find at index [k] has been made
    the current one and shown: the frame differs in the index only, the
    find's card has been scrolled to, and if it is a Content it is not
    collapsed and has been scrolled to the find's position; a Header
    changes neither; no other card is collapsed or uncollapsed. *)
Definition shows (self : View) (k : Z) (self' : View) : Prop :=
  exists ctrl pos,
    search_find (frame self) !! Z.to_nat k = Some (ctrl, pos)
    /\ frame self' = set_search_head (Some k) (frame self)
    /\ scrolled_to_card self' = Some ctrl.1
    /\ (forall c, c <> ctrl.1 -> collapsed self' c = collapsed self c)
    /\ if in_Content ctrl
       then collapsed self' ctrl.1 = false
            /\ scrolled_to_char self' = Some (ctrl.1, pos)
       else collapsed self' ctrl.1 = collapsed self ctrl.1
            /\ scrolled_to_char self' = scrolled_to_char self.



(** The current find is one of the finds. *)
Definition head_in_range (self : Frame) (i : Z) : Prop :=
  search_head self = Some i
  /\ 0 <= i < Z.of_nat (length (search_find self)).

End Search.

(** ** More vocabulary for the board *)

Module BoardSpec.
Import Board.

(** A widget after [Hide()]. *)
Definition hidden (w : CardW) : CardW :=
  mkCardW (label w) (rect w) (body w) false.

(** A widget moved by a vector. *)
Definition shifted (d : Wx.Point) (w : CardW) : CardW :=
  mkCardW (label w) (Wx.move_to (Wx.point_add (Wx.GetPosition (rect w)) d) (rect w))
          (body w) (shown w).

(** A widget put at a position. *)
Definition placed_at (p : Wx.Point) (w : CardW) : CardW :=
  mkCardW (label w) (Wx.move_to p (rect w)) (body w) (shown w).

(** The selection a click on [card] leaves: the card alone, or with the
    control key the old selection with the card taken out if it was in
    and added at the end if it was not. *)
Definition after_click (control_down : bool) (card : ref)
  (sel : list ref) : list ref :=
  if control_down then
    if decide (card ∈ sel) then filter (fun d => d <> card) sel
    else sel ++ [card]
  else [card].

(** What [OnCardLeftDown] records for a selected card [c] when the click
    was at [click] on the board: the card, its position relative to the
    click, and its position. *)
Definition moving_entry (st : Board) (click : Wx.Point) (c : ref)
  : ref * Wx.Point * Wx.Point :=
  let cp := Wx.GetPosition (rect (heap st c)) in
  (c, Wx.point_sub cp click, cp).

(** The handler calls of one drag of a card: the button goes down on
    [card] at [p] (a position inside the card), the pointer moves with
    the button held through [via] and then to [q], where the button is
    released ([via] and [q] are positions on the board). *)
Definition drag_move_gesture `{CardDefaults} (card : ref)
  (control_down : bool) (p : Wx.Point) (via : list Wx.Point) (q : Wx.Point)
  : M unit :=
  OnCardLeftDown card control_down p ;;
  for_ (via ++ [q]) (fun m => OnMovingCard true m) ;;
  OnCardLeftUp q.

(** A click on a card: the button goes down and up with no motion in
    between. *)
Definition click_gesture `{CardDefaults} (card : ref)
  (control_down : bool) (p q : Wx.Point) : M unit :=
  OnCardLeftDown card control_down p ;;
  OnCardLeftUp q.

(** The body of the loop of [DeleteSelected]:
    [c.Hide(); self.cards.remove(c)]. *)
Definition delete_one (c : ref) : M unit :=
  Hide c ;;
  cs <- gets cards ;;
  cs' <- lift (Py.remove c cs) ;;
  modify (set_cards cs').

(** The board lists no card twice, and only cards that were
    constructed. *)
Definition cards_distinct (st : Board) : Prop :=
  NoDup (cards st) /\ forall c, c ∈ cards st -> (c < next_ref st)%nat.

(** The card at position [i] of the board carries the label [i]. *)
Definition labels_sequential (st : Board) : Prop :=
  cards_distinct st
  /\ forall (i : nat) c, cards st !! i = Some c ->
       label (heap st c) = Z.of_nat i.

(** Board [st'] has the cards of [st], with the labels they had, and has
    constructed no widget since. *)
Definition same_layout (st st' : Board) : Prop :=
  cards st' = cards st /\ next_ref st' = next_ref st
  /\ forall c, label (heap st' c) = label (heap st c).

(** The operations that neither delete a card nor choose a label. *)
Definition keeps_labels (op : Op) : bool :=
  match op with
  | DoNewCard _ _ lbl _ => bool_decide (lbl = -1)
  | DoDeleteSelected => false
  | EvCardDelete _ => false
  | _ => true
  end.

End BoardSpec.

(* ================================================================== *)
(** * Properties *)

(** ** Python's list primitives *)

Section PyFacts.
Context {A : Type} `{EqDecision A}.
Implicit Types (l : list A) (x : A) (key : A -> Z).

Lemma remove_is_Some x l : x ∈ l -> is_Some (Py.remove x l).
Proof.
  induction l as [|y l IH]; simpl; [by intros ?%elem_of_nil|].
  intros Hin. case_decide; [by eexists|].
  apply elem_of_cons in Hin as [->|Hin]; [done|].
  destruct (IH Hin) as [l' ->]. by eexists.
Qed.

Lemma remove_Some_head x l : Py.remove x (x :: l) = Some l.
Proof. simpl. by rewrite decide_True. Qed.

Lemma remove_Some_perm x l l' : Py.remove x l = Some l' -> l ≡ₚ x :: l'.
Proof.
  revert l'. induction l as [|y l IH]; simpl; intros l'; [done|].
  case_decide; [by intros [= <-]; subst|].
  destruct (Py.remove x l) as [l0|]; simpl; [|done].
  intros [= <-]. rewrite (IH l0 eq_refl). apply Permutation_swap.
Qed.

Lemma remove_None x l : Py.remove x l = None <-> x ∉ l.
Proof.
  split.
  - intros Hn Hin. apply remove_is_Some in Hin as [? ?]. congruence.
  - induction l as [|y l IH]; simpl; [done|].
    intros Hnin. apply not_elem_of_cons in Hnin as [? ?].
    rewrite decide_False by done. by rewrite IH.
Qed.

Lemma remove_Some_NoDup x l l' :
  Py.remove x l = Some l' -> NoDup l -> NoDup l'.
Proof.
  intros Hr Hnd. apply remove_Some_perm in Hr. rewrite Hr in Hnd.
  by apply list.NoDup_cons in Hnd as [_ ?].
Qed.

Lemma index_Some x l i :
  Py.index x l = Some i ->
  l !! i = Some x /\ forall j y, (j < i)%nat -> l !! j = Some y -> y <> x.
Proof.
  revert i. induction l as [|y l IH]; simpl; intros i; [done|].
  case_decide.
  - intros [= <-]. subst. split; [done|]. intros; lia.
  - destruct (Py.index x l) as [i0|]; simpl; [|done].
    intros [= <-]. destruct (IH i0 eq_refl) as [Hl Hlt]. split; [done|].
    intros [|j] z Hj; simpl; [by intros [= <-]|].
    apply Hlt. lia.
Qed.

Lemma index_is_Some x l : x ∈ l -> is_Some (Py.index x l).
Proof.
  induction l as [|y l IH]; simpl; [by intros ?%elem_of_nil|].
  intros Hin. case_decide; [by eexists|].
  apply elem_of_cons in Hin as [->|Hin]; [done|].
  destruct (IH Hin) as [i ->]. by eexists.
Qed.

(** The sort returns the same items, in ascending order of their keys,
    and keeps the order of items with equal keys: with the first two
    properties this determines the result, so [Py.sort] is the list
    Python's sort produces. *)
Lemma insert_key_perm key x l : Py.insert_key key x l ≡ₚ x :: l.
Proof.
  induction l as [|y l IH]; simpl; [done|].
  case_decide; [done|]. rewrite IH. apply Permutation_swap.
Qed.

Lemma sort_perm key l : Py.sort key l ≡ₚ l.
Proof.
  induction l as [|x l IH]; simpl; [done|].
  by rewrite insert_key_perm, IH.
Qed.

Definition ascending key : A -> A -> Prop := fun a b => key a <= key b.

Lemma insert_key_sorted key x l :
  StronglySorted (ascending key) l ->
  StronglySorted (ascending key) (Py.insert_key key x l).
Proof.
  induction 1 as [|y l Hs IH Hall]; simpl.
  - repeat constructor.
  - case_decide as Hle.
    + constructor; [by constructor|]. constructor; [done|].
      eapply list.Forall_impl; [exact Hall|]. unfold ascending. intros; lia.
    + constructor; [done|].
      rewrite insert_key_perm. constructor; [|done].
      unfold ascending. lia.
Qed.

Lemma sort_sorted key l : StronglySorted (ascending key) (Py.sort key l).
Proof.
  induction l as [|x l IH]; simpl; [constructor|].
  by apply insert_key_sorted.
Qed.

Lemma insert_key_stable key x l (k : Z) :
  StronglySorted (ascending key) l ->
  filter (fun a => key a = k) (Py.insert_key key x l)
  = filter (fun a => key a = k) (x :: l).
Proof.
  induction 1 as [|y l Hs IH Hall]; simpl; [done|].
  case_decide as Hle; [done|].
  rewrite !filter_cons. rewrite IH. rewrite !filter_cons.
  destruct (decide (key y = k)), (decide (key x = k)); try done.
  lia.
Qed.

Lemma sort_stable key l (k : Z) :
  filter (fun a => key a = k) (Py.sort key l) = filter (fun a => key a = k) l.
Proof.
  induction l as [|x l IH]; simpl; [done|].
  rewrite insert_key_stable by apply sort_sorted.
  by rewrite !filter_cons, IH.
Qed.

Lemma sort_elem_of key l x : x ∈ Py.sort key l <-> x ∈ l.
Proof. by rewrite sort_perm. Qed.

Lemma sort_nil_inv key l : Py.sort key l = [] -> l = [].
Proof.
  intros Hs. apply Permutation_nil_r. rewrite <- Hs. symmetry. apply sort_perm.
Qed.

(** The first item of the sorted list has the least key. *)
Lemma sort_head_least key l c :
  list.head (Py.sort key l) = Some c ->
  c ∈ l /\ forall d, d ∈ l -> key c <= key d.
Proof.
  intros Hh. pose proof (sort_sorted key l) as Hs.
  destruct (Py.sort key l) as [|c' s] eqn:E; simplify_eq/=.
  apply StronglySorted_inv in Hs as [_ Hall].
  split.
  - apply (sort_elem_of key). rewrite E. left.
  - intros d Hd. apply (sort_elem_of key) in Hd. rewrite E in Hd.
    apply elem_of_cons in Hd as [->|Hd]; [lia|].
    rewrite list.Forall_forall in Hall. by apply Hall.
Qed.

(** The last item of the sorted list has the greatest key. *)
Lemma sorted_last_greatest key s c :
  StronglySorted (ascending key) s ->
  list.last s = Some c -> forall d, d ∈ s -> key d <= key c.
Proof.
  intros Hs Hl. apply last_Some in Hl as [s' ->].
  intros d Hd. apply elem_of_app in Hd as [Hd|Hd].
  - eapply (StronglySorted_app_1_elem_of _ _ _ d c) in Hs; [done..|].
    apply list_elem_of_singleton. done.
  - apply list_elem_of_singleton in Hd as ->. lia.
Qed.

Lemma sort_last_greatest key l c :
  list.last (Py.sort key l) = Some c ->
  c ∈ l /\ forall d, d ∈ l -> key d <= key c.
Proof.
  intros Hl. split.
  - apply (sort_elem_of key). by eapply last_Some_elem_of.
  - intros d Hd. eapply sorted_last_greatest; eauto using sort_sorted.
    by apply sort_elem_of.
Qed.
End PyFacts.

Section PyMinMax.
Implicit Types (l : list Z).

Lemma foldl_min_spec l a :
  (foldl Z.min a l = a \/ foldl Z.min a l ∈ l)
  /\ foldl Z.min a l <= a /\ forall x, x ∈ l -> foldl Z.min a l <= x.
Proof.
  revert a. induction l as [|y l IH]; intros a; simpl.
  - split; [by left|]. split; [lia|]. by intros x ?%elem_of_nil.
  - destruct (IH (Z.min a y)) as (Hin & Hle & Hall). repeat split.
    + destruct Hin as [Heq|Hin]; [|right; by right].
      rewrite Heq. destruct (Z.min_spec a y) as [[_ ->]|[_ ->]];
        [by left|right; left].
    + lia.
    + intros x [->|Hx]%elem_of_cons; [lia|by apply Hall].
Qed.

Lemma foldl_max_spec l a :
  (foldl Z.max a l = a \/ foldl Z.max a l ∈ l)
  /\ a <= foldl Z.max a l /\ forall x, x ∈ l -> x <= foldl Z.max a l.
Proof.
  revert a. induction l as [|y l IH]; intros a; simpl.
  - split; [by left|]. split; [lia|]. by intros x ?%elem_of_nil.
  - destruct (IH (Z.max a y)) as (Hin & Hle & Hall). repeat split.
    + destruct Hin as [Heq|Hin]; [|right; by right].
      rewrite Heq. destruct (Z.max_spec a y) as [[_ ->]|[_ ->]];
        [right; left|by left].
    + lia.
    + intros x [->|Hx]%elem_of_cons; [lia|by apply Hall].
Qed.

Lemma min_Some l m :
  Py.min l = Some m -> m ∈ l /\ forall x, x ∈ l -> m <= x.
Proof.
  destruct l as [|a l]; simpl; [done|]. intros [= <-].
  destruct (foldl_min_spec l a) as (Hin & Hle & Hall). split.
  - destruct Hin as [->|Hin]; [left|by right].
  - intros x [->|Hx]%elem_of_cons; [done|by apply Hall].
Qed.

Lemma max_Some l m :
  Py.max l = Some m -> m ∈ l /\ forall x, x ∈ l -> x <= m.
Proof.
  destruct l as [|a l]; simpl; [done|]. intros [= <-].
  destruct (foldl_max_spec l a) as (Hin & Hle & Hall). split.
  - destruct Hin as [->|Hin]; [left|by right].
  - intros x [->|Hx]%elem_of_cons; [done|by apply Hall].
Qed.

Lemma min_is_Some l : l <> [] -> is_Some (Py.min l).
Proof. destruct l; [done|]. by eexists. Qed.

Lemma max_is_Some l : l <> [] -> is_Some (Py.max l).
Proof. destruct l; [done|]. by eexists. Qed.
End PyMinMax.

Section PySortHead.
Context {A : Type} `{EqDecision A}.
Implicit Types (l : list A) (key : A -> Z).

Lemma index_filter_head key l m i c :
  Py.index m (map key l) = Some i -> l !! i = Some c ->
  exists rest, filter (fun a => key a = m) l = c :: rest.
Proof.
  revert i. induction l as [|y l IH]; intros i; simpl; [done|].
  rewrite filter_cons. case_decide as Hk.
  - intros [= <-]. simpl. intros [= <-]. by eexists.
  - destruct (Py.index m (map key l)) as [i0|] eqn:E; simpl; [|done].
    intros [= <-]. simpl. intros Hl. by eapply IH.
Qed.

(** The item that [arrange[keys.index(min(keys))]] picks is the one the
    stable sort puts first. *)
Lemma sort_head_index key l m i c :
  Py.min (map key l) = Some m ->
  Py.index m (map key l) = Some i ->
  l !! i = Some c ->
  exists rest, Py.sort key l = c :: rest.
Proof.
  intros Hmin Hidx Hc.
  apply min_Some in Hmin as [_ Hleast].
  assert (Hkc : key c = m).
  { apply index_Some in Hidx as [Hi _].
    rewrite list_lookup_fmap, Hc in Hi. by simplify_eq/=. }
  destruct (Py.sort key l) as [|c' s] eqn:E.
  { apply sort_nil_inv in E. subst. done. }
  assert (Hh : list.head (Py.sort key l) = Some c') by (by rewrite E).
  apply sort_head_least in Hh as [Hin Hle].
  assert (Hkc' : key c' = m).
  { apply Z.le_antisymm.
    - rewrite <- Hkc. apply Hle. by eapply list_elem_of_lookup_2.
    - apply Hleast. by apply list_elem_of_fmap_2. }
  pose proof (sort_stable key l m) as Hst. rewrite E in Hst.
  rewrite filter_cons, decide_True in Hst by done.
  destruct (index_filter_head key l m i c Hidx Hc) as [rest Hrest].
  rewrite Hrest in Hst. simplify_eq. by eexists.
Qed.
End PySortHead.

(** ** The data model *)

Section ModelFacts.
Import Threepy5.

(** [Load] after [Dump] copies [id] and [rect] into the target and leaves
    everything else of the target as it was. *)
Lemma Load_Dump {T} `{CardClass T} (target c : T) :
  Load target (Dump c) = Some (with_base (base c) target).
Proof.
  unfold Load, Dump.
  rewrite lookup_insert_eq, lookup_insert_ne, lookup_insert_eq by done.
  by destruct (base c).
Qed.

Lemma Load_Dump_Card (target c : Card) : Load target (Dump c) = Some c.
Proof. by rewrite Load_Dump. Qed.

Lemma Load_Dump_base {T} `{CardClass T} (target c t' : T) :
  (forall b t, base (with_base b t) = b) ->
  Load target (Dump c) = Some t' ->
  id (base t') = id (base c) /\ rect (base t') = rect (base c).
Proof. intros Hb. rewrite Load_Dump. intros [= <-]. by rewrite Hb. Qed.
End ModelFacts.

(** C1: a round trip through [Dump] and [Load] should give back every
    field.  The code does not: [Content], [Header] and [Image] inherit
    [Card.Dump] and [Card.Load], which carry [id] and [rect] only, so a
    card loaded into a fresh instance of its class has the right [id] and
    [rect] but the constructor's defaults in every other field. *)
Theorem Dump_Load_drops_subclass_fields :
  let c := Threepy5.mkContent (Threepy5.mkCard 7 [10; 20; 250; 150])
             "Protein" "Concept" 2 "Chains of amino-acids" true in
  let h := Threepy5.mkHeader (Threepy5.mkCard 8 [0; 0; 150; 32]) "Biology" in
  let i := Threepy5.mkImage (Threepy5.mkCard 9 [5; 5; 50; 50]) "cell.png" (1 # 2) in
  Threepy5.Load Threepy5.new_Content (Threepy5.Dump c)
  = Some (Threepy5.mkContent (Threepy5.mkCard 7 [10; 20; 250; 150])
            "" "kind" 0 "" false)
  /\ Threepy5.Load Threepy5.new_Content (Threepy5.Dump c) <> Some c
  /\ Threepy5.Load Threepy5.new_Header (Threepy5.Dump h)
     = Some (Threepy5.mkHeader (Threepy5.mkCard 8 [0; 0; 150; 32]) "")
  /\ Threepy5.Load Threepy5.new_Header (Threepy5.Dump h) <> Some h
  /\ Threepy5.Load Threepy5.new_Image (Threepy5.Dump i)
     = Some (Threepy5.mkImage (Threepy5.mkCard 9 [5; 5; 50; 50]) "" 1%Q)
  /\ Threepy5.Load Threepy5.new_Image (Threepy5.Dump i) <> Some i.
Proof.
  intros c h i. rewrite !Load_Dump. repeat split; done.
Qed.

(** C2: on a Content whose rating lies in [0, RATING_MAX], with
    RATING_MAX = 3, [IncreaseRating] turns RATING_MAX into 0 when [wrap]
    is set and leaves it alone otherwise, adds one to any smaller rating,
    and in every case leaves a rating in [0, RATING_MAX]; no other field
    changes. *)
Theorem IncreaseRating_spec (c : Threepy5.Content) (wrap : bool) :
  0 <= Threepy5.rating c <= Threepy5.RATING_MAX ->
  Threepy5.RATING_MAX = 3
  /\ Threepy5.rating (Threepy5.IncreaseRating c wrap)
     = (if decide (Threepy5.rating c = Threepy5.RATING_MAX)
        then (if wrap then 0 else Threepy5.RATING_MAX)
        else Threepy5.rating c + 1)
  /\ 0 <= Threepy5.rating (Threepy5.IncreaseRating c wrap) <= Threepy5.RATING_MAX
  /\ Threepy5.IncreaseRating c wrap
     = Threepy5.mkContent (Threepy5.content_base c) (Threepy5.title c)
         (Threepy5.kind c) (Threepy5.rating (Threepy5.IncreaseRating c wrap))
         (Threepy5.content c) (Threepy5.collapsed c).
Proof.
  intros Hr. unfold Threepy5.IncreaseRating, Threepy5.RATING_MAX in *.
  destruct c as [b t k r co cl]; simpl in *.
  split; [done|].
  destruct wrap; simpl; repeat case_bool_decide; repeat case_decide;
    simpl; repeat split; try lia; try done.
Qed.

Lemma IncreaseRating_spec_witness :
  let c := Threepy5.mkContent Threepy5.new_Card "t" "Fact" 3 "" false in
  0 <= Threepy5.rating c <= Threepy5.RATING_MAX
  /\ Threepy5.rating (Threepy5.IncreaseRating c true) = 0
  /\ Threepy5.rating (Threepy5.IncreaseRating c false) = 3.
Proof.
  intros c.
  assert (Hr : 0 <= Threepy5.rating c <= Threepy5.RATING_MAX)
    by (vm_compute; split; discriminate).
  split; [exact Hr|]. split.
  - exact (proj1 (proj2 (IncreaseRating_spec c true Hr))).
  - exact (proj1 (proj2 (IncreaseRating_spec c false Hr))).
Defined.

(** ** The toolkit's rectangles *)

Section WxFacts.
Implicit Types (a b r : Wx.Rect) (p : Wx.Point).

(** Two rectangles intersect exactly when they share a pixel. *)
Lemma Intersects_spec a b :
  Wx.Intersects a b = true <->
  exists p, Wx.Contains a p = true /\ Wx.Contains b p = true.
Proof.
  unfold Wx.Intersects, Wx.Intersect, Wx.Contains, Wx.right, Wx.bottom.
  split.
  - intros Hi%bool_decide_eq_true. case_decide as Hd; simpl in Hi; [done|].
    exists (Z.max (Wx.rx a) (Wx.rx b), Z.max (Wx.ry a) (Wx.ry b)).
    split; apply bool_decide_eq_true; simpl; lia.
  - intros ([x y] & Ha%bool_decide_eq_true & Hb%bool_decide_eq_true).
    simpl in *. apply bool_decide_eq_true.
    case_decide as Hd; simpl; lia.
Qed.

Lemma Intersects_comm a b : Wx.Intersects a b = Wx.Intersects b a.
Proof.
  apply eq_true_iff_eq. rewrite !Intersects_spec.
  split; intros (p & ? & ?); eauto.
Qed.

(** The encircling rectangle has its corner at the smaller coordinates,
    never a negative size, and does not depend on the direction of the
    drag. *)
Lemma MakeEncirclingRect_normal p1 p2 :
  let r := MakeEncirclingRect p1 p2 in
  0 <= Wx.width r /\ 0 <= Wx.height r
  /\ Wx.left r = Z.min p1.1 p2.1 /\ Wx.top r = Z.min p1.2 p2.2
  /\ Wx.left r + Wx.width r = Z.max p1.1 p2.1
  /\ Wx.top r + Wx.height r = Z.max p1.2 p2.2.
Proof. unfold MakeEncirclingRect, Wx.left, Wx.top. simpl. lia. Qed.

Lemma MakeEncirclingRect_comm p1 p2 :
  MakeEncirclingRect p1 p2 = MakeEncirclingRect p2 p1.
Proof. unfold MakeEncirclingRect. f_equal; lia. Qed.

Lemma point_add_sub p q : Wx.point_add p (Wx.point_sub q p) = q.
Proof. destruct p, q. unfold Wx.point_add, Wx.point_sub. simpl. f_equal; lia. Qed.
End WxFacts.

(** Reading a field of a board that was just updated, without unfolding
    the methods. *)
Ltac board_simpl :=
  cbn [Board.heap Board.next_ref Board.cards Board.selected_cards
       Board.moving_cards_pos Board.drag_select Board.on_motion
       Board.init_pos Board.cur_pos Board.focus
       Board.set_heap Board.set_next_ref Board.set_cards
       Board.set_selected_cards Board.set_moving_cards_pos
       Board.set_drag_select Board.set_on_motion Board.set_init_pos
       Board.set_cur_pos Board.set_focus Board.with_new_card
       Board.upd_card Board.state_of Board.lift Board.ret] in *.

(** ** The board: selection *)

Section Selection.
Import Board.

Lemma UnselectCard_run c st :
  UnselectCard c st =
  Return tt (match Py.remove c (selected_cards st) with
             | Some l => set_selected_cards l st
             | None => st
             end).
Proof.
  unfold UnselectCard, bind, gets. case_decide as Hin.
  - destruct (remove_is_Some _ _ Hin) as [l ->]. done.
  - apply remove_None in Hin. rewrite Hin. done.
Qed.

(** The loop of [UnselectAll] always ends, with nothing selected and
    nothing else touched. *)
Lemma UnselectAll_run st :
  UnselectAll st = Return tt (set_selected_cards [] st).
Proof.
  funelim (UnselectAll st); try clear Heqcall;
    repeat match goal with
           | H : sigmaI _ _ _ = _ |- _ => clear H
           end.
  - destruct st; simpl in *; by subst.
  - rewrite UnselectCard_run, Hsel, remove_Some_head in Hrun.
    injection Hrun as _ <-. rewrite H. done.
  - rewrite UnselectCard_run in e. done.
Qed.

Lemma SelectCard_new_run c st :
  SelectCard c true st = Return tt (set_selected_cards [c] st).
Proof. unfold SelectCard, bind. by rewrite UnselectAll_run. Qed.

Lemma SelectCard_add_run c st :
  SelectCard c false st =
  Return tt (if decide (c ∈ selected_cards st) then st
             else set_selected_cards (selected_cards st ++ [c]) st).
Proof.
  unfold SelectCard, bind, gets.
  destruct (decide (c ∈ selected_cards st)).
  - by rewrite decide_False by auto.
  - by rewrite decide_True.
Qed.

Lemma for_SelectCard_run l st :
  exists st', for_ l (fun c => SelectCard c false) st = Return tt st'
    /\ selected_cards st' = add_all l (selected_cards st)
    /\ heap st' = heap st /\ cards st' = cards st
    /\ next_ref st' = next_ref st.
Proof.
  revert st. induction l as [|c l IH]; intros st; cbn [for_ add_all].
  - by eexists.
  - unfold bind. rewrite SelectCard_add_run.
    match goal with |- context [for_ l _ ?s] => destruct (IH s) as (st' & -> & Hs & Hh & Hc & Hn) end.
    exists st'. split; [done|]. rewrite Hs, Hh, Hc, Hn.
    by case_decide.
Qed.

Lemma add_all_elem_of l sel c : c ∈ add_all l sel <-> c ∈ sel \/ c ∈ l.
Proof.
  revert sel. induction l as [|x l IH]; intros sel; simpl.
  - rewrite elem_of_nil. tauto.
  - rewrite IH, elem_of_cons. case_decide as Hx.
    + split; [tauto|]. intros [?|[->|?]]; auto.
    + rewrite elem_of_app, list_elem_of_singleton. tauto.
Qed.

Lemma add_all_NoDup l sel : NoDup sel -> NoDup (add_all l sel).
Proof.
  revert sel. induction l as [|x l IH]; intros sel Hnd; simpl; [done|].
  apply IH. case_decide as Hx; [done|].
  apply list.NoDup_app. split; [done|]. split.
  - intros y Hy ->%list_elem_of_singleton. done.
  - apply list.NoDup_singleton.
Qed.

Lemma add_all_fresh l : NoDup l -> add_all l [] = l.
Proof.
  assert (forall sel, NoDup (sel ++ l) -> add_all l sel = sel ++ l) as Hgen.
  { induction l as [|x l IH]; intros sel Hnd; simpl.
    - by rewrite app_nil_r.
    - rewrite decide_False.
      + rewrite IH; rewrite <- app_assoc; done.
      + apply list.NoDup_app in Hnd as (_ & Hd & _). intros Hx.
        apply (Hd x Hx). left. }
  intros Hnd. by rewrite Hgen.
Qed.
End Selection.

(** C9: whatever was selected before, [SelectCard(c, new_sel=True)]
    returns with [GetSelection()] equal to the one-item list [[c]]; the
    [UnselectAll] it starts with leaves nothing selected. *)
Theorem SelectCard_new_sel_selects_exactly (st : Board.Board) (c : Board.ref) :
  exists st0 st',
    Board.UnselectAll st = Board.Return tt st0
    /\ Board.selected_cards st0 = []
    /\ Board.SelectCard c true st = Board.Return tt st'
    /\ Board.GetSelection st' = Board.Return [c] st'
    /\ Board.cards st' = Board.cards st /\ Board.heap st' = Board.heap st.
Proof.
  exists (Board.set_selected_cards [] st), (Board.set_selected_cards [c] st).
  rewrite UnselectAll_run, SelectCard_new_run. done.
Qed.

(** ** Properties kept by every method *)

Section Preserves.
Import Board.
Context (P : Board -> Prop).

Lemma preserves_ret {A} (a : A) : preserves P (ret a).
Proof. by intros st HP. Qed.

Lemma preserves_raise {A} : preserves P (@raise A).
Proof. by intros st HP. Qed.

Lemma preserves_gets {A} (f : Board -> A) : preserves P (gets f).
Proof. by intros st HP. Qed.

Lemma preserves_lift {A} (o : option A) : preserves P (lift o).
Proof. by destruct o; intros st HP. Qed.

Lemma preserves_modify f :
  (forall st, P st -> P (f st)) -> preserves P (modify f).
Proof. intros Hf st HP. by apply Hf. Qed.

Lemma preserves_bind {A B} (m : M A) (k : A -> M B) :
  preserves P m -> (forall a, preserves P (k a)) -> preserves P (bind m k).
Proof.
  intros Hm Hk st HP. unfold bind. specialize (Hm st HP).
  destruct (m st) as [a st'|st']; simpl in *; [by apply Hk|done].
Qed.

Lemma preserves_for {A} (l : list A) (body : A -> M unit) :
  (forall x, preserves P (body x)) -> preserves P (for_ l body).
Proof.
  intros Hb. induction l as [|x l IH]; cbn [for_].
  - apply preserves_ret.
  - apply preserves_bind; [apply Hb|by intros _].
Qed.
End Preserves.

Create HintDb pres discriminated.

#[local] Hint Resolve preserves_ret preserves_raise preserves_gets
  preserves_lift : pres.

(** One step of a proof that a method keeps a property: split a
    sequence, enter a loop, or take a branch. *)
Ltac pres_step :=
  first
    [ solve [auto with pres]
    | apply preserves_bind; [|intros ?]
    | apply preserves_for; intros ?; cbv beta
    | match goal with
      | |- Board.preserves _ (if ?b then _ else _) => destruct b
      | |- Board.preserves _ (match ?x with _ => _ end) => destruct x
      end ].

Section SelectionInvariant.
Import Board.
Context `{CardDefaults}.

(** A change that leaves [selected_cards] alone keeps the invariant. *)
Lemma modify_keeps_selection f :
  (forall st, selected_cards (f st) = selected_cards st) ->
  preserves selection_NoDup (modify f).
Proof.
  intros Hf. apply preserves_modify. unfold selection_NoDup.
  intros st. by rewrite Hf.
Qed.

Lemma alloc_keeps_selection w : preserves selection_NoDup (alloc w).
Proof. by intros st HP. Qed.

Lemma UnselectCard_keeps_selection c :
  preserves selection_NoDup (UnselectCard c).
Proof.
  intros st HP. rewrite UnselectCard_run. simpl.
  destruct (Py.remove c (selected_cards st)) as [l|] eqn:E; [|done].
  unfold selection_NoDup. simpl. by eapply remove_Some_NoDup.
Qed.

Lemma UnselectAll_keeps_selection : preserves selection_NoDup UnselectAll.
Proof.
  intros st HP. rewrite UnselectAll_run. apply NoDup_nil_2.
Qed.

Lemma SelectCard_keeps_selection c new_sel :
  preserves selection_NoDup (SelectCard c new_sel).
Proof.
  intros st HP. destruct new_sel.
  - rewrite SelectCard_new_run. apply list.NoDup_singleton.
  - rewrite SelectCard_add_run. simpl. case_decide as Hc; [done|].
    unfold selection_NoDup. simpl.
    apply (add_all_NoDup [c]) in HP. simpl in HP.
    by rewrite decide_False in HP.
Qed.

#[local] Hint Resolve alloc_keeps_selection UnselectCard_keeps_selection
  UnselectAll_keeps_selection SelectCard_keeps_selection : pres.
#[local] Hint Extern 1 (preserves selection_NoDup (modify _)) =>
  (apply modify_keeps_selection; intros ?; reflexivity) : pres.
#[local] Hint Extern 1 (preserves selection_NoDup (SetPosition _ _)) =>
  (apply modify_keeps_selection; intros ?; reflexivity) : pres.
#[local] Hint Extern 1 (preserves selection_NoDup (Move _ _)) =>
  (apply modify_keeps_selection; intros ?; reflexivity) : pres.
#[local] Hint Extern 1 (preserves selection_NoDup (Hide _)) =>
  (apply modify_keeps_selection; intros ?; reflexivity) : pres.
#[local] Hint Extern 1 (preserves selection_NoDup (SetFocus _)) =>
  (apply modify_keeps_selection; intros ?; reflexivity) : pres.
#[local] Hint Extern 1 (preserves selection_NoDup (GetRect _)) =>
  apply preserves_gets : pres.
#[local] Hint Extern 1 (preserves selection_NoDup (GetPosition _)) =>
  apply preserves_gets : pres.
#[local] Hint Extern 1 (preserves selection_NoDup (get_body _)) =>
  apply preserves_gets : pres.
#[local] Hint Extern 1 (preserves selection_NoDup GetCards) =>
  apply preserves_gets : pres.
#[local] Hint Extern 1 (preserves selection_NoDup GetSelection) =>
  apply preserves_gets : pres.

Lemma kw_str_keeps_selection kwargs key default :
  preserves selection_NoDup (kw_str kwargs key default).
Proof. unfold kw_str. repeat pres_step. Qed.

Lemma kw_size_keeps_selection kwargs key default :
  preserves selection_NoDup (kw_size kwargs key default).
Proof. unfold kw_size. repeat pres_step. Qed.

#[local] Hint Resolve kw_str_keeps_selection kw_size_keeps_selection : pres.

Lemma GetFocusedCard_keeps_selection :
  preserves selection_NoDup GetFocusedCard.
Proof. unfold GetFocusedCard. repeat pres_step. Qed.

Lemma NewCard_keeps_selection subclass pos label kwargs :
  preserves selection_NoDup (NewCard subclass pos label kwargs).
Proof. unfold NewCard. repeat pres_step. Qed.

#[local] Hint Resolve GetFocusedCard_keeps_selection
  NewCard_keeps_selection : pres.

Lemma PlaceNewCard_keeps_selection subclass pos below :
  preserves selection_NoDup (PlaceNewCard subclass pos below).
Proof. unfold PlaceNewCard. repeat pres_step. Qed.

Lemma MoveSelected_keeps_selection dx dy :
  preserves selection_NoDup (MoveSelected dx dy).
Proof. unfold MoveSelected, MoveCard. repeat pres_step. Qed.

Lemma copy_loop_keeps_selection sel new :
  preserves selection_NoDup (copy_loop sel new).
Proof.
  revert new. induction sel as [|c sel IH]; intros new; cbn [copy_loop].
  - apply preserves_ret.
  - repeat pres_step.
Qed.

#[local] Hint Resolve copy_loop_keeps_selection : pres.

Lemma CopySelected_keeps_selection : preserves selection_NoDup CopySelected.
Proof. unfold CopySelected. repeat pres_step. Qed.

Lemma DeleteSelected_keeps_selection :
  preserves selection_NoDup DeleteSelected.
Proof. unfold DeleteSelected. repeat pres_step. Qed.

Lemma place_loop_keeps_selection place next arrange edge :
  preserves selection_NoDup (place_loop place next arrange edge).
Proof.
  revert edge. induction arrange as [|c l IH]; intros edge; cbn [place_loop].
  - apply preserves_ret.
  - repeat pres_step.
Qed.

#[local] Hint Resolve place_loop_keeps_selection : pres.

Lemma HArrange_keeps_selection :
  preserves selection_NoDup HArrangeSelectedCards.
Proof. unfold HArrangeSelectedCards. repeat pres_step. Qed.

Lemma VArrange_keeps_selection :
  preserves selection_NoDup VArrangeSelectedCards.
Proof. unfold VArrangeSelectedCards. repeat pres_step. Qed.

#[local] Hint Resolve PlaceNewCard_keeps_selection
  MoveSelected_keeps_selection CopySelected_keeps_selection
  DeleteSelected_keeps_selection HArrange_keeps_selection
  VArrange_keeps_selection : pres.

Lemma OnCardLeftUp_keeps_selection ev_pos :
  preserves selection_NoDup (OnCardLeftUp ev_pos).
Proof.
  unfold OnCardLeftUp.
  apply preserves_bind; [auto with pres|intros moving_now].
  apply preserves_bind; [|intros _; auto with pres].
  destruct moving_now; [|auto with pres].
  apply preserves_bind; [|intros _; repeat pres_step].
  apply preserves_modify. intros st _. apply NoDup_nil_2.
Qed.

Lemma run_keeps_selection op : preserves selection_NoDup (run op).
Proof.
  destruct op; cbn [run];
    try (unfold OnCardDelete, OnCardLeftDown, OnMovingCard, OnLeftDown,
           OnDragSelect, OnLeftUp, OnLeftDClick; repeat pres_step; fail).
  apply OnCardLeftUp_keeps_selection.
Qed.

Lemma exec_all_keeps_selection ops st :
  selection_NoDup st -> selection_NoDup (exec_all ops st).
Proof.
  revert st. induction ops as [|op ops IH]; intros st HP; simpl; [done|].
  apply IH. by apply run_keeps_selection.
Qed.
End SelectionInvariant.

(** C10: the selection never holds a card twice.  From a board whose
    selection has no repetition (the empty selection of a new board is
    one), whatever sequence of the board's operations and handlers runs
    -- [SelectCard] in either mode, [UnselectCard], [UnselectAll], the
    end of a drag-select, [DeleteSelected], [CopySelected] and the
    others, returning or raising -- the selection afterwards has no
    repetition; and [SelectCard(c, new_sel=False)] on a card already
    selected returns without changing the board. *)
Theorem selection_never_repeats `{Board.CardDefaults}
  (ops : list Board.Op) (st : Board.Board) (c : Board.ref) :
  NoDup (Board.selected_cards st) ->
  NoDup (Board.selected_cards (Board.exec_all ops st))
  /\ (c ∈ Board.selected_cards (Board.exec_all ops st) ->
      Board.SelectCard c false (Board.exec_all ops st)
      = Board.Return tt (Board.exec_all ops st)).
Proof.
  intros Hnd. split.
  - by apply exec_all_keeps_selection.
  - intros Hc. rewrite SelectCard_add_run. by rewrite decide_True.
Qed.

(** ** The board: creating and placing cards *)

Section Creation.
Import Board.
Context `{CardDefaults}.

(** Whatever the arguments, [NewCard] either returns the new widget,
    appended to [cards] and carrying the requested label (the number of
    cards so far when the label is -1) at the requested position, or
    raises with the board untouched. *)
Lemma NewCard_result subclass pos lbl kwargs st :
  match NewCard subclass pos lbl kwargs st with
  | Return new st' =>
    new = next_ref st
    /\ exists w, st' = with_new_card w st
         /\ label w = (if decide (lbl = -1) then Z.of_nat (length (cards st))
                       else lbl)
         /\ Wx.GetPosition (rect w) = pos
  | Raise st' => st' = st
  end.
Proof.
  unfold NewCard, bind, gets, kw_str, kw_size.
  repeat case_decide;
    repeat match goal with
           | |- context [match ?k !! ?x with _ => _ end] =>
             destruct (k !! x) as [[?|? ?]|]
           end; simpl; try done;
    (split; [done|]); eexists; (split; [reflexivity|]); simpl;
    by destruct pos.
Qed.

(** With no keyword argument, [NewCard] returns for the three classes
    it knows and raises for any other name. *)
Lemma NewCard_plain subclass pos lbl st :
  NewCard subclass pos lbl ∅ st =
  match default_card subclass with
  | Some (b, sz) =>
    Return (next_ref st)
      (with_new_card
         (mkCardW (if decide (lbl = -1) then Z.of_nat (length (cards st))
                   else lbl)
                  (rect_at pos sz) b true) st)
  | None => Raise st
  end.
Proof.
  unfold NewCard, default_card, bind, gets, kw_str, kw_size.
  rewrite !lookup_empty. by repeat case_decide.
Qed.

Lemma default_card_is_Some subclass :
  subclass ∈ ["Content"; "Header"; "Image"] ->
  is_Some (default_card subclass).
Proof.
  intros Hs.
  repeat (apply elem_of_cons in Hs as [->|Hs]; [by eexists|]).
  by apply elem_of_nil in Hs.
Qed.
End Creation.

(** C6: called without a label (the default -1), [NewCard] gives the new
    card the number of cards on the board before it is appended, for
    any class, position and keyword arguments; when it raises instead,
    the board is unchanged, and with no keyword argument it returns for
    each of the three classes.  So labels can collide: after three cards
    are created (labels 0, 1, 2) and the first is selected and deleted,
    the next card created gets label 2, which the surviving third card
    already carries. *)
Theorem NewCard_label_is_card_count `{Board.CardDefaults} :
  (forall subclass pos kwargs st,
     match Board.NewCard subclass pos (-1) kwargs st with
     | Board.Return new st' =>
       Board.label (Board.heap st' new) = Z.of_nat (length (Board.cards st))
       /\ Board.cards st' = Board.cards st ++ [new]
     | Board.Raise st' => st' = st
     end)
  /\ (forall pos st,
        (exists new st',
           Board.NewCard "Content" pos (-1) ∅ st = Board.Return new st')
        /\ (exists new st',
              Board.NewCard "Header" pos (-1) ∅ st = Board.Return new st')
        /\ (exists new st',
              Board.NewCard "Image" pos (-1) ∅ st = Board.Return new st'))
  /\ exists (creations : list (string * Wx.Point)) (victim survivor : Board.ref),
       let created :=
         Board.exec_all
           (map (fun a => Board.DoNewCard a.1 a.2 (-1) ∅) creations)
           Board.init in
       let st :=
         Board.exec_all
           [Board.DoSelectCard victim true; Board.DoDeleteSelected] created in
       victim ∈ Board.cards created
       /\ (victim ∉ Board.cards st)
       /\ survivor ∈ Board.cards st
       /\ Board.label (Board.heap st victim) < Board.label (Board.heap st survivor)
       /\ match Board.NewCard "Content" (0, 0) (-1) ∅ st with
          | Board.Return new st' =>
            new <> survivor
            /\ survivor ∈ Board.cards st'
            /\ Board.label (Board.heap st' new)
               = Board.label (Board.heap st' survivor)
          | Board.Raise _ => False
          end.
Proof.
  split; [|split].
  - intros subclass pos kwargs st.
    pose proof (NewCard_result subclass pos (-1) kwargs st) as Hr.
    destruct (Board.NewCard subclass pos (-1) kwargs st) as [new st'|st'];
      [|done].
    destruct Hr as (-> & w & -> & Hl & _). simpl.
    rewrite fn_lookup_insert. by rewrite Hl, decide_True.
  - intros pos st. rewrite !NewCard_plain.
    repeat split; do 2 eexists; reflexivity.
  - exists [("Content", (10, 10)); ("Content", (400, 40)); ("Content", (90, 200))],
      0%nat, 2%nat.
    cbv zeta. rewrite NewCard_plain.
    vm_compute.
    repeat split; try discriminate; try (repeat constructor; fail).
    intros Hin. repeat (inversion Hin as [|? ? ? Hin']; subst; clear Hin;
                        rename Hin' into Hin).
Qed.

(** ** The board: navigation by label *)

Section Navigation.
Import Board.
Implicit Types (st : Board) (P : ref -> Prop).

Lemma NoDup_map_inj {A} (f : A -> Z) (l : list A) x y :
  NoDup (map f l) -> x ∈ l -> y ∈ l -> f x = f y -> x = y.
Proof.
  induction l as [|a l IH]; simpl; [by intros _ ?%elem_of_nil|].
  intros [Ha Hnd]%list.NoDup_cons Hx Hy Hf.
  apply elem_of_cons in Hx as [->|Hx], Hy as [->|Hy]; try done.
  - exfalso. apply Ha. rewrite Hf. by apply list_elem_of_fmap_2.
  - exfalso. apply Ha. rewrite <- Hf. by apply list_elem_of_fmap_2.
  - by apply IH.
Qed.

Lemma least_label_unique st P r r' :
  labels_distinct st -> least_label st P r -> least_label st P r' -> r = r'.
Proof.
  intros Hd (Hr & HP & Hle) (Hr' & HP' & Hle').
  eapply NoDup_map_inj; [exact Hd|done..|].
  apply Z.le_antisymm; auto.
Qed.

Lemma greatest_label_unique st P r r' :
  labels_distinct st -> greatest_label st P r -> greatest_label st P r' ->
  r = r'.
Proof.
  intros Hd (Hr & HP & Hle) (Hr' & HP' & Hle').
  eapply NoDup_map_inj; [exact Hd|done..|].
  apply Z.le_antisymm; auto.
Qed.

(** The first of the cards that satisfy a test, sorted by label. *)
Lemma sort_filter_head st (P : ref -> Prop) `{!forall c, Decision (P c)} r :
  list.head (Py.sort (fun c => label (heap st c)) (filter P (cards st)))
  = Some r -> least_label st P r.
Proof.
  intros [[Hr HP]%list_elem_of_filter Hle]%sort_head_least.
  repeat split; [done..|]. intros d Hd HPd. apply Hle.
  by apply list_elem_of_filter.
Qed.

Lemma sort_filter_last st (P : ref -> Prop) `{!forall c, Decision (P c)} r :
  list.last (Py.sort (fun c => label (heap st c)) (filter P (cards st)))
  = Some r -> greatest_label st P r.
Proof.
  intros [[Hr HP]%list_elem_of_filter Hle]%sort_last_greatest.
  repeat split; [done..|]. intros d Hd HPd. apply Hle.
  by apply list_elem_of_filter.
Qed.

Lemma sort_filter_nil st (P : ref -> Prop) `{!forall c, Decision (P c)} :
  Py.sort (fun c => label (heap st c)) (filter P (cards st)) = [] ->
  forall d, d ∈ cards st -> ~ P d.
Proof.
  intros Hnil%sort_nil_inv d Hd HP.
  assert (d ∈ filter P (cards st)) as Hin by by apply list_elem_of_filter.
  rewrite Hnil in Hin. by apply elem_of_nil in Hin.
Qed.

Lemma filter_any_card (l : list ref) : filter any_card l = l.
Proof.
  induction l as [|x l IH]; [done|].
  rewrite filter_cons_True by done. by rewrite IH.
Qed.

Lemma GetNextCard_run st ctrl cur cycle :
  card_of ctrl = Some cur -> cur ∈ cards st ->
  (exists r, GetNextCard ctrl cycle st = Return (Some r) st
             /\ least_label st (above st cur) r)
  \/ ((forall d, d ∈ cards st -> ~ above st cur d)
      /\ if cycle
         then exists r, GetNextCard ctrl cycle st = Return (Some r) st
                        /\ least_label st any_card r
         else GetNextCard ctrl cycle st = Return None st).
Proof.
  intros Hctrl Hcur. unfold GetNextCard. rewrite Hctrl.
  unfold bind, gets. cbv zeta.
  change (fun c => label (heap st c) > label (heap st cur))
    with (above st cur).
  destruct (Py.sort _ (filter _ _)) as [|r s] eqn:E.
  - right. split; [by eapply sort_filter_nil|].
    destruct cycle; simpl; [|done].
    destruct (Py.sort _ (cards st)) as [|r s] eqn:E'.
    { apply sort_nil_inv in E'. rewrite E' in Hcur.
      by apply elem_of_nil in Hcur. }
    simpl. exists r. split; [done|].
    rewrite <- (filter_any_card (cards st)) in E'.
    eapply sort_filter_head. by rewrite E'.
  - left. exists r. split; [done|].
    eapply sort_filter_head. by rewrite E.
Qed.

Lemma GetPrevCard_run st ctrl cur cycle :
  card_of ctrl = Some cur -> cur ∈ cards st ->
  (exists r, GetPrevCard ctrl cycle st = Return (Some r) st
             /\ greatest_label st (below st cur) r)
  \/ ((forall d, d ∈ cards st -> ~ below st cur d)
      /\ if cycle
         then exists r, GetPrevCard ctrl cycle st = Return (Some r) st
                        /\ greatest_label st any_card r
         else GetPrevCard ctrl cycle st = Return None st).
Proof.
  intros Hctrl Hcur. unfold GetPrevCard. rewrite Hctrl.
  unfold bind, gets. cbv zeta.
  change (fun c => label (heap st c) < label (heap st cur))
    with (below st cur).
  destruct (Py.sort _ (filter _ _)) as [|r0 s] eqn:E.
  - right. split; [by eapply sort_filter_nil|].
    destruct cycle; simpl; [|done].
    destruct (list.last (Py.sort _ (cards st))) as [r|] eqn:E'.
    2:{ apply last_None, sort_nil_inv in E'. rewrite E' in Hcur.
        by apply elem_of_nil in Hcur. }
    simpl. exists r. split; [done|].
    rewrite <- (filter_any_card (cards st)) in E'.
    by eapply sort_filter_last.
  - left. destruct (list.last (r0 :: s)) as [r|] eqn:E'.
    2:{ by apply last_None in E'. }
    simpl. exists r. split; [done|].
    rewrite <- E in E'. by eapply sort_filter_last.
Qed.
End Navigation.

(** C7: navigation follows the cyclic order of the labels.  On a board
    whose cards carry distinct labels, for a control inside a card [cur]
    of the board: when some card has a greater label, [GetNextCard]
    returns the card with the least label above that of [cur], whatever
    [cycle]; when none has, it returns the card with the least label of
    all if [cycle] is set and None otherwise.  [GetPrevCard] mirrors this
    with the greatest label below and the greatest label of all.  In each
    case the card returned is the only one with that property.  With
    labels 0, 1, 2 the next of 2 is 0 with [cycle] and None without. *)
Theorem navigation_is_cyclic_on_labels
  (st : Board.Board) (ctrl : Board.Ctrl) (cur : Board.ref) (cycle : bool) :
  Board.labels_distinct st ->
  Board.card_of ctrl = Some cur ->
  cur ∈ Board.cards st ->
  let returns (m : Board.M (option Board.ref)) (spec : Board.ref -> Prop) :=
    exists r, m st = Board.Return (Some r) st /\ spec r
              /\ forall r', spec r' -> r' = r in
  ((exists d, d ∈ Board.cards st /\ Board.above st cur d) ->
     returns (Board.GetNextCard ctrl cycle)
             (Board.least_label st (Board.above st cur)))
  /\ ((forall d, d ∈ Board.cards st -> ~ Board.above st cur d) ->
      returns (Board.GetNextCard ctrl true)
              (Board.least_label st Board.any_card)
      /\ Board.GetNextCard ctrl false st = Board.Return None st)
  /\ ((exists d, d ∈ Board.cards st /\ Board.below st cur d) ->
      returns (Board.GetPrevCard ctrl cycle)
              (Board.greatest_label st (Board.below st cur)))
  /\ ((forall d, d ∈ Board.cards st -> ~ Board.below st cur d) ->
      returns (Board.GetPrevCard ctrl true)
              (Board.greatest_label st Board.any_card)
      /\ Board.GetPrevCard ctrl false st = Board.Return None st)
  /\ Board.GetNextCard (Board.ChildOf 2%nat) true Board.three_cards
     = Board.Return (Some 0%nat) Board.three_cards
  /\ Board.GetNextCard (Board.ChildOf 2%nat) false Board.three_cards
     = Board.Return None Board.three_cards
  /\ Board.GetPrevCard (Board.ChildOf 0%nat) true Board.three_cards
     = Board.Return (Some 2%nat) Board.three_cards.
Proof.
  intros Hd Hctrl Hcur returns. subst returns. cbv beta.
  repeat split; try reflexivity.
  - intros (d & Hdin & Hab).
    destruct (GetNextCard_run st ctrl cur cycle Hctrl Hcur)
      as [(r & Hrun & Hr)|[Hnone _]]; [|by destruct (Hnone d Hdin)].
    exists r. repeat split; try done; try apply Hr.
    intros r' Hr'. by eapply least_label_unique.
  - destruct (GetNextCard_run st ctrl cur true Hctrl Hcur)
      as [(r & _ & Hr)|[_ (r & Hrun & Hr)]].
    { destruct Hr as (Hrin & Hab & _). by destruct (H r Hrin). }
    exists r. repeat split; try done; try apply Hr.
    intros r' Hr'. by eapply least_label_unique.
  - destruct (GetNextCard_run st ctrl cur false Hctrl Hcur)
      as [(r & _ & Hr)|[_ Hrun]]; [|done].
    destruct Hr as (Hrin & Hab & _). by destruct (H r Hrin).
  - intros (d & Hdin & Hab).
    destruct (GetPrevCard_run st ctrl cur cycle Hctrl Hcur)
      as [(r & Hrun & Hr)|[Hnone _]]; [|by destruct (Hnone d Hdin)].
    exists r. repeat split; try done; try apply Hr.
    intros r' Hr'. by eapply greatest_label_unique.
  - destruct (GetPrevCard_run st ctrl cur true Hctrl Hcur)
      as [(r & _ & Hr)|[_ (r & Hrun & Hr)]].
    { destruct Hr as (Hrin & Hab & _). by destruct (H r Hrin). }
    exists r. repeat split; try done; try apply Hr.
    intros r' Hr'. by eapply greatest_label_unique.
  - destruct (GetPrevCard_run st ctrl cur false Hctrl Hcur)
      as [(r & _ & Hr)|[_ Hrun]]; [|done].
    destruct Hr as (Hrin & Hab & _). by destruct (H r Hrin).
Qed.

(** ** The board: drag-select *)

Section DragSelect.
Import Board.
Context `{CardDefaults}.

Lemma OnLeftDown_run p1 st :
  OnLeftDown p1 st =
  Return tt (set_cur_pos (Some p1) (set_init_pos (Some p1)
               (set_focus FocusElsewhere (set_selected_cards [] st)))).
Proof. unfold OnLeftDown, bind. by rewrite UnselectAll_run. Qed.

Lemma OnDragSelect_run p1 q st :
  moving_cards_pos st = [] -> init_pos st = Some p1 ->
  is_Some (cur_pos st) ->
  OnDragSelect true q st =
  Return tt (set_cur_pos (Some (Wx.point_sub q p1)) (set_drag_select true st)).
Proof.
  intros Hm Hi [cur Hc]. unfold OnDragSelect, bind, gets, modify. rewrite Hm.
  simpl. rewrite Hi. simpl. rewrite Hc. done.
Qed.

Lemma drag_moves_run p1 pts q st :
  moving_cards_pos st = [] -> init_pos st = Some p1 ->
  is_Some (cur_pos st) ->
  for_ (pts ++ [q]) (fun q => OnDragSelect true q) st =
  Return tt (set_cur_pos (Some (Wx.point_sub q p1)) (set_drag_select true st)).
Proof.
  revert st. induction pts as [|a pts IH]; intros st Hm Hi Hc;
    cbn [app for_]; unfold bind.
  - by rewrite (OnDragSelect_run p1).
  - rewrite (OnDragSelect_run p1) by done. rewrite IH; [done..|by eexists].
Qed.

Lemma OnLeftUp_run p1 d st :
  drag_select st = true -> init_pos st = Some p1 -> cur_pos st = Some d ->
  exists st',
    OnLeftUp st = Return tt st'
    /\ selected_cards st' =
       add_all (filter (fun c => Wx.Intersects (rect (heap st c))
                            (MakeEncirclingRect p1 (Wx.point_add p1 d)) = true)
                       (cards st))
               (selected_cards st)
    /\ heap st' = heap st /\ cards st' = cards st.
Proof.
  intros Hd Hi Hc. unfold OnLeftUp, GetCards, bind, gets, modify.
  rewrite Hd. board_simpl. rewrite Hi. board_simpl. rewrite Hc. board_simpl.
  match goal with
  | |- context [for_ ?l _ ?s] =>
    destruct (for_SelectCard_run l s) as (st' & -> & Hs & Hh & Hcs & _)
  end.
  exists st'. split; [done|]. rewrite Hs, Hh, Hcs. board_simpl.
  repeat split; try done.
Qed.

Lemma drag_select_gesture_run p1 via p2 st :
  moving_cards_pos st = [] ->
  exists st',
    drag_select_gesture p1 via p2 st = Return tt st'
    /\ selected_cards st' =
       add_all (filter (fun c => Wx.Intersects (rect (heap st c))
                            (MakeEncirclingRect p1 p2) = true)
                       (cards st)) []
    /\ heap st' = heap st /\ cards st' = cards st.
Proof.
  intros Hm. unfold drag_select_gesture, bind.
  rewrite OnLeftDown_run.
  rewrite (drag_moves_run p1) by (done || by eexists).
  match goal with
  | |- context [OnLeftUp ?s] =>
    destruct (OnLeftUp_run p1 (Wx.point_sub p2 p1) s)
      as (st' & -> & Hs & Hh & Hc); [done..|]
  end.
  exists st'. rewrite point_add_sub in Hs. done.
Qed.
End DragSelect.

(** C3: a drag on the empty board from [p1] to [p2] (the button pressed
    at [p1], the pointer dragged through any points to [p2] and released
    there, while no card is being moved) ends with exactly those cards of
    the board selected whose rectangle intersects the encircling
    rectangle of [p1] and [p2], each once, in board order.  That
    rectangle has its corner at the smaller coordinates and a size that
    is never negative, whichever way the drag went; for (10,10) and
    (100,100) it is Rect(10,10,90,90), which a card inside it and a card
    partly over its edge intersect and a card away from it does not. *)
Theorem drag_select_selects_intersecting `{Board.CardDefaults}
  (st : Board.Board) (p1 p2 : Wx.Point) (via : list Wx.Point) :
  Board.moving_cards_pos st = [] ->
  let final_rect := MakeEncirclingRect p1 p2 in
  let hit c := Wx.Intersects (Board.rect (Board.heap st c)) final_rect = true in
  (exists st',
     Board.drag_select_gesture p1 via p2 st = Board.Return tt st'
     /\ (forall c, c ∈ Board.selected_cards st' <-> c ∈ Board.cards st /\ hit c)
     /\ NoDup (Board.selected_cards st')
     /\ (NoDup (Board.cards st) ->
         Board.selected_cards st' = filter hit (Board.cards st))
     /\ Board.heap st' = Board.heap st /\ Board.cards st' = Board.cards st)
  /\ 0 <= Wx.width final_rect /\ 0 <= Wx.height final_rect
  /\ Wx.left final_rect = Z.min p1.1 p2.1 /\ Wx.top final_rect = Z.min p1.2 p2.2
  /\ final_rect = MakeEncirclingRect p2 p1
  /\ MakeEncirclingRect (10, 10) (100, 100) = Wx.mkRect 10 10 90 90
  /\ Wx.Intersects (Wx.mkRect 20 20 30 30) (Wx.mkRect 10 10 90 90) = true
  /\ Wx.Intersects (Wx.mkRect 80 80 250 150) (Wx.mkRect 10 10 90 90) = true
  /\ Wx.Intersects (Wx.mkRect 200 200 250 150) (Wx.mkRect 10 10 90 90) = false.
Proof.
  intros Hm final_rect hit.
  destruct (drag_select_gesture_run p1 via p2 st Hm) as (st' & Hrun & Hs & Hh & Hc).
  pose proof (MakeEncirclingRect_normal p1 p2) as (Hw & Hht & Hl & Ht & _).
  split; [|repeat split; try done; apply MakeEncirclingRect_comm].
  exists st'. split; [done|]. rewrite Hs.
  split; [|split; [|split; [|done]]].
  - intros c. rewrite add_all_elem_of, list_elem_of_filter, elem_of_nil.
    tauto.
  - apply add_all_NoDup, NoDup_nil_2.
  - intros Hnd. apply add_all_fresh. by apply list.NoDup_filter.
Qed.

(** ** The board: placing a new card *)

Section Placement.
Import Board.
Context `{CardDefaults}.

(** The end of [PlaceNewCard], once the position is known. *)
Lemma place_at_run subclass b sz pos st :
  default_card subclass = Some (b, sz) ->
  (new <- NewCard subclass pos (-1) ∅ ;; UnselectAll ;; SetFocus new) st
  = Return tt
      (set_focus (FocusCard (next_ref st))
         (set_selected_cards []
            (with_new_card
               (mkCardW (Z.of_nat (length (cards st))) (rect_at pos sz) b true)
               st))).
Proof.
  intros Hd. unfold bind. rewrite NewCard_plain, Hd.
  rewrite decide_True by done. by rewrite UnselectAll_run.
Qed.

Lemma bind_assoc {A B C} (m : M A) (k : A -> M B) (k' : B -> M C) st :
  (b <- (a <- m ;; k a) ;; k' b) st = (a <- m ;; b <- k a ;; k' b) st.
Proof. unfold bind. by destruct (m st). Qed.

Lemma elem_of_map_inv {A B} (f : A -> B) (l : list A) y :
  y ∈ map f l -> exists x, x ∈ l /\ y = f x.
Proof.
  induction l as [|a l IH]; simpl; [by intros ?%elem_of_nil|].
  intros [->|Hy]%elem_of_cons.
  - exists a. split; [left|done].
  - destruct (IH Hy) as (x & Hx & ->). exists x. split; [by right|done].
Qed.

Lemma elem_of_map {A B} (f : A -> B) (l : list A) x :
  x ∈ l -> f x ∈ map f l.
Proof.
  induction l as [|a l IH]; simpl; [by intros ?%elem_of_nil|].
  intros [->|Hx]%elem_of_cons; [left|right; auto].
Qed.

Lemma GetFocusedCard_run st :
  focus st <> FocusNothing ->
  exists o, GetFocusedCard st = Return o st.
Proof.
  intros Hf. unfold GetFocusedCard, bind, gets.
  destruct (focus st); try done; by eexists.
Qed.
End Placement.

(** Where some window has the focus (or the board is empty),
    [PlaceNewCard] without a position returns, and the position of the
    new card follows what [GetFocusedCard] answers. *)
Lemma PlaceNewCard_by_focused_card `{Board.CardDefaults}
  (st : Board.Board) (subclass : string) (below : bool) :
  subclass ∈ ["Content"; "Header"; "Image"] ->
  (Board.cards st <> [] -> Board.focus st <> Board.FocusNothing) ->
  exists st',
    Board.PlaceNewCard subclass Wx.DefaultPosition below st = Board.Return tt st'
    /\ Board.cards st' = Board.cards st ++ [Board.next_ref st]
    /\ let pos := Wx.GetPosition (Board.rect (Board.heap st' (Board.next_ref st))) in
       let rect_of c := Board.rect (Board.heap st c) in
       (Board.cards st = [] -> pos = (Board.CARD_PADDING, Board.CARD_PADDING))
       /\ (forall fc, Board.cards st <> [] ->
             Board.GetFocusedCard st = Board.Return (Some fc) st ->
             pos = if below
                   then (Wx.left (rect_of fc),
                         Wx.bottom (rect_of fc) + Board.CARD_PADDING)
                   else (Wx.right (rect_of fc) + Board.CARD_PADDING,
                         Wx.top (rect_of fc)))
       /\ (Board.cards st <> [] ->
           Board.GetFocusedCard st = Board.Return None st ->
           (exists c, c ∈ Board.cards st
                      /\ pos.1 = Wx.right (rect_of c) + Board.CARD_PADDING)
           /\ (forall c, c ∈ Board.cards st ->
                 Wx.right (rect_of c) + Board.CARD_PADDING <= pos.1)
           /\ (exists c, c ∈ Board.cards st /\ pos.2 = Wx.top (rect_of c))
           /\ (forall c, c ∈ Board.cards st -> pos.2 <= Wx.top (rect_of c))).
Proof.
  intros Hsub Hfocus.
  destruct (default_card_is_Some subclass Hsub) as [[b sz] Hd].
  unfold Board.PlaceNewCard. rewrite decide_True by done.
  rewrite bind_assoc.
  unfold Board.bind at 1. unfold Board.GetCards at 1, Board.gets at 1.
  rewrite bind_assoc.
  destruct (Board.cards st) as [|c0 cs] eqn:Ecards.
  - rewrite decide_True by (simpl; lia).
    unfold Board.bind at 1, Board.ret at 1.
    rewrite (place_at_run subclass b sz) by done.
    eexists. split; [reflexivity|]. board_simpl. rewrite Ecards.
    split; [done|]. rewrite fn_lookup_insert. simpl.
    split; [done|]. split; intros; done.
  - rewrite decide_False by (simpl; lia).
    destruct (GetFocusedCard_run st) as [o Ho]; [by apply Hfocus|].
    rewrite bind_assoc. unfold Board.bind at 1. rewrite Ho.
    destruct o as [fc|].
    + rewrite bind_assoc. unfold Board.bind at 1. rewrite Ho.
      rewrite bind_assoc. unfold Board.bind at 1, Board.lift at 1, Board.ret at 1.
      rewrite bind_assoc. unfold Board.bind at 1, Board.GetRect at 1, Board.gets at 1.
      destruct below.
      * unfold Board.bind at 1, Board.ret at 1.
        rewrite (place_at_run subclass b sz) by done.
        eexists. split; [reflexivity|]. board_simpl. rewrite Ecards.
        split; [done|]. rewrite fn_lookup_insert. simpl.
        split; [done|]. split; [|done]. by intros fc' _ [= <-].
      * unfold Board.bind at 1, Board.ret at 1.
        rewrite (place_at_run subclass b sz) by done.
        eexists. split; [reflexivity|]. board_simpl. rewrite Ecards.
        split; [done|]. rewrite fn_lookup_insert. simpl.
        split; [done|]. split; [|done]. by intros fc' _ [= <-].
    + rewrite bind_assoc. unfold Board.bind at 1, Board.gets at 1.
      set (rects := map (fun c => Board.rect (Board.heap st c)) (c0 :: cs)).
      destruct (min_is_Some (map Wx.top rects)) as [t Ht]; [done|].
      destruct (max_is_Some (map Wx.right rects)) as [r Hr]; [done|].
      rewrite bind_assoc. unfold Board.bind at 1. rewrite Ht.
      unfold Board.lift at 1, Board.ret at 1.
      rewrite bind_assoc. unfold Board.bind at 1. rewrite Hr.
      unfold Board.lift at 1, Board.ret at 1.
      unfold Board.bind at 1, Board.ret at 1.
      rewrite (place_at_run subclass b sz) by done.
      eexists. split; [reflexivity|]. board_simpl. rewrite Ecards.
      split; [done|]. rewrite fn_lookup_insert. simpl.
      split; [done|]. split; [done|]. intros _ _.
      apply min_Some in Ht as [Htin Htle]. apply max_Some in Hr as [Hrin Hrle].
      subst rects.
      apply elem_of_map_inv in Htin as (rt & (ct & Hct & ->)%elem_of_map_inv & ->).
      apply elem_of_map_inv in Hrin as (rr & (cr & Hcr & ->)%elem_of_map_inv & ->).
      repeat split.
      * by exists cr.
      * intros c Hc. apply Z.add_le_mono_r, Hrle.
        by apply (elem_of_map Wx.right),
          (elem_of_map (fun c => Board.rect (Board.heap st c))).
      * by exists ct.
      * intros c Hc. apply Htle.
        by apply (elem_of_map Wx.top),
          (elem_of_map (fun c => Board.rect (Board.heap st c))).
Qed.

(** ** The board: arranging the selection *)

Section Arrange.
Import Board.

Lemma laid_out_ext place next h h' l edge :
  (forall c, c ∈ l -> h' c = h c) ->
  laid_out place next h l edge -> laid_out place next h' l edge.
Proof.
  revert edge. induction l as [|c l IH]; intros edge Hext; simpl; [done|].
  intros [Hp Hl]. rewrite (Hext c) by left. split; [done|].
  apply IH; [|done]. intros d Hd. apply Hext. by right.
Qed.

Lemma laid_out_consecutive place next h l edge i c d :
  laid_out place next h l edge ->
  l !! i = Some c -> l !! S i = Some d ->
  Wx.GetPosition (rect (h d)) = place (next (rect (h c)) + CARD_PADDING).
Proof.
  revert edge i. induction l as [|a l IH]; intros edge i; simpl; [done|].
  intros [Hp Hl]. destruct i as [|i]; simpl.
  - intros [= ->]. destruct l as [|b l]; simpl; [done|].
    intros [= ->]. by destruct Hl.
  - intros Hc Hd. by eapply IH.
Qed.

Lemma laid_out_placed place next h l edge c :
  laid_out place next h l edge -> c ∈ l ->
  exists e, Wx.GetPosition (rect (h c)) = place e.
Proof.
  revert edge. induction l as [|a l IH]; intros edge; simpl;
    [by intros _ ?%elem_of_nil|].
  intros [Hp Hl] [->|Hc]%elem_of_cons; [by eexists|]. by eapply IH.
Qed.

(** The positioning loop moves the cards of the list, one after the
    other, and nothing else. *)
Lemma place_loop_run place next l edge st :
  NoDup l ->
  exists st',
    place_loop place next l edge st = Return tt st'
    /\ laid_out place next (heap st') l edge
    /\ (forall c, c ∉ l -> heap st' c = heap st c)
    /\ (forall c, moved (heap st c) (heap st' c))
    /\ cards st' = cards st /\ selected_cards st' = selected_cards st
    /\ next_ref st' = next_ref st.
Proof.
  revert edge st. induction l as [|c l IH]; intros edge st Hnd;
    cbn [place_loop].
  - exists st. by repeat split.
  - apply list.NoDup_cons in Hnd as [Hc Hnd].
    unfold bind at 1, SetPosition at 1, modify at 1.
    unfold bind at 1, GetRect at 1, gets at 1.
    set (st1 := upd_card c _ st).
    destruct (IH (next (rect (heap st1 c)) + CARD_PADDING) st1 Hnd)
      as (st' & -> & Hl & Hout & Hmv & Hcs & Hsel & Hn).
    exists st'. split; [done|].
    assert (Hc1 : heap st' c = heap st1 c) by by apply Hout.
    assert (Hst1 : forall d, d <> c -> heap st1 d = heap st d).
    { intros d Hd. subst st1. board_simpl. by rewrite fn_lookup_insert_ne. }
    assert (Hst1c : heap st1 c =
              mkCardW (label (heap st c))
                (Wx.move_to (place edge) (rect (heap st c)))
                (body (heap st c)) (shown (heap st c))).
    { subst st1. board_simpl. by rewrite fn_lookup_insert. }
    repeat split; try done.
    + rewrite Hc1, Hst1c. simpl. by destruct (place edge).
    + by rewrite Hc1.
    + intros d [Hdc Hdl]%not_elem_of_cons. rewrite Hout by done.
      by apply Hst1.
    + destruct (Hmv c0) as (? & _). destruct (decide (c0 = c)) as [->|Hne].
      * by rewrite Hc1, Hst1c.
      * rewrite <- (Hst1 c0) by done. done.
    + destruct (Hmv c0) as (_ & ? & _). destruct (decide (c0 = c)) as [->|Hne].
      * by rewrite Hc1, Hst1c.
      * rewrite <- (Hst1 c0) by done. done.
    + destruct (Hmv c0) as (_ & _ & ? & _).
      destruct (decide (c0 = c)) as [->|Hne].
      * by rewrite Hc1, Hst1c.
      * rewrite <- (Hst1 c0) by done. done.
    + destruct (Hmv c0) as (_ & _ & _ & ?).
      destruct (decide (c0 = c)) as [->|Hne].
      * by rewrite Hc1, Hst1c.
      * rewrite <- (Hst1 c0) by done. done.
Qed.
End Arrange.

(** C5: on a selection that is not empty (and names no card twice),
    [HArrangeSelectedCards] clears the selection and moves exactly the
    cards that were selected, keeping their sizes: taken in ascending
    order of their original left edges (ties in selection order), the
    first card, which is the leftmost selected card, stays at the least
    original left edge; each next card starts at the right edge of the
    one before it plus CARD_PADDING; and every card gets the original top
    of that leftmost card. *)
Theorem HArrange_lays_out_a_row (st : Board.Board) :
  Board.selected_cards st <> [] ->
  NoDup (Board.selected_cards st) ->
  let left_of s c := Wx.left (Board.rect (Board.heap s c)) in
  let top_of s c := Wx.top (Board.rect (Board.heap s c)) in
  let right_of s c := Wx.right (Board.rect (Board.heap s c)) in
  let arrange := Py.sort (left_of st) (Board.selected_cards st) in
  exists st' anchor rest,
    Board.HArrangeSelectedCards st = Board.Return tt st'
    /\ Board.selected_cards st' = []
    /\ Board.cards st' = Board.cards st
    /\ (forall c, c ∉ Board.selected_cards st ->
          Board.heap st' c = Board.heap st c)
    /\ (forall c, Board.moved (Board.heap st c) (Board.heap st' c))
    /\ arrange ≡ₚ Board.selected_cards st
    /\ StronglySorted (ascending (left_of st)) arrange
    /\ arrange = anchor :: rest
    /\ (forall c, c ∈ Board.selected_cards st ->
          left_of st anchor <= left_of st c)
    /\ left_of st' anchor = left_of st anchor
    /\ (forall i c d, arrange !! i = Some c -> arrange !! S i = Some d ->
          left_of st' d = right_of st' c + Board.CARD_PADDING)
    /\ (forall c, c ∈ Board.selected_cards st ->
          top_of st' c = top_of st anchor).
Proof.
  intros Hne Hnd left_of top_of right_of arrange.
  unfold Board.HArrangeSelectedCards.
  unfold Board.bind at 1, Board.gets at 1.
  rewrite decide_False by (destruct (Board.selected_cards st); simpl; [done|lia]).
  unfold Board.bind at 1. rewrite UnselectAll_run.
  unfold Board.bind at 1, Board.gets at 1. board_simpl.
  set (lefts := map _ (Board.selected_cards st)).
  destruct (min_is_Some lefts) as [m Hm].
  { subst lefts. by destruct (Board.selected_cards st). }
  destruct (index_is_Some m lefts) as [i Hi]; [by apply min_Some in Hm as [? _]|].
  assert (exists card, Board.selected_cards st !! i = Some card) as [card Hcard].
  { apply index_Some in Hi as [Hi _]. subst lefts.
    apply lookup_lt_Some in Hi. rewrite length_map in Hi.
    by apply lookup_lt_is_Some_2. }
  unfold Board.bind at 1. rewrite Hm. unfold Board.lift at 1, Board.ret at 1.
  unfold Board.bind at 1. rewrite Hi. unfold Board.lift at 1, Board.ret at 1.
  unfold Board.bind at 1. rewrite Hcard. unfold Board.lift at 1, Board.ret at 1.
  unfold Board.bind at 1, Board.GetRect at 1, Board.gets at 1. board_simpl.
  destruct (sort_head_index (left_of st) (Board.selected_cards st) m i card)
    as [rest Hrest]; [done..|].
  assert (Hperm : arrange ≡ₚ Board.selected_cards st) by apply sort_perm.
  assert (Hnd' : NoDup arrange) by by rewrite Hperm.
  fold (left_of st). fold arrange.
  destruct (place_loop_run
              (fun left => (left, Wx.top (Board.rect (Board.heap st card))))
              Wx.right arrange m (Board.set_selected_cards [] st) Hnd')
    as (st' & Hrun & Hl & Hout & Hmv & Hcs & Hsel & _).
  exists st', card, rest. split; [exact Hrun|].
  assert (Hmin : left_of st card = m).
  { apply index_Some in Hi as [Hi _]. subst lefts.
    rewrite list_lookup_fmap, Hcard in Hi. by injection Hi. }
  fold arrange in Hrest.
  split; [done|]. split; [done|].
  split; [intros c Hc; apply Hout; by rewrite Hperm|].
  split; [exact Hmv|]. split; [done|]. split; [apply sort_sorted|].
  split; [done|]. split; [|split; [|split]].
  - intros c Hc. rewrite Hmin. apply min_Some in Hm as [_ Hle]. apply Hle.
    subst lefts. by apply (elem_of_map (left_of st)).
  - rewrite Hrest in Hl. destruct Hl as [Hp _].
    unfold left_of, Wx.left. unfold Wx.GetPosition in Hp.
    injection Hp as Hx _. rewrite Hx. by rewrite <- Hmin.
  - intros j c d Hc Hdd.
    pose proof (laid_out_consecutive _ _ _ _ _ _ _ _ Hl Hc Hdd) as Hp.
    unfold Wx.GetPosition in Hp. by injection Hp as Hx _.
  - intros c Hc. rewrite <- Hperm in Hc.
    destruct (laid_out_placed _ _ _ _ _ c Hl Hc) as [e Hp].
    unfold Wx.GetPosition in Hp. by injection Hp as _ Hy.
Qed.

(** ** The board: copying the selection *)

Section Copy.
Import Board.
Context `{CardDefaults}.

Lemma NewCard_copy_Content title kind content pos st :
  NewCard "Content" pos (-1)
    (<["title" := KwStr title]>
     (<["kind" := KwStr kind]> (<["content" := KwStr content]> ∅))) st
  = Return (next_ref st)
      (with_new_card
         (mkCardW (Z.of_nat (length (cards st)))
                  (rect_at pos (scaled Content_DEFAULT_SZ))
                  (Content title kind content) true) st).
Proof.
  unfold NewCard, bind, gets, kw_str.
  rewrite !decide_True by done.
  rewrite lookup_insert_eq.
  rewrite (lookup_insert_ne _ "title" "kind") by done.
  rewrite lookup_insert_eq.
  rewrite (lookup_insert_ne _ "title" "content") by done.
  rewrite (lookup_insert_ne _ "kind" "content") by done.
  rewrite lookup_insert_eq.
  done.
Qed.

Lemma NewCard_copy_Header header pos st :
  NewCard "Header" pos (-1) (<["txt" := KwStr header]> ∅) st
  = Return (next_ref st)
      (with_new_card
         (mkCardW (Z.of_nat (length (cards st)))
                  (rect_at pos (scaled Header_DEFAULT_SZ))
                  (Header header) true) st).
Proof.
  unfold NewCard, bind, gets, kw_str, kw_size.
  rewrite (decide_True (P := -1 = -1)) by done.
  rewrite (decide_False (P := "Header" = "Content")) by done.
  rewrite (decide_True (P := "Header" = "Header")) by done.
  rewrite lookup_insert_eq.
  rewrite (lookup_insert_ne _ "txt" "size") by done.
  rewrite lookup_empty.
  done.
Qed.

Lemma copyable_ext st st' sel :
  (forall c, c ∈ sel -> heap st' c = heap st c) ->
  copyable st' sel = copyable st sel.
Proof.
  unfold copyable. induction sel as [|c sel IH]; intros Hext; [done|].
  rewrite !filter_cons, (Hext c) by left.
  rewrite IH; [done|]. intros d Hd. apply Hext. by right.
Qed.

Lemma copy_loop_run sel new st :
  (forall c, c ∈ sel -> (c < next_ref st)%nat) ->
  let k := length (copyable st sel) in
  exists st',
    copy_loop sel new st = Return (new ++ seq (next_ref st) k) st'
    /\ next_ref st' = (next_ref st + k)%nat
    /\ cards st' = cards st ++ seq (next_ref st) k
    /\ selected_cards st' = selected_cards st
    /\ (forall c, (c < next_ref st)%nat -> heap st' c = heap st c)
    /\ (forall i c, copyable st sel !! i = Some c ->
          heap st' (next_ref st + i)%nat = copy_of st i c).
Proof.
  revert new st. induction sel as [|c sel IH]; intros new st Hsel;
    cbn [copy_loop].
  - exists st. simpl. rewrite !app_nil_r, Nat.add_0_r. by repeat split.
  - unfold bind at 1, GetPosition at 1, gets at 1.
    unfold bind at 1, get_body at 1, gets at 1.
    assert (Hc : (c < next_ref st)%nat) by (apply Hsel; left).
    assert (Hsel' : forall d, d ∈ sel -> (d < next_ref st)%nat)
      by (intros d Hd; apply Hsel; by right).
    destruct (body (heap st c)) as [t kd co|hd|pa] eqn:Eb.
    + (* a Content: one copy, then the rest of the selection *)
      unfold bind at 1. unfold bind at 1.
      rewrite NewCard_copy_Content. unfold ret at 1.
      unfold bind at 1, ret at 1.
      set (w := mkCardW _ _ _ _). set (st1 := with_new_card w st).
      destruct (IH (new ++ [next_ref st]) st1) as (st' & Hrun & Hn & Hcs & Hs & Hh & Hi).
      { intros d Hd. subst st1. board_simpl. specialize (Hsel' d Hd). lia. }
      assert (Hext : copyable st1 sel = copyable st sel).
      { apply copyable_ext. intros d Hd. subst st1. board_simpl.
        rewrite fn_lookup_insert_ne; [done|]. specialize (Hsel' d Hd). lia. }
      rewrite Hext in *.
      assert (Hcp : copyable st (c :: sel) = c :: copyable st sel).
      { unfold copyable. rewrite filter_cons_True; [done|]. by rewrite Eb. }
      rewrite Hcp. cbn [length seq].
      exists st'. subst st1. board_simpl.
      split; [by rewrite Hrun, <- app_assoc|].
      split; [lia|]. split; [by rewrite Hcs, <- app_assoc|]. split; [done|].
      split.
      * intros d Hd. rewrite Hh by lia. by rewrite fn_lookup_insert_ne by lia.
      * intros [|i] d; simpl.
        -- intros [= <-]. rewrite Nat.add_0_r, Hh by lia.
           rewrite fn_lookup_insert. unfold copy_of. rewrite Nat.add_0_r, Eb.
           done.
        -- intros Hd. replace (next_ref st + S i)%nat with (S (next_ref st) + i)%nat by lia.
           rewrite (Hi i d Hd). unfold copy_of. board_simpl.
           assert (d ∈ sel) as Hdin.
           { apply list_elem_of_lookup_2 in Hd.
             by apply list_elem_of_filter in Hd as [_ ?]. }
           rewrite fn_lookup_insert_ne by (specialize (Hsel' d Hdin); lia).
           rewrite length_app. simpl. do 2 f_equal. lia.
    + (* a Header: likewise *)
      unfold bind at 1, ret at 1. unfold bind at 1. unfold bind at 1.
      rewrite NewCard_copy_Header. unfold ret at 1.
      set (w := mkCardW _ _ _ _). set (st1 := with_new_card w st).
      destruct (IH (new ++ [next_ref st]) st1) as (st' & Hrun & Hn & Hcs & Hs & Hh & Hi).
      { intros d Hd. subst st1. board_simpl. specialize (Hsel' d Hd). lia. }
      assert (Hext : copyable st1 sel = copyable st sel).
      { apply copyable_ext. intros d Hd. subst st1. board_simpl.
        rewrite fn_lookup_insert_ne; [done|]. specialize (Hsel' d Hd). lia. }
      rewrite Hext in *.
      assert (Hcp : copyable st (c :: sel) = c :: copyable st sel).
      { unfold copyable. rewrite filter_cons_True; [done|]. by rewrite Eb. }
      rewrite Hcp. cbn [length seq].
      exists st'. subst st1. board_simpl.
      split; [by rewrite Hrun, <- app_assoc|].
      split; [lia|]. split; [by rewrite Hcs, <- app_assoc|]. split; [done|].
      split.
      * intros d Hd. rewrite Hh by lia. by rewrite fn_lookup_insert_ne by lia.
      * intros [|i] d; simpl.
        -- intros [= <-]. rewrite Nat.add_0_r, Hh by lia.
           rewrite fn_lookup_insert. unfold copy_of. rewrite Nat.add_0_r, Eb.
           done.
        -- intros Hd. replace (next_ref st + S i)%nat with (S (next_ref st) + i)%nat by lia.
           rewrite (Hi i d Hd). unfold copy_of. board_simpl.
           assert (d ∈ sel) as Hdin.
           { apply list_elem_of_lookup_2 in Hd.
             by apply list_elem_of_filter in Hd as [_ ?]. }
           rewrite fn_lookup_insert_ne by (specialize (Hsel' d Hdin); lia).
           rewrite length_app. simpl. do 2 f_equal. lia.
    + (* an Image: no copy *)
      unfold bind at 1, ret at 1. unfold bind at 1, ret at 1.
      assert (Hcp : copyable st (c :: sel) = copyable st sel).
      { unfold copyable. rewrite filter_cons_False; [done|]. by rewrite Eb. }
      rewrite Hcp. by apply IH.
Qed.
End Copy.

(** C8, as the code has it: for a selection of constructed cards,
    [CopySelected] makes one new card for every selected Content or
    Header, in selection order, and none for any other card.  The copy
    has the body of its original (title, kind and content, or header
    text) and stands CARD_PADDING further right and further down; its
    size is the default size of its class, and its label is the number
    of cards on the board when it is created, which differs from every
    label on the board that is below the card count.  The originals are
    untouched, and afterwards the selection is exactly the list of new
    cards. *)
Theorem CopySelected_duplicates `{Board.CardDefaults} (st : Board.Board) :
  (forall c, c ∈ Board.selected_cards st -> (c < Board.next_ref st)%nat) ->
  let originals := Board.copyable st (Board.selected_cards st) in
  let new := seq (Board.next_ref st) (length originals) in
  exists st',
    Board.CopySelected st = Board.Return tt st'
    /\ Board.selected_cards st' = new
    /\ Board.cards st' = Board.cards st ++ new
    /\ (forall c, c ∈ originals <->
          c ∈ Board.selected_cards st
          /\ (Board.is_Content (Board.body (Board.heap st c)) = true
              \/ Board.is_Header (Board.body (Board.heap st c)) = true))
    /\ (forall c, (c < Board.next_ref st)%nat ->
          Board.heap st' c = Board.heap st c)
    /\ forall i c, originals !! i = Some c ->
         let orig := Board.heap st c in
         let dup := Board.heap st' (Board.next_ref st + i)%nat in
         new !! i = Some (Board.next_ref st + i)%nat
         /\ Board.body dup = Board.body orig
         /\ Wx.GetPosition (Board.rect dup)
            = Wx.point_add (Wx.GetPosition (Board.rect orig))
                (Board.CARD_PADDING, Board.CARD_PADDING)
         /\ Wx.GetSize (Board.rect dup) = Board.copy_size (Board.body orig)
         /\ Board.label dup = Z.of_nat (length (Board.cards st) + i)
         /\ forall d, d ∈ Board.cards st ->
              Board.label (Board.heap st d) < Z.of_nat (length (Board.cards st)) ->
              Board.label dup <> Board.label (Board.heap st d).
Proof.
  intros Hsel originals new. unfold Board.CopySelected.
  unfold Board.bind at 1, Board.gets at 1.
  destruct (copy_loop_run (Board.selected_cards st) [] st Hsel)
    as (st1 & Hrun & Hn & Hcs & Hs & Hh & Hi).
  unfold Board.bind at 1. rewrite Hrun. simpl app.
  unfold Board.bind at 1. rewrite UnselectAll_run.
  match goal with
  | |- context [Board.for_ ?l _ ?s] =>
    destruct (for_SelectCard_run l s) as (st' & -> & Hs' & Hh' & Hcs' & _)
  end.
  board_simpl. rewrite add_all_fresh in Hs' by apply NoDup_seq.
  exists st'. split; [done|]. split; [done|].
  split; [by rewrite Hcs', Hcs|]. split.
  { intros c. subst originals. unfold Board.copyable.
    rewrite list_elem_of_filter.
    destruct (Board.is_Content _), (Board.is_Header _); simpl;
      intuition (try discriminate; auto). }
  split; [intros c Hc; rewrite Hh'; by apply Hh|].
  intros i c Hc. rewrite Hh', (Hi i c Hc).
  split.
  { subst new. apply lookup_seq. split; [done|]. by eapply lookup_lt_Some. }
  unfold Board.copy_of. simpl.
  split; [done|]. split; [done|].
  split; [by destruct (Board.copy_size _)|]. split; [done|].
  intros d Hd Hlt. lia.
Qed.

(** The claim of C8 fails on two counts.  After a deletion the copy's
    label is not fresh: with the cards labelled 1 and 2 left on the board
    and the second selected, the copy is labelled 2 as well, like its
    original.  And the size is not carried over: the copy of a Header
    that was created 300 by 50 has the default size. *)
Lemma CopySelected_label_and_size_differ :
  match @Board.CopySelected Board.sample_defaults Board.survivor_selected with
  | Board.Return _ st' =>
    Board.cards Board.survivor_selected = [1; 2]%nat
    /\ Board.selected_cards Board.survivor_selected = [2%nat]
    /\ Board.cards st' = [1; 2; 3]%nat
    /\ Board.selected_cards st' = [3%nat]
    /\ Board.label (Board.heap st' 2%nat) = 2
    /\ Board.label (Board.heap st' 3%nat) = 2
  | Board.Raise _ => False
  end
  /\ match @Board.CopySelected Board.sample_defaults Board.wide_header with
     | Board.Return _ st' =>
       Board.selected_cards Board.wide_header = [0%nat]
       /\ Board.selected_cards st' = [1%nat]
       /\ Board.body (Board.heap st' 0%nat) = Board.Header "Biology"
       /\ Board.body (Board.heap st' 1%nat) = Board.Header "Biology"
       /\ Wx.GetSize (Board.rect (Board.heap st' 0%nat)) = (300, 50)
       /\ Wx.GetSize (Board.rect (Board.heap st' 1%nat)) = (150, 32)
     | Board.Raise _ => False
     end.
Proof. vm_compute. repeat split. Qed.

(** ** The theorems at work on the three-card board *)

Lemma NoDup_by_decision {A} `{EqDecision A} (l : list A) :
  bool_decide (NoDup l) = true -> NoDup l.
Proof. apply bool_decide_eq_true_1. Qed.

Lemma drag_select_selects_intersecting_witness :
  Board.moving_cards_pos Board.three_cards = []
  /\ exists st',
       @Board.drag_select_gesture Board.sample_defaults
         (10, 10) [(50, 60)] (100, 100) Board.three_cards
       = Board.Return tt st'
       /\ Board.selected_cards st' = [0%nat].
Proof.
  split; [vm_compute; reflexivity|].
  assert (Hm : Board.moving_cards_pos Board.three_cards = []) by (vm_compute; reflexivity).
  destruct (@drag_select_selects_intersecting Board.sample_defaults
              Board.three_cards (10, 10) (100, 100) [(50, 60)] Hm)
    as [(st' & Hrun & _ & _ & Hfilter & _) _].
  exists st'. split; [exact Hrun|].
  rewrite Hfilter; [vm_compute; reflexivity|].
  apply NoDup_by_decision. vm_compute. reflexivity.
Defined.

Lemma HArrange_lays_out_a_row_witness :
  Board.selected_cards Board.all_selected = [1; 0; 2]%nat
  /\ exists st',
       Board.HArrangeSelectedCards Board.all_selected = Board.Return tt st'
       /\ Board.selected_cards st' = []
       /\ Wx.left (Board.rect (Board.heap st' 0%nat)) = 10
       /\ Wx.top (Board.rect (Board.heap st' 1%nat)) = 10.
Proof.
  split; [vm_compute; reflexivity|].
  assert (Hne : Board.selected_cards Board.all_selected <> [])
    by (vm_compute; discriminate).
  assert (Hnd : NoDup (Board.selected_cards Board.all_selected))
    by (apply NoDup_by_decision; vm_compute; reflexivity).
  destruct (HArrange_lays_out_a_row Board.all_selected Hne Hnd)
    as (st' & anchor & rest & Hrun & Hsel & _ & _ & _ & _ & _ & Harr & _
        & Hleft & _ & Htop).
  vm_compute in Harr. injection Harr as <- _.
  exists st'. split; [exact Hrun|]. split; [exact Hsel|].
  split; [exact Hleft|].
  apply (Htop 1%nat). vm_compute. left.
Defined.

Lemma navigation_is_cyclic_on_labels_witness :
  Board.labels_distinct Board.three_cards
  /\ 1%nat ∈ Board.cards Board.three_cards
  /\ exists r,
       Board.GetNextCard (Board.ChildOf 1%nat) false Board.three_cards
       = Board.Return (Some r) Board.three_cards
       /\ Board.least_label Board.three_cards
            (Board.above Board.three_cards 1%nat) r.
Proof.
  assert (Hd : Board.labels_distinct Board.three_cards)
    by (apply NoDup_by_decision; vm_compute; reflexivity).
  assert (Hin : 1%nat ∈ Board.cards Board.three_cards)
    by (vm_compute; right; left).
  split; [exact Hd|]. split; [exact Hin|].
  destruct (navigation_is_cyclic_on_labels Board.three_cards
              (Board.ChildOf 1%nat) 1%nat false Hd eq_refl Hin)
    as (Hnext & _).
  destruct Hnext as (r & Hrun & Hleast & _).
  { exists 2%nat. split; [vm_compute; right; right; left|vm_compute; reflexivity]. }
  exists r. split; [exact Hrun|exact Hleast].
Defined.

Lemma CopySelected_duplicates_witness :
  (forall c, c ∈ Board.selected_cards Board.survivor_selected ->
             (c < Board.next_ref Board.survivor_selected)%nat)
  /\ exists st',
       @Board.CopySelected Board.sample_defaults Board.survivor_selected
       = Board.Return tt st'
       /\ Board.selected_cards st' = [3%nat]
       /\ Board.body (Board.heap st' 3%nat)
          = Board.body (Board.heap Board.survivor_selected 2%nat)
       /\ Wx.GetPosition (Board.rect (Board.heap st' 3%nat)) = (105, 215).
Proof.
  assert (Hsel : forall c, c ∈ Board.selected_cards Board.survivor_selected ->
                           (c < Board.next_ref Board.survivor_selected)%nat).
  { intros c Hc. vm_compute in Hc.
    apply elem_of_cons in Hc as [->|Hc]; [vm_compute; lia|].
    by apply elem_of_nil in Hc. }
  split; [exact Hsel|].
  destruct (@CopySelected_duplicates Board.sample_defaults
              Board.survivor_selected Hsel)
    as (st' & Hrun & Hnew & _ & _ & _ & Hdup).
  exists st'. split; [exact Hrun|]. split; [exact Hnew|].
  destruct (Hdup 0%nat 2%nat) as (_ & Hbody & Hpos & _);
    [vm_compute; reflexivity|].
  split; [exact Hbody|exact Hpos].
Defined.

Lemma selection_never_repeats_witness :
  NoDup (Board.selected_cards Board.three_cards)
  /\ NoDup (Board.selected_cards
              (@Board.exec_all Board.sample_defaults
                 [Board.DoSelectCard 0%nat false; Board.DoSelectCard 0%nat false;
                  Board.DoCopySelected; Board.EvCardLeftDown 1%nat true (3, 3)]
                 Board.three_cards)).
Proof.
  assert (Hnd : NoDup (Board.selected_cards Board.three_cards))
    by (vm_compute; constructor).
  split; [exact Hnd|].
  exact (proj1 (@selection_never_repeats Board.sample_defaults
                  [Board.DoSelectCard 0%nat false; Board.DoSelectCard 0%nat false;
                   Board.DoCopySelected; Board.EvCardLeftDown 1%nat true (3, 3)]
                  Board.three_cards 0%nat Hnd)).
Defined.

(* ================================================================== *)
(** * Further properties of the code *)

(** ** Unselecting and deleting *)

Section Deleting.
Import Board BoardSpec.
Context `{CardDefaults}.

Lemma filter_all {A} (P : A -> Prop) `{!forall x, Decision (P x)} (l : list A) :
  (forall x, x ∈ l -> P x) -> filter P l = l.
Proof.
  induction l as [|x l IH]; intros Hall; [done|].
  rewrite filter_cons_True by (apply Hall; left).
  rewrite IH; [done|]. intros y Hy. apply Hall. by right.
Qed.

Lemma remove_NoDup_filter (c : ref) (l : list ref) :
  NoDup l -> c ∈ l -> Py.remove c l = Some (filter (fun d => d <> c) l).
Proof.
  induction l as [|y l IH]; simpl; [by intros _ ?%elem_of_nil|].
  intros [Hy Hnd]%list.NoDup_cons Hin. rewrite filter_cons.
  destruct (decide (y = c)) as [->|Hne].
  - rewrite decide_False by auto. f_equal. symmetry.
    apply filter_all. intros d Hd ->. done.
  - rewrite decide_True by done.
    apply elem_of_cons in Hin as [->|Hin]; [done|]. by rewrite IH.
Qed.

Lemma filter_ne_notin (c : ref) (l : list ref) :
  c ∉ l -> filter (fun d => d <> c) l = l.
Proof. intros Hc. apply filter_all. intros d Hd ->. done. Qed.

Lemma delete_one_run c st :
  delete_one c st =
  match Py.remove c (cards st) with
  | Some cs' => Return tt (set_cards cs' (upd_card c hidden st))
  | None => Raise (upd_card c hidden st)
  end.
Proof.
  unfold delete_one, bind, Hide, modify, gets. board_simpl.
  by destruct (Py.remove c (cards st)).
Qed.

Lemma DeleteSelected_unfold st :
  DeleteSelected st = (for_ (selected_cards st) delete_one ;; UnselectAll) st.
Proof. reflexivity. Qed.

(** The loop, when every card to delete is on the board. *)
Lemma delete_loop_run l st :
  NoDup l -> NoDup (cards st) -> (forall c, c ∈ l -> c ∈ cards st) ->
  exists st',
    for_ l delete_one st = Return tt st'
    /\ cards st' = filter (fun c => c ∉ l) (cards st)
    /\ selected_cards st' = selected_cards st
    /\ next_ref st' = next_ref st
    /\ (forall c, c ∈ l -> heap st' c = hidden (heap st c))
    /\ (forall c, c ∉ l -> heap st' c = heap st c).
Proof.
  revert st. induction l as [|c l IH]; intros st Hl Hcs Hin; cbn [for_].
  - exists st. split; [done|]. split.
    { symmetry. apply filter_all. intros x _. apply not_elem_of_nil. }
    repeat split; try done. by intros c ?%elem_of_nil.
  - apply list.NoDup_cons in Hl as [Hc Hl].
    unfold bind at 1. rewrite delete_one_run.
    rewrite remove_NoDup_filter by (done || apply Hin; left).
    set (st1 := set_cards _ _).
    destruct (IH st1) as (st' & -> & Hcards & Hsel & Hn & Hhid & Hkeep).
    { done. }
    { subst st1. board_simpl. by apply list.NoDup_filter. }
    { intros d Hd. subst st1. board_simpl. apply list_elem_of_filter.
      split; [by intros ->|]. apply Hin. by right. }
    exists st'. split; [done|]. subst st1. board_simpl.
    split.
    { rewrite Hcards, list_filter_filter. apply list_filter_iff.
      intros x. rewrite not_elem_of_cons. tauto. }
    split; [done|]. split; [done|]. split.
    + intros d [->|Hd]%elem_of_cons.
      * rewrite Hkeep by done. by rewrite fn_lookup_insert.
      * rewrite Hhid by done.
        rewrite fn_lookup_insert_ne; [done|]. by intros ->.
    + intros d [Hne Hd]%not_elem_of_cons. rewrite Hkeep by done.
      by rewrite fn_lookup_insert_ne.
Qed.

(** The loop returns only when every card it was given is on the
    board; the cards it lists afterwards were all listed before. *)
Lemma delete_loop_Return l st st' :
  for_ l delete_one st = Return tt st' -> forall c, c ∈ l -> c ∈ cards st.
Proof.
  revert st. induction l as [|c l IH]; intros st; cbn [for_];
    [by intros _ d ?%elem_of_nil|].
  unfold bind at 1. rewrite delete_one_run.
  destruct (Py.remove c (cards st)) as [cs'|] eqn:E; [|done].
  intros Hrun d [->|Hd]%elem_of_cons.
  - destruct (decide (c ∈ cards st)) as [|Hn]; [done|].
    apply remove_None in Hn. congruence.
  - specialize (IH _ Hrun d Hd). board_simpl.
    apply remove_Some_perm in E. rewrite E. by right.
Qed.
End Deleting.

Section DeletingMore.
Import Board BoardSpec.
Context `{CardDefaults}.

(** Raising or not, the loop leaves the selection alone and adds no
    card. *)
Lemma delete_loop_frame l st :
  selected_cards (state_of (for_ l delete_one st)) = selected_cards st
  /\ forall c, c ∈ cards (state_of (for_ l delete_one st)) -> c ∈ cards st.
Proof.
  remember (for_ l delete_one st) as r eqn:Er.
  revert st r Er. induction l as [|c l IH]; intros st r Er; cbn [for_] in Er.
  { subst r. split; [reflexivity|intros c Hc; exact Hc]. }
  unfold bind at 1 in Er. rewrite delete_one_run in Er.
  destruct (Py.remove c (cards st)) as [cs'|] eqn:E.
  - destruct (IH _ _ Er) as [Hs Hc].
    split; [by rewrite Hs|].
    intros d Hd. apply Hc in Hd. board_simpl.
    apply remove_Some_perm in E. rewrite E. by right.
  - subst r. split; [reflexivity|intros d Hd; exact Hd].
Qed.
End DeletingMore.

(** X1: [UnselectCard] on a card that is not selected changes nothing;
    on a selected card (of a selection without repetition) it takes
    exactly that card out and keeps the others in their order.  It
    touches neither the cards nor their widgets. *)
Theorem UnselectCard_takes_one_out (st : Board.Board) (c : Board.ref) :
  NoDup (Board.selected_cards st) ->
  exists st',
    Board.UnselectCard c st = Board.Return tt st'
    /\ Board.selected_cards st'
       = filter (fun d => d <> c) (Board.selected_cards st)
    /\ (c ∉ Board.selected_cards st')
    /\ (c ∉ Board.selected_cards st -> st' = st)
    /\ Board.cards st' = Board.cards st /\ Board.heap st' = Board.heap st.
Proof.
  intros Hnd. rewrite UnselectCard_run.
  destruct (decide (c ∈ Board.selected_cards st)) as [Hin|Hout].
  - rewrite remove_NoDup_filter by done. eexists. split; [reflexivity|].
    board_simpl. split; [done|]. split.
    + intros [Hc _]%list_elem_of_filter. done.
    + by repeat split.
  - pose proof Hout as Hnone. apply remove_None in Hnone. rewrite Hnone.
    exists st. rewrite filter_ne_notin by done. by repeat split.
Qed.

Lemma UnselectCard_takes_one_out_witness :
  NoDup (Board.selected_cards Board.all_selected)
  /\ exists st',
       Board.UnselectCard 0%nat Board.all_selected = Board.Return tt st'
       /\ Board.selected_cards st' = [1; 2]%nat.
Proof.
  assert (Hnd : NoDup (Board.selected_cards Board.all_selected))
    by (apply NoDup_by_decision; vm_compute; reflexivity).
  split; [exact Hnd|].
  destruct (UnselectCard_takes_one_out Board.all_selected 0%nat Hnd)
    as (st' & Hrun & Hsel & _).
  exists st'. split; [exact Hrun|]. rewrite Hsel. vm_compute. reflexivity.
Defined.

(** X2: when the selection has no repetition and every selected card is
    on the board (which lists no card twice), [DeleteSelected] returns:
    the board then lists the cards that were not selected, in their old
    order, the selection is empty, every deleted widget is hidden and
    otherwise as it was, and no other widget has changed. *)
Theorem DeleteSelected_removes_the_selection (st : Board.Board) :
  NoDup (Board.selected_cards st) ->
  NoDup (Board.cards st) ->
  (forall c, c ∈ Board.selected_cards st -> c ∈ Board.cards st) ->
  exists st',
    Board.DeleteSelected st = Board.Return tt st'
    /\ Board.cards st'
       = filter (fun c => c ∉ Board.selected_cards st) (Board.cards st)
    /\ Board.selected_cards st' = []
    /\ (forall c, c ∈ Board.selected_cards st ->
          Board.heap st' c = BoardSpec.hidden (Board.heap st c))
    /\ (forall c, c ∉ Board.selected_cards st ->
          Board.heap st' c = Board.heap st c).
Proof.
  intros Hsel Hcards Hin. rewrite DeleteSelected_unfold. unfold Board.bind.
  destruct (delete_loop_run (Board.selected_cards st) st Hsel Hcards Hin)
    as (st1 & -> & Hc & _ & _ & Hhid & Hkeep).
  rewrite UnselectAll_run. eexists. split; [reflexivity|]. board_simpl.
  by repeat split.
Qed.

Lemma DeleteSelected_removes_the_selection_witness :
  NoDup (Board.selected_cards
           (Board.set_selected_cards [2; 0]%nat Board.three_cards))
  /\ NoDup (Board.cards
              (Board.set_selected_cards [2; 0]%nat Board.three_cards))
  /\ exists st',
       Board.DeleteSelected
         (Board.set_selected_cards [2; 0]%nat Board.three_cards)
       = Board.Return tt st'
       /\ Board.cards st' = [1%nat] /\ Board.selected_cards st' = [].
Proof.
  split; [apply NoDup_by_decision; vm_compute; reflexivity|].
  split; [apply NoDup_by_decision; vm_compute; reflexivity|].
  destruct (DeleteSelected_removes_the_selection
              (Board.set_selected_cards [2; 0]%nat Board.three_cards))
    as (st' & Hrun & Hc & Hs & _).
  - apply NoDup_by_decision. vm_compute. reflexivity.
  - apply NoDup_by_decision. vm_compute. reflexivity.
  - intros c Hc. vm_compute in Hc |- *.
    repeat (apply elem_of_cons in Hc as [->|Hc];
            [repeat constructor|]).
    by apply elem_of_nil in Hc.
  - exists st'. split; [exact Hrun|]. split; [|exact Hs].
    rewrite Hc. vm_compute. reflexivity.
Defined.

(** X3: when some selected card is not on the board, [DeleteSelected]
    raises ([list.remove] finds nothing to remove).  The selection is
    then left as it was, not emptied, and the board lists only cards it
    listed before. *)
Theorem DeleteSelected_raises_off_board
  (st : Board.Board) (c : Board.ref) :
  c ∈ Board.selected_cards st ->
  c ∉ Board.cards st ->
  exists st',
    Board.DeleteSelected st = Board.Raise st'
    /\ Board.selected_cards st' = Board.selected_cards st
    /\ forall d, d ∈ Board.cards st' -> d ∈ Board.cards st.
Proof.
  intros Hsel Hout. rewrite DeleteSelected_unfold. unfold Board.bind.
  pose proof (delete_loop_frame (Board.selected_cards st) st) as [Hs Hc].
  destruct (Board.for_ (Board.selected_cards st) BoardSpec.delete_one st)
    as [[] st1|st1] eqn:E.
  - exfalso. apply Hout. by eapply delete_loop_Return.
  - exists st1. by repeat split.
Qed.

Lemma DeleteSelected_raises_off_board_witness :
  0%nat ∈ Board.selected_cards
            (Board.set_selected_cards [1; 0; 2]%nat Board.after_delete)
  /\ exists st',
       Board.DeleteSelected
         (Board.set_selected_cards [1; 0; 2]%nat Board.after_delete)
       = Board.Raise st'
       /\ Board.selected_cards st' = [1; 0; 2]%nat.
Proof.
  split; [vm_compute; right; left|].
  destruct (DeleteSelected_raises_off_board
              (Board.set_selected_cards [1; 0; 2]%nat Board.after_delete)
              0%nat)
    as (st' & Hrun & Hs & _).
  - vm_compute. right. left.
  - vm_compute. intros Hin.
    repeat (apply elem_of_cons in Hin as [Hin|Hin]; [discriminate|]).
    by apply elem_of_nil in Hin.
  - exists st'. split; [exact Hrun|exact Hs].
Defined.

(** X4: the delete event of a card deletes that card and no other,
    whatever was selected before: on a board that lists no card twice,
    [OnCardDelete] of a card of the board returns with the card taken
    off the board and hidden, every other card and widget as it was, and
    nothing selected.  For a card that is not on the board it raises,
    with that card left as the whole selection. *)
Theorem OnCardDelete_deletes_that_card (st : Board.Board) (card : Board.ref) :
  NoDup (Board.cards st) ->
  (card ∈ Board.cards st ->
   exists st',
     Board.OnCardDelete card st = Board.Return tt st'
     /\ Board.cards st' = filter (fun c => c <> card) (Board.cards st)
     /\ Board.selected_cards st' = []
     /\ Board.heap st' card = BoardSpec.hidden (Board.heap st card)
     /\ forall c, c <> card -> Board.heap st' c = Board.heap st c)
  /\ (card ∉ Board.cards st ->
      exists st',
        Board.OnCardDelete card st = Board.Raise st'
        /\ Board.selected_cards st' = [card]
        /\ Board.cards st' = Board.cards st).
Proof.
  intros Hnd. unfold Board.OnCardDelete, Board.bind.
  rewrite SelectCard_new_run, DeleteSelected_unfold. unfold Board.bind.
  board_simpl. split.
  - intros Hin.
    destruct (delete_loop_run [card] (Board.set_selected_cards [card] st))
      as (st1 & -> & Hc & _ & _ & Hhid & Hkeep).
    { apply list.NoDup_singleton. }
    { done. }
    { by intros c ->%list_elem_of_singleton. }
    rewrite UnselectAll_run. eexists. split; [reflexivity|]. board_simpl.
    split.
    { rewrite Hc. board_simpl. apply list_filter_iff. intros c.
      rewrite list_elem_of_singleton. tauto. }
    split; [done|]. split.
    + apply Hhid. left.
    + intros c Hne. apply Hkeep. by intros ->%list_elem_of_singleton.
  - intros Hout. cbn [Board.for_]. unfold Board.bind.
    rewrite delete_one_run. board_simpl.
    pose proof Hout as Hnone. apply remove_None in Hnone. rewrite Hnone.
    eexists. split; [reflexivity|]. by split.
Qed.

Lemma OnCardDelete_deletes_that_card_witness :
  NoDup (Board.cards Board.all_selected)
  /\ exists st',
       Board.OnCardDelete 1%nat Board.all_selected = Board.Return tt st'
       /\ Board.cards st' = [0; 2]%nat
       /\ Board.selected_cards st' = [].
Proof.
  assert (Hnd : NoDup (Board.cards Board.all_selected))
    by (apply NoDup_by_decision; vm_compute; reflexivity).
  split; [exact Hnd|].
  destruct (OnCardDelete_deletes_that_card Board.all_selected 1%nat Hnd)
    as [Hon _].
  destruct Hon as (st' & Hrun & Hc & Hs & _).
  { vm_compute. right. left. }
  exists st'. split; [exact Hrun|]. split; [|exact Hs].
  rewrite Hc. vm_compute. reflexivity.
Defined.

(** ** Arranging in a column, moving the selection *)

(** X5: [VArrangeSelectedCards] is the vertical twin of the horizontal
    arrangement.  On a selection that is not empty and names no card
    twice it clears the selection and moves exactly the selected cards,
    keeping their sizes: taken in ascending order of their original
    tops (ties in selection order), the first card, the topmost
    selected one, stays at the least original top; each next card
    starts at the bottom edge of the one before it plus CARD_PADDING;
    and every card gets the original left of that topmost card. *)
Theorem VArrange_lays_out_a_column (st : Board.Board) :
  Board.selected_cards st <> [] ->
  NoDup (Board.selected_cards st) ->
  let left_of s c := Wx.left (Board.rect (Board.heap s c)) in
  let top_of s c := Wx.top (Board.rect (Board.heap s c)) in
  let bottom_of s c := Wx.bottom (Board.rect (Board.heap s c)) in
  let arrange := Py.sort (top_of st) (Board.selected_cards st) in
  exists st' anchor rest,
    Board.VArrangeSelectedCards st = Board.Return tt st'
    /\ Board.selected_cards st' = []
    /\ Board.cards st' = Board.cards st
    /\ (forall c, c ∉ Board.selected_cards st ->
          Board.heap st' c = Board.heap st c)
    /\ (forall c, Board.moved (Board.heap st c) (Board.heap st' c))
    /\ arrange ≡ₚ Board.selected_cards st
    /\ StronglySorted (ascending (top_of st)) arrange
    /\ arrange = anchor :: rest
    /\ (forall c, c ∈ Board.selected_cards st ->
          top_of st anchor <= top_of st c)
    /\ top_of st' anchor = top_of st anchor
    /\ (forall i c d, arrange !! i = Some c -> arrange !! S i = Some d ->
          top_of st' d = bottom_of st' c + Board.CARD_PADDING)
    /\ (forall c, c ∈ Board.selected_cards st ->
          left_of st' c = left_of st anchor).
Proof.
  intros Hne Hnd left_of top_of bottom_of arrange.
  unfold Board.VArrangeSelectedCards.
  unfold Board.bind at 1, Board.gets at 1.
  rewrite decide_False by (destruct (Board.selected_cards st); simpl; [done|lia]).
  unfold Board.bind at 1. rewrite UnselectAll_run.
  unfold Board.bind at 1, Board.gets at 1. board_simpl.
  set (tops := map _ (Board.selected_cards st)).
  destruct (min_is_Some tops) as [m Hm].
  { subst tops. by destruct (Board.selected_cards st). }
  destruct (index_is_Some m tops) as [i Hi]; [by apply min_Some in Hm as [? _]|].
  assert (exists card, Board.selected_cards st !! i = Some card) as [card Hcard].
  { apply index_Some in Hi as [Hi _]. subst tops.
    apply lookup_lt_Some in Hi. rewrite length_map in Hi.
    by apply lookup_lt_is_Some_2. }
  unfold Board.bind at 1. rewrite Hm. unfold Board.lift at 1, Board.ret at 1.
  unfold Board.bind at 1. rewrite Hi. unfold Board.lift at 1, Board.ret at 1.
  unfold Board.bind at 1. rewrite Hcard. unfold Board.lift at 1, Board.ret at 1.
  unfold Board.bind at 1, Board.GetRect at 1, Board.gets at 1. board_simpl.
  destruct (sort_head_index (top_of st) (Board.selected_cards st) m i card)
    as [rest Hrest]; [done..|].
  assert (Hperm : arrange ≡ₚ Board.selected_cards st) by apply sort_perm.
  assert (Hnd' : NoDup arrange) by by rewrite Hperm.
  fold (top_of st). fold arrange.
  destruct (place_loop_run
              (fun top => (Wx.left (Board.rect (Board.heap st card)), top))
              Wx.bottom arrange m (Board.set_selected_cards [] st) Hnd')
    as (st' & Hrun & Hl & Hout & Hmv & Hcs & Hsel & _).
  exists st', card, rest. split; [exact Hrun|].
  assert (Hmin : top_of st card = m).
  { apply index_Some in Hi as [Hi _]. subst tops.
    rewrite list_lookup_fmap, Hcard in Hi. by injection Hi. }
  fold arrange in Hrest.
  split; [done|]. split; [done|].
  split; [intros c Hc; apply Hout; by rewrite Hperm|].
  split; [exact Hmv|]. split; [done|]. split; [apply sort_sorted|].
  split; [done|]. split; [|split; [|split]].
  - intros c Hc. rewrite Hmin. apply min_Some in Hm as [_ Hle]. apply Hle.
    subst tops. by apply (elem_of_map (top_of st)).
  - rewrite Hrest in Hl. destruct Hl as [Hp _].
    unfold top_of, Wx.top. unfold Wx.GetPosition in Hp.
    injection Hp as _ Hy. rewrite Hy. by rewrite <- Hmin.
  - intros j c d Hc Hdd.
    pose proof (laid_out_consecutive _ _ _ _ _ _ _ _ Hl Hc Hdd) as Hp.
    unfold Wx.GetPosition in Hp. by injection Hp as _ Hy.
  - intros c Hc. rewrite <- Hperm in Hc.
    destruct (laid_out_placed _ _ _ _ _ c Hl Hc) as [e Hp].
    unfold Wx.GetPosition in Hp. by injection Hp as Hx _.
Qed.

Lemma VArrange_lays_out_a_column_witness :
  Board.selected_cards Board.all_selected <> []
  /\ exists st',
       Board.VArrangeSelectedCards Board.all_selected = Board.Return tt st'
       /\ Board.selected_cards st' = []
       /\ Wx.top (Board.rect (Board.heap st' 0%nat)) = 10
       /\ Wx.left (Board.rect (Board.heap st' 1%nat)) = 10.
Proof.
  assert (Hne : Board.selected_cards Board.all_selected <> [])
    by (vm_compute; discriminate).
  split; [exact Hne|].
  assert (Hnd : NoDup (Board.selected_cards Board.all_selected))
    by (apply NoDup_by_decision; vm_compute; reflexivity).
  destruct (VArrange_lays_out_a_column Board.all_selected Hne Hnd)
    as (st' & anchor & rest & Hrun & Hsel & _ & _ & _ & _ & _ & Harr & _
        & Htop & _ & Hleft).
  vm_compute in Harr. injection Harr as <- _.
  exists st'. split; [exact Hrun|]. split; [exact Hsel|].
  split; [exact Htop|].
  apply (Hleft 1%nat). vm_compute. left.
Defined.

Section Moving.
Import Board BoardSpec.

Lemma MoveCard_run c dx dy st :
  MoveCard c dx dy st = Return tt (upd_card c (shifted (dx, dy)) st).
Proof. reflexivity. Qed.

Lemma move_loop_run l dx dy st :
  NoDup l ->
  exists st',
    for_ l (fun c => MoveCard c dx dy) st = Return tt st'
    /\ (forall c, c ∈ l -> heap st' c = shifted (dx, dy) (heap st c))
    /\ (forall c, c ∉ l -> heap st' c = heap st c)
    /\ cards st' = cards st /\ selected_cards st' = selected_cards st
    /\ next_ref st' = next_ref st.
Proof.
  revert st. induction l as [|c l IH]; intros st Hnd; cbn [for_].
  - exists st. repeat split; try done. by intros c ?%elem_of_nil.
  - apply list.NoDup_cons in Hnd as [Hc Hnd].
    unfold bind at 1. rewrite MoveCard_run.
    destruct (IH (upd_card c (shifted (dx, dy)) st) Hnd)
      as (st' & -> & Hin & Hout & Hcs & Hs & Hn).
    exists st'. split; [done|]. board_simpl. repeat split; try done.
    + intros d [->|Hd]%elem_of_cons.
      * rewrite Hout by done. by rewrite fn_lookup_insert.
      * rewrite Hin by done. rewrite fn_lookup_insert_ne; [done|].
        by intros ->.
    + intros d [Hne Hd]%not_elem_of_cons. rewrite Hout by done.
      by rewrite fn_lookup_insert_ne.
Qed.

Lemma shifted_back dx dy w : shifted (- dx, - dy) (shifted (dx, dy) w) = w.
Proof.
  destruct w as [l [x y wd ht] b s]. unfold shifted, Wx.move_to, Wx.point_add.
  simpl. do 2 f_equal; lia.
Qed.
End Moving.

(** X6: [MoveSelected(dx, dy)] moves every selected card by (dx, dy)
    (the selection naming no card twice) and leaves every other widget,
    the board's list and the selection as they were; moving back by
    (-dx, -dy) afterwards restores every widget. *)
Theorem MoveSelected_shifts_the_selection
  (st : Board.Board) (dx dy : Z) :
  NoDup (Board.selected_cards st) ->
  exists st' st'',
    Board.MoveSelected dx dy st = Board.Return tt st'
    /\ (forall c, c ∈ Board.selected_cards st ->
          Board.heap st' c = BoardSpec.shifted (dx, dy) (Board.heap st c))
    /\ (forall c, c ∉ Board.selected_cards st ->
          Board.heap st' c = Board.heap st c)
    /\ Board.cards st' = Board.cards st
    /\ Board.selected_cards st' = Board.selected_cards st
    /\ Board.MoveSelected (- dx) (- dy) st' = Board.Return tt st''
    /\ forall c, Board.heap st'' c = Board.heap st c.
Proof.
  intros Hnd. unfold Board.MoveSelected, Board.bind, Board.GetSelection, Board.gets.
  destruct (move_loop_run (Board.selected_cards st) dx dy st Hnd)
    as (st' & Hrun & Hin & Hout & Hcs & Hs & _).
  rewrite Hrun.
  destruct (move_loop_run (Board.selected_cards st') (- dx) (- dy) st')
    as (st'' & Hrun' & Hin' & Hout' & _); [by rewrite Hs|].
  exists st', st''. rewrite Hrun'. repeat split; try done.
  intros c. destruct (decide (c ∈ Board.selected_cards st)) as [Hc|Hc].
  - rewrite Hin' by (by rewrite Hs). rewrite Hin by done.
    apply shifted_back.
  - rewrite Hout' by (by rewrite Hs). by apply Hout.
Qed.

Lemma MoveSelected_shifts_the_selection_witness :
  NoDup (Board.selected_cards Board.all_selected)
  /\ exists st',
       Board.MoveSelected 5 (-10) Board.all_selected = Board.Return tt st'
       /\ Wx.GetPosition (Board.rect (Board.heap st' 2%nat)) = (95, 190).
Proof.
  assert (Hnd : NoDup (Board.selected_cards Board.all_selected))
    by (apply NoDup_by_decision; vm_compute; reflexivity).
  split; [exact Hnd|].
  destruct (MoveSelected_shifts_the_selection Board.all_selected 5 (-10) Hnd)
    as (st' & _ & Hrun & Hin & _).
  exists st'. split; [exact Hrun|]. rewrite (Hin 2%nat).
  - vm_compute. reflexivity.
  - vm_compute. right. right. left.
Defined.

(** ** Clicking and dragging a card *)

Section CardMouse.
Import Board BoardSpec.
Context `{CardDefaults}.

Lemma record_loop_run click sel st :
  for_ sel (fun c =>
    cp <- GetPosition c ;;
    modify (fun st =>
      set_moving_cards_pos
        (moving_cards_pos st ++ [(c, Wx.point_sub cp click, cp)]) st)) st
  = Return tt
      (set_moving_cards_pos
         (moving_cards_pos st ++ map (moving_entry st click) sel) st).
Proof.
  revert st. induction sel as [|c sel IH]; intros st; cbn [for_ map].
  - rewrite app_nil_r. by destruct st.
  - unfold bind at 1. unfold bind at 1, GetPosition at 1, gets at 1, modify at 1.
    rewrite IH. board_simpl. unfold moving_entry at 2. board_simpl.
    by rewrite <- app_assoc.
Qed.

Lemma OnCardLeftDown_run card control_down p st :
  NoDup (selected_cards st) ->
  let sel := after_click control_down card (selected_cards st) in
  let click := Wx.point_add (Wx.GetPosition (rect (heap st card))) p in
  OnCardLeftDown card control_down p st
  = Return tt
      (set_moving_cards_pos (map (moving_entry st click) sel)
         (set_on_motion false
            (set_selected_cards sel (set_focus (FocusCard card) st)))).
Proof.
  intros Hnd sel click. unfold OnCardLeftDown.
  unfold bind at 1, modify at 1. unfold bind at 1.
  assert (Hsel :
    (if negb control_down then SelectCard card true
     else sel0 <- gets selected_cards ;;
          if decide (card ∈ sel0) then UnselectCard card
          else SelectCard card false) (set_focus (FocusCard card) st)
    = Return tt (set_selected_cards sel (set_focus (FocusCard card) st))).
  { subst sel. unfold after_click. destruct control_down; cbn [negb].
    - unfold bind, gets. board_simpl. case_decide as Hin.
      + rewrite UnselectCard_run. board_simpl.
        by rewrite remove_NoDup_filter.
      + rewrite SelectCard_add_run. board_simpl.
        by rewrite decide_False.
    - by rewrite SelectCard_new_run. }
  rewrite Hsel.
  unfold bind at 1, modify at 1.
  unfold bind at 1, GetPosition at 1, gets at 1.
  unfold bind at 1, modify at 1.
  unfold bind at 1, gets at 1.
  rewrite record_loop_run. board_simpl. done.
Qed.
End CardMouse.

Section CardDrag.
Import Board BoardSpec.
Context `{CardDefaults}.

Lemma OnMovingCard_run m st :
  OnMovingCard true m st =
  Return tt (if decide (moving_cards_pos st = []) then st
             else set_on_motion true st).
Proof.
  unfold OnMovingCard, bind, gets. cbn [andb].
  case_bool_decide; case_decide; done.
Qed.

Lemma moving_loop_run pts m st :
  moving_cards_pos st <> [] ->
  for_ (pts ++ [m]) (fun m => OnMovingCard true m) st
  = Return tt (set_on_motion true st).
Proof.
  revert st. induction pts as [|a pts IH]; intros st Hm; cbn [app for_];
    unfold bind; rewrite OnMovingCard_run, decide_False by done.
  - done.
  - by rewrite IH.
Qed.

Lemma moving_loop_idle pts st :
  moving_cards_pos st = [] ->
  for_ pts (fun m => OnMovingCard true m) st = Return tt st.
Proof.
  intros Hm. induction pts as [|a pts IH]; cbn [for_]; [done|].
  unfold bind. by rewrite OnMovingCard_run, decide_True.
Qed.

(** Where [OnCardLeftUp] puts a card recorded with offset [orig]. *)
Lemma release_loop_run q (g k : ref -> Wx.Point) l st :
  exists st',
    for_ (map (fun c => (c, g c, k c)) l)
      (fun '(c, orig, _) =>
         let final_pos :=
           Wx.point_sub (Wx.point_add q orig)
                        (Content_BORDER_WIDTH, Content_BORDER_WIDTH) in
         Move c final_pos) st
    = Return tt st'
    /\ (forall c, c ∈ l ->
          heap st' c
          = placed_at (Wx.point_sub (Wx.point_add q (g c))
                         (Content_BORDER_WIDTH, Content_BORDER_WIDTH))
                      (heap st c))
    /\ (forall c, c ∉ l -> heap st' c = heap st c)
    /\ cards st' = cards st /\ selected_cards st' = selected_cards st
    /\ moving_cards_pos st' = moving_cards_pos st
    /\ on_motion st' = on_motion st /\ next_ref st' = next_ref st.
Proof.
  set (body := fun '(c, orig, _) => _).
  revert st. induction l as [|c l IH]; intros st; cbn [map for_].
  - exists st. repeat split; try done. by intros c ?%elem_of_nil.
  - unfold bind at 1.
    assert (Hbody : body (c, g c, k c) st
                    = Return tt
                        (upd_card c
                           (placed_at (Wx.point_sub (Wx.point_add q (g c))
                              (Content_BORDER_WIDTH, Content_BORDER_WIDTH)))
                           st)) by reflexivity.
    rewrite Hbody.
    match goal with
    | |- context [for_ _ _ ?s] =>
      destruct (IH s) as (st' & -> & Hin & Hout & Hcs & Hs & Hm & Ho & Hn)
    end.
    exists st'. split; [done|]. board_simpl. repeat split; try done.
    + intros d Hd. destruct (decide (d ∈ l)) as [Hdl|Hdl].
      * rewrite Hin by done. destruct (decide (d = c)) as [->|Hne].
        -- rewrite fn_lookup_insert. done.
        -- by rewrite fn_lookup_insert_ne.
      * apply elem_of_cons in Hd as [->|Hd]; [|done].
        rewrite Hout by done. by rewrite fn_lookup_insert.
    + intros d [Hne Hd]%not_elem_of_cons. rewrite Hout by done.
      by rewrite fn_lookup_insert_ne.
Qed.
End CardDrag.

(** X7: dragging a card moves the whole selection rigidly.  The button
    goes down on [card] at [p] (relative to the card), the pointer is
    dragged to [q] on the board and released there.  With [sel] the
    selection the click leaves (the card alone, or the ctrl-click
    toggle), not empty, every card of [sel] ends displaced by the same
    vector, the release point minus the click point on the board minus
    the border width, whatever way the pointer took; no other widget
    moves, and afterwards nothing is selected and no move is under
    way. *)
Theorem drag_moves_selection_rigidly `{Board.CardDefaults}
  (st : Board.Board) (card : Board.ref) (control_down : bool)
  (p q : Wx.Point) (via : list Wx.Point) :
  NoDup (Board.selected_cards st) ->
  let sel := BoardSpec.after_click control_down card (Board.selected_cards st) in
  let click := Wx.point_add (Wx.GetPosition (Board.rect (Board.heap st card))) p in
  let by_ := (q.1 - click.1 - Board.Content_BORDER_WIDTH,
              q.2 - click.2 - Board.Content_BORDER_WIDTH) in
  sel <> [] ->
  exists st',
    BoardSpec.drag_move_gesture card control_down p via q st
    = Board.Return tt st'
    /\ (forall c, c ∈ sel ->
          Board.heap st' c = BoardSpec.shifted by_ (Board.heap st c))
    /\ (forall c, c ∉ sel -> Board.heap st' c = Board.heap st c)
    /\ Board.selected_cards st' = []
    /\ Board.moving_cards_pos st' = []
    /\ Board.on_motion st' = false
    /\ Board.cards st' = Board.cards st.
Proof.
  intros Hnd sel click by_ Hne.
  unfold BoardSpec.drag_move_gesture. unfold Board.bind at 1.
  rewrite OnCardLeftDown_run by done. fold sel click.
  unfold Board.bind at 1. rewrite moving_loop_run
    by (board_simpl; destruct sel; [done|discriminate]).
  unfold Board.OnCardLeftUp.
  unfold Board.bind at 1, Board.gets at 1. board_simpl.
  unfold Board.bind at 1. unfold Board.bind at 1, Board.modify at 1.
  unfold Board.bind at 1, Board.modify at 1.
  unfold Board.bind at 1, Board.gets at 1. board_simpl.
  change (map (BoardSpec.moving_entry st click) sel)
    with (map (fun c => (c, Wx.point_sub
                              (Wx.GetPosition (Board.rect (Board.heap st c)))
                              click,
                         Wx.GetPosition (Board.rect (Board.heap st c)))) sel).
  match goal with
  | |- context [Board.for_ (map ?e sel) _ ?s] =>
    destruct (release_loop_run q
                (fun c => Wx.point_sub
                            (Wx.GetPosition (Board.rect (Board.heap st c))) click)
                (fun c => Wx.GetPosition (Board.rect (Board.heap st c)))
                sel s)
      as (st' & Hrun & Hin & Hout & Hcs & Hs & Hm & Ho & _)
  end.
  cbv zeta in Hrun. rewrite Hrun.
  unfold Board.modify. eexists. split; [reflexivity|]. board_simpl.
  rewrite Hs, Ho, Hcs. board_simpl. repeat split; try done.
  intros c Hc. rewrite (Hin c Hc). board_simpl.
  unfold BoardSpec.placed_at, BoardSpec.shifted. f_equal.
  unfold Wx.move_to, Wx.point_sub, Wx.point_add, Wx.GetPosition. simpl.
  f_equal; subst by_ click; unfold Wx.point_add, Wx.GetPosition; simpl; lia.
Qed.

Lemma drag_moves_selection_rigidly_witness :
  NoDup (Board.selected_cards Board.three_cards)
  /\ exists st',
       @BoardSpec.drag_move_gesture Board.sample_defaults
         1%nat false (20, 30) [(300, 300)] (120, 230) Board.three_cards
       = Board.Return tt st'
       /\ Wx.GetPosition (Board.rect (Board.heap st' 1%nat)) = (95, 195)
       /\ Board.selected_cards st' = [].
Proof.
  assert (Hnd : NoDup (Board.selected_cards Board.three_cards))
    by (apply NoDup_by_decision; vm_compute; reflexivity).
  split; [exact Hnd|].
  destruct (@drag_moves_selection_rigidly Board.sample_defaults
              Board.three_cards 1%nat false (20, 30) (120, 230)
              [(300, 300)] Hnd)
    as (st' & Hrun & Hin & _ & Hs & _); [discriminate|].
  exists st'. split; [exact Hrun|]. split; [|exact Hs].
  rewrite (Hin 1%nat); [vm_compute; reflexivity|left].
Defined.

(** X8: a click on a card without motion moves nothing.  After the
    button went down on the card and up again, the selection is the
    card alone, or with the control key the old selection with the card
    toggled (taken out if it was selected, added at the end if not); the
    card has the focus, no widget has changed and no move is under
    way. *)
Theorem click_selects_or_toggles `{Board.CardDefaults}
  (st : Board.Board) (card : Board.ref) (control_down : bool)
  (p q : Wx.Point) :
  NoDup (Board.selected_cards st) ->
  exists st',
    BoardSpec.click_gesture card control_down p q st = Board.Return tt st'
    /\ Board.selected_cards st'
       = BoardSpec.after_click control_down card (Board.selected_cards st)
    /\ (control_down = false -> Board.selected_cards st' = [card])
    /\ (control_down = true ->
        (card ∈ Board.selected_cards st' <-> card ∉ Board.selected_cards st)
        /\ forall c, c <> card ->
             (c ∈ Board.selected_cards st' <-> c ∈ Board.selected_cards st))
    /\ Board.heap st' = Board.heap st
    /\ Board.cards st' = Board.cards st
    /\ Board.moving_cards_pos st' = []
    /\ Board.focus st' = Board.FocusCard card.
Proof.
  intros Hnd. unfold BoardSpec.click_gesture, Board.bind.
  rewrite OnCardLeftDown_run by done.
  unfold Board.OnCardLeftUp, Board.bind, Board.gets, Board.modify.
  board_simpl. eexists. split; [reflexivity|]. board_simpl.
  split; [done|]. split; [by intros ->|]. split; [|done].
  intros ->. unfold BoardSpec.after_click. case_decide as Hin.
  - split.
    + rewrite list_elem_of_filter. tauto.
    + intros c Hne. rewrite list_elem_of_filter. tauto.
  - split.
    + rewrite elem_of_app, list_elem_of_singleton. tauto.
    + intros c Hne. rewrite elem_of_app, list_elem_of_singleton. tauto.
Qed.

Lemma click_selects_or_toggles_witness :
  NoDup (Board.selected_cards Board.all_selected)
  /\ exists st',
       @BoardSpec.click_gesture Board.sample_defaults
         0%nat true (5, 5) (15, 15) Board.all_selected
       = Board.Return tt st'
       /\ Board.selected_cards st' = [1; 2]%nat.
Proof.
  assert (Hnd : NoDup (Board.selected_cards Board.all_selected))
    by (apply NoDup_by_decision; vm_compute; reflexivity).
  split; [exact Hnd|].
  destruct (@click_selects_or_toggles Board.sample_defaults
              Board.all_selected 0%nat true (5, 5) (15, 15) Hnd)
    as (st' & Hrun & Hsel & _).
  exists st'. split; [exact Hrun|]. rewrite Hsel. vm_compute. reflexivity.
Defined.

(** ** Drag-select along a line *)

Section DegenerateDrag.

Lemma Intersects_empty (a b : Wx.Rect) :
  Wx.width b <= 0 \/ Wx.height b <= 0 -> Wx.Intersects a b = false.
Proof.
  intros Hb. unfold Wx.Intersects, Wx.Intersect, Wx.right, Wx.bottom.
  apply bool_decide_eq_false. case_decide as Hd; simpl; lia.
Qed.

Lemma filter_none {A} (P : A -> Prop) `{!forall x, Decision (P x)} (l : list A) :
  (forall x, x ∈ l -> ~ P x) -> filter P l = [].
Proof.
  induction l as [|x l IH]; intros Hall; [done|].
  rewrite filter_cons_False by (apply Hall; left).
  apply IH. intros y Hy. apply Hall. by right.
Qed.
End DegenerateDrag.

(** X9: a drag that ends straight above, below or beside the point
    where it began selects nothing, whatever cards lie on the line: the
    encircling rectangle then has width or height 0, and the toolkit
    finds that no rectangle intersects an empty one. *)
Theorem straight_drag_selects_nothing `{Board.CardDefaults}
  (st : Board.Board) (p1 p2 : Wx.Point) (via : list Wx.Point) :
  Board.moving_cards_pos st = [] ->
  p1.1 = p2.1 \/ p1.2 = p2.2 ->
  exists st',
    Board.drag_select_gesture p1 via p2 st = Board.Return tt st'
    /\ Board.selected_cards st' = []
    /\ (Wx.width (MakeEncirclingRect p1 p2) = 0
        \/ Wx.height (MakeEncirclingRect p1 p2) = 0).
Proof.
  intros Hm Hline.
  destruct (drag_select_gesture_run p1 via p2 st Hm) as (st' & Hrun & Hs & _).
  assert (Hempty : Wx.width (MakeEncirclingRect p1 p2) = 0
                   \/ Wx.height (MakeEncirclingRect p1 p2) = 0).
  { unfold MakeEncirclingRect. simpl. lia. }
  exists st'. split; [done|]. split; [|done].
  rewrite Hs, filter_none; [done|].
  intros c _. rewrite Intersects_empty by lia. done.
Qed.

Lemma straight_drag_selects_nothing_witness :
  Board.moving_cards_pos Board.three_cards = []
  /\ exists st',
       @Board.drag_select_gesture Board.sample_defaults
         (0, 50) [] (700, 50) Board.three_cards = Board.Return tt st'
       /\ Board.selected_cards st' = [].
Proof.
  assert (Hm : Board.moving_cards_pos Board.three_cards = [])
    by (vm_compute; reflexivity).
  split; [exact Hm|].
  destruct (@straight_drag_selects_nothing Board.sample_defaults
              Board.three_cards (0, 50) (700, 50) [] Hm)
    as (st' & Hrun & Hs & _); [right; reflexivity|].
  exists st'. split; [exact Hrun|exact Hs].
Defined.

(** ** Select all *)

(** X10: [OnSelectAll] ends with every card of the board selected once,
    whatever was selected before: the selection holds exactly the
    board's cards, and when the board lists no card twice it is the
    board's list itself, in board order.  Cards and widgets are
    untouched. *)
Theorem OnSelectAll_selects_every_card (st : Board.Board) :
  exists st',
    Notes.OnSelectAll st = Board.Return tt st'
    /\ (forall c, c ∈ Board.selected_cards st' <-> c ∈ Board.cards st)
    /\ NoDup (Board.selected_cards st')
    /\ (NoDup (Board.cards st) -> Board.selected_cards st' = Board.cards st)
    /\ Board.cards st' = Board.cards st /\ Board.heap st' = Board.heap st.
Proof.
  unfold Notes.OnSelectAll, Board.bind. rewrite UnselectAll_run.
  unfold Board.GetCards, Board.gets. board_simpl.
  match goal with
  | |- context [Board.for_ ?l _ ?s] =>
    destruct (for_SelectCard_run l s) as (st' & -> & Hs & Hh & Hc & _)
  end.
  board_simpl. exists st'. split; [done|]. rewrite Hs.
  split; [|split; [|split; [|done]]].
  - intros c. rewrite add_all_elem_of, elem_of_nil. tauto.
  - apply add_all_NoDup, NoDup_nil_2.
  - apply add_all_fresh.
Qed.

Lemma OnSelectAll_selects_every_card_witness :
  NoDup (Board.cards Board.after_delete)
  /\ exists st',
       Notes.OnSelectAll Board.after_delete = Board.Return tt st'
       /\ Board.selected_cards st' = [1; 2]%nat.
Proof.
  assert (Hnd : NoDup (Board.cards Board.after_delete))
    by (apply NoDup_by_decision; vm_compute; reflexivity).
  split; [exact Hnd|].
  destruct (OnSelectAll_selects_every_card Board.after_delete)
    as (st' & Hrun & _ & _ & Hall & _).
  exists st'. split; [exact Hrun|]. rewrite (Hall Hnd).
  vm_compute. reflexivity.
Defined.

(** ** What the board's list and the labels keep *)

Section Layout.
Import Board BoardSpec.
Context `{CardDefaults}.

Lemma same_layout_upd c f st :
  (forall w, label (f w) = label w) -> same_layout st (upd_card c f st).
Proof.
  intros Hf. repeat split. intros d. board_simpl.
  destruct (decide (d = c)) as [->|Hne].
  - by rewrite fn_lookup_insert.
  - by rewrite fn_lookup_insert_ne.
Qed.

(** A property of the board's list, the number of widgets constructed
    and the labels, which a new card with the next label keeps. *)
Variable P : Board -> Prop.
Hypothesis P_layout : forall st st', same_layout st st' -> P st -> P st'.
Hypothesis P_new : forall w st,
  P st -> label w = Z.of_nat (length (cards st)) -> P (with_new_card w st).

Lemma modify_keeps_layout f :
  (forall st, same_layout st (f st)) -> preserves P (modify f).
Proof. intros Hf. apply preserves_modify. intros st. apply P_layout, Hf. Qed.

Lemma SetPosition_keeps_layout c p : preserves P (SetPosition c p).
Proof. apply modify_keeps_layout. intros st. by apply same_layout_upd. Qed.

Lemma Hide_keeps_layout c : preserves P (Hide c).
Proof. apply modify_keeps_layout. intros st. by apply same_layout_upd. Qed.

Lemma UnselectCard_keeps_layout c : preserves P (UnselectCard c).
Proof.
  intros st HP. rewrite UnselectCard_run. simpl.
  destruct (Py.remove c (selected_cards st)); [|done].
  eapply P_layout; [|exact HP]. by repeat split.
Qed.

Lemma UnselectAll_keeps_layout : preserves P UnselectAll.
Proof.
  intros st HP. rewrite UnselectAll_run. simpl.
  eapply P_layout; [|exact HP]. by repeat split.
Qed.

Lemma SelectCard_keeps_layout c new_sel : preserves P (SelectCard c new_sel).
Proof.
  intros st HP. destruct new_sel.
  - rewrite SelectCard_new_run. simpl.
    eapply P_layout; [|exact HP]. by repeat split.
  - rewrite SelectCard_add_run. simpl. case_decide; [done|].
    eapply P_layout; [|exact HP]. by repeat split.
Qed.

Lemma NewCard_keeps_layout subclass pos kwargs :
  preserves P (NewCard subclass pos (-1) kwargs).
Proof.
  intros st HP. pose proof (NewCard_result subclass pos (-1) kwargs st) as Hr.
  destruct (NewCard subclass pos (-1) kwargs st) as [new st'|st']; simpl.
  - destruct Hr as (_ & w & -> & Hl & _). apply P_new; [done|].
    by rewrite Hl, decide_True.
  - by subst.
Qed.

#[local] Hint Resolve preserves_ret preserves_raise preserves_gets
  preserves_lift SetPosition_keeps_layout Hide_keeps_layout
  UnselectCard_keeps_layout UnselectAll_keeps_layout
  SelectCard_keeps_layout NewCard_keeps_layout : pres.
#[local] Hint Extern 1 (preserves P (modify _)) =>
  (apply modify_keeps_layout; intros ?; repeat split; reflexivity) : pres.
#[local] Hint Extern 1 (preserves P (Move _ _)) =>
  apply SetPosition_keeps_layout : pres.
#[local] Hint Extern 1 (preserves P (SetFocus _)) =>
  (apply modify_keeps_layout; intros ?; repeat split; reflexivity) : pres.
#[local] Hint Extern 1 (preserves P (GetRect _)) => apply preserves_gets : pres.
#[local] Hint Extern 1 (preserves P (GetPosition _)) =>
  apply preserves_gets : pres.
#[local] Hint Extern 1 (preserves P (get_body _)) => apply preserves_gets : pres.
#[local] Hint Extern 1 (preserves P GetCards) => apply preserves_gets : pres.
#[local] Hint Extern 1 (preserves P GetSelection) =>
  apply preserves_gets : pres.

Lemma GetFocusedCard_keeps_layout : preserves P GetFocusedCard.
Proof. unfold GetFocusedCard. repeat pres_step. Qed.

#[local] Hint Resolve GetFocusedCard_keeps_layout : pres.

Lemma PlaceNewCard_keeps_layout subclass pos below :
  preserves P (PlaceNewCard subclass pos below).
Proof. unfold PlaceNewCard. repeat pres_step. Qed.

Lemma MoveSelected_keeps_layout dx dy : preserves P (MoveSelected dx dy).
Proof. unfold MoveSelected, MoveCard. repeat pres_step. Qed.

Lemma copy_loop_keeps_layout sel new : preserves P (copy_loop sel new).
Proof.
  revert new. induction sel as [|c sel IH]; intros new; cbn [copy_loop].
  - apply preserves_ret.
  - repeat pres_step.
Qed.

#[local] Hint Resolve copy_loop_keeps_layout : pres.

Lemma CopySelected_keeps_layout : preserves P CopySelected.
Proof. unfold CopySelected. repeat pres_step. Qed.

Lemma place_loop_keeps_layout place next arrange edge :
  preserves P (place_loop place next arrange edge).
Proof.
  revert edge. induction arrange as [|c l IH]; intros edge; cbn [place_loop].
  - apply preserves_ret.
  - repeat pres_step.
Qed.

#[local] Hint Resolve place_loop_keeps_layout : pres.

Lemma HArrange_keeps_layout : preserves P HArrangeSelectedCards.
Proof. unfold HArrangeSelectedCards. repeat pres_step. Qed.

Lemma VArrange_keeps_layout : preserves P VArrangeSelectedCards.
Proof. unfold VArrangeSelectedCards. repeat pres_step. Qed.

#[local] Hint Resolve PlaceNewCard_keeps_layout MoveSelected_keeps_layout
  CopySelected_keeps_layout HArrange_keeps_layout VArrange_keeps_layout : pres.

Lemma run_keeps_layout op :
  keeps_labels op = true -> preserves P (run op).
Proof.
  destruct op; cbn [run keeps_labels]; try discriminate; intros Hk;
    try (unfold OnCardLeftDown, OnMovingCard, OnCardLeftUp, OnLeftDown,
           OnDragSelect, OnLeftUp, OnLeftDClick; repeat pres_step; fail).
  apply bool_decide_eq_true in Hk as ->. repeat pres_step.
Qed.
End Layout.

Section Invariants.
Import Board BoardSpec.
Context `{CardDefaults}.

Lemma cards_distinct_layout st st' :
  same_layout st st' -> cards_distinct st -> cards_distinct st'.
Proof.
  intros (Hc & Hn & _) [Hnd Hlt]. unfold cards_distinct.
  by rewrite Hc, Hn.
Qed.

Lemma cards_distinct_new w st :
  cards_distinct st -> cards_distinct (with_new_card w st).
Proof.
  intros [Hnd Hlt]. unfold cards_distinct. board_simpl. split.
  - apply list.NoDup_app. split; [done|]. split.
    + intros c Hc ->%list_elem_of_singleton. apply Hlt in Hc. lia.
    + apply list.NoDup_singleton.
  - intros c [Hc| ->%list_elem_of_singleton]%elem_of_app; [|lia].
    apply Hlt in Hc. lia.
Qed.

Lemma labels_sequential_layout st st' :
  same_layout st st' -> labels_sequential st -> labels_sequential st'.
Proof.
  intros Hs [Hd Hl]. split; [by eapply cards_distinct_layout|].
  destruct Hs as (Hc & _ & Hh). intros i c. rewrite Hc, Hh. apply Hl.
Qed.

Lemma labels_sequential_new w st :
  labels_sequential st -> label w = Z.of_nat (length (cards st)) ->
  labels_sequential (with_new_card w st).
Proof.
  intros [Hd Hl] Hw. split; [by apply cards_distinct_new|].
  intros i c. board_simpl. intros [Hi|[Hlen Hi]]%lookup_app_Some.
  - assert (c <> next_ref st).
    { apply list_elem_of_lookup_2, (proj2 Hd) in Hi. lia. }
    rewrite fn_lookup_insert_ne by done. by apply Hl.
  - apply list_lookup_singleton_Some in Hi as [Hi <-].
    rewrite fn_lookup_insert, Hw. f_equal. lia.
Qed.

Lemma delete_one_keeps_distinct c : preserves cards_distinct (delete_one c).
Proof.
  intros st [Hnd Hlt]. rewrite delete_one_run.
  destruct (Py.remove c (cards st)) as [cs'|] eqn:Hr; simpl.
  - unfold cards_distinct. board_simpl.
    pose proof (remove_Some_perm _ _ _ Hr) as Hp. split.
    + rewrite Hp in Hnd. by apply list.NoDup_cons in Hnd as [_ ?].
    + intros d Hd. apply Hlt. rewrite Hp. by right.
  - by split.
Qed.

Lemma DeleteSelected_keeps_distinct : preserves cards_distinct DeleteSelected.
Proof.
  change DeleteSelected with
    (sel <- gets selected_cards ;; for_ sel delete_one ;; UnselectAll).
  apply preserves_bind; [apply preserves_gets|intros sel].
  apply preserves_bind; [|intros _].
  - apply preserves_for. intros c. apply delete_one_keeps_distinct.
  - apply UnselectAll_keeps_layout, cards_distinct_layout.
Qed.

Lemma NewCard_keeps_distinct subclass pos lbl kwargs :
  preserves cards_distinct (NewCard subclass pos lbl kwargs).
Proof.
  intros st HP. pose proof (NewCard_result subclass pos lbl kwargs st) as Hr.
  destruct (NewCard subclass pos lbl kwargs st) as [new st'|st']; simpl.
  - destruct Hr as (_ & w & -> & _). by apply cards_distinct_new.
  - by subst.
Qed.

Lemma run_keeps_distinct op : preserves cards_distinct (run op).
Proof.
  destruct (keeps_labels op) eqn:Hk.
  - apply run_keeps_layout; [apply cards_distinct_layout| |done].
    intros w st Hst _. by apply cards_distinct_new.
  - destruct op; try discriminate Hk; cbn [run].
    + apply preserves_bind; [apply NewCard_keeps_distinct|intros _].
      apply preserves_ret.
    + apply DeleteSelected_keeps_distinct.
    + apply preserves_bind; [|intros _; apply DeleteSelected_keeps_distinct].
      apply SelectCard_keeps_layout, cards_distinct_layout.
Qed.

Lemma head_filter_sequential {A} (f : A -> Z) (l : list A) :
  forall off i c k,
    (forall (j : nat) d, l !! j = Some d -> f d = off + Z.of_nat j) ->
    l !! i = Some c -> k = off + Z.of_nat i ->
    list.head (filter (fun d => f d = k) l) = Some c.
Proof.
  induction l as [|a l IH]; intros off i c k Hl Hi ->; [done|].
  destruct i as [|i]; simpl in Hi.
  - injection Hi as ->. rewrite filter_cons_True; [done|].
    apply (Hl 0%nat). done.
  - rewrite filter_cons_False.
    + apply (IH (off + 1) i); [|done|lia].
      intros j d Hj. rewrite (Hl (S j) d Hj). lia.
    + rewrite (Hl 0%nat a eq_refl). lia.
Qed.

Lemma NoDup_map_sequential {A} (f : A -> Z) (l : list A) :
  forall off,
    (forall (j : nat) d, l !! j = Some d -> f d = off + Z.of_nat j) ->
    NoDup (map f l).
Proof.
  induction l as [|a l IH]; intros off Hl; simpl; [apply base.NoDup_nil_2|].
  apply list.NoDup_cons. split.
  - intros (d & Hd & Heq)%elem_of_map_inv.
    apply list_elem_of_lookup_1 in Hd as [j Hj].
    rewrite (Hl 0%nat a eq_refl), (Hl (S j) d Hj) in Heq. lia.
  - apply (IH (off + 1)). intros j d Hj. rewrite (Hl (S j) d Hj). lia.
Qed.
End Invariants.

(** X11: Whatever is done to the board (cards created with any label,
    selected, copied, moved, arranged, dragged, deleted, whether the
    method returns or raises), the board never lists a card twice and
    lists only cards that were constructed. *)
Theorem board_never_lists_a_card_twice `{Board.CardDefaults}
  (ops : list Board.Op) (st : Board.Board) :
  BoardSpec.cards_distinct st ->
  BoardSpec.cards_distinct (Board.exec_all ops st).
Proof.
  revert st. induction ops as [|op ops IH]; intros st Hst; [done|].
  apply IH. by apply run_keeps_distinct.
Qed.

Lemma board_never_lists_a_card_twice_witness :
  BoardSpec.cards_distinct Board.init
  /\ BoardSpec.cards_distinct
       (@Board.exec_all Board.sample_defaults
          [Board.DoPlaceNewCard "Content" Wx.DefaultPosition false;
           Board.DoCopySelected; Board.DoNewCard "Header" (5, 5) 0 ∅;
           Board.DoSelectCard 0%nat true; Board.DoDeleteSelected]
          Board.init).
Proof.
  assert (Hi : BoardSpec.cards_distinct Board.init).
  { split; [apply base.NoDup_nil_2|]. by intros c ?%elem_of_nil. }
  split; [exact Hi|].
  apply (@board_never_lists_a_card_twice Board.sample_defaults), Hi.
Defined.

(** X12: As long as no card is deleted and no card is created with a
    label of the caller's choice, the card at position [i] of the board
    carries the label [i]: the labels are pairwise distinct, and
    [GetCard i] returns the card at position [i]. *)
Theorem labels_follow_positions `{Board.CardDefaults}
  (ops : list Board.Op) (st : Board.Board) :
  BoardSpec.labels_sequential st ->
  forallb BoardSpec.keeps_labels ops = true ->
  let st' := Board.exec_all ops st in
  BoardSpec.labels_sequential st'
  /\ Board.labels_distinct st'
  /\ forall (i : nat) c, Board.cards st' !! i = Some c ->
       Board.GetCard (Z.of_nat i) st' = Board.Return (Some c) st'.
Proof.
  intros Hst Hops.
  assert (Hseq : BoardSpec.labels_sequential (Board.exec_all ops st)).
  { revert st Hst Hops. induction ops as [|op ops IH]; intros st Hst Hops;
      [done|].
    simpl in Hops. apply andb_prop in Hops as [Hop Hops].
    apply IH; [|done].
    apply (run_keeps_layout _ labels_sequential_layout
             labels_sequential_new op Hop st Hst). }
  intros st'. subst st'. split; [done|].
  destruct Hseq as [_ Hl]. split.
  - apply (NoDup_map_sequential _ _ 0). intros j d Hj.
    rewrite (Hl j d Hj). lia.
  - intros i c Hi. unfold Board.GetCard, Board.gets. f_equal.
    apply (head_filter_sequential _ _ 0 i); [|done|lia].
    intros j d Hj. rewrite (Hl j d Hj). lia.
Qed.

Lemma labels_follow_positions_witness :
  BoardSpec.labels_sequential Board.init
  /\ exists st',
       st' = @Board.exec_all Board.sample_defaults
               [Board.DoPlaceNewCard "Content" Wx.DefaultPosition false;
                Board.DoPlaceNewCard "Header" Wx.DefaultPosition true;
                Board.DoSelectCard 0%nat false; Board.DoCopySelected]
               Board.init
       /\ Board.GetCard 2 st' = Board.Return (Some 2%nat) st'.
Proof.
  assert (Hi : BoardSpec.labels_sequential Board.init).
  { split; [split; [apply base.NoDup_nil_2|by intros c ?%elem_of_nil]|].
    intros i c Hic. destruct i; discriminate Hic. }
  split; [exact Hi|]. eexists. split; [reflexivity|].
  destruct (@labels_follow_positions Board.sample_defaults
              [Board.DoPlaceNewCard "Content" Wx.DefaultPosition false;
               Board.DoPlaceNewCard "Header" Wx.DefaultPosition true;
               Board.DoSelectCard 0%nat false; Board.DoCopySelected]
              Board.init Hi) as (_ & _ & Hget); [vm_compute; reflexivity|].
  apply (Hget 2%nat). vm_compute. reflexivity.
Defined.

Section LabelReuse.
Import Board BoardSpec.
Context `{CardDefaults}.

Lemma OnCardDelete_run st card :
  NoDup (cards st) -> card ∈ cards st ->
  exists st',
    OnCardDelete card st = Return tt st'
    /\ cards st' = filter (fun c => c <> card) (cards st)
    /\ next_ref st' = next_ref st
    /\ forall c, c <> card -> heap st' c = heap st c.
Proof.
  intros Hnd Hin. unfold OnCardDelete, bind.
  rewrite SelectCard_new_run, DeleteSelected_unfold. unfold bind.
  board_simpl. cbn [for_]. unfold bind. rewrite delete_one_run. board_simpl.
  rewrite (remove_NoDup_filter _ _ Hnd Hin). cbn [ret].
  rewrite UnselectAll_run. eexists. split; [reflexivity|]. board_simpl.
  repeat split. intros c Hc. by rewrite fn_lookup_insert_ne.
Qed.

Lemma length_filter_ne (c : ref) (l : list ref) :
  NoDup l -> c ∈ l -> S (length (filter (fun d => d <> c) l)) = length l.
Proof.
  intros Hnd Hin.
  pose proof (remove_Some_perm _ _ _ (remove_NoDup_filter c l Hnd Hin)) as Hp.
  by rewrite Hp at 2.
Qed.
End LabelReuse.

(** X13: once a card other than the last has been deleted, the labels
    repeat.  On a board whose cards carry their positions as labels, the
    delete event of any card but the last, followed by [NewCard] with the
    default label, gives the new card the label of the board's last
    card: two cards of the board then carry the same label. *)
Theorem label_reused_after_delete `{Board.CardDefaults}
  (st : Board.Board) (card last : Board.ref) (subclass : string)
  (pos : Wx.Point) :
  BoardSpec.labels_sequential st ->
  card ∈ Board.cards st ->
  list.last (Board.cards st) = Some last ->
  card <> last ->
  subclass ∈ ["Content"; "Header"; "Image"] ->
  exists new st',
    Board.bind (Board.OnCardDelete card)
      (fun _ => Board.NewCard subclass pos (-1) ∅) st = Board.Return new st'
    /\ new ∈ Board.cards st' /\ last ∈ Board.cards st' /\ new <> last
    /\ Board.label (Board.heap st' new) = Board.label (Board.heap st' last)
    /\ ~ Board.labels_distinct st'.
Proof.
  intros [[Hnd Hlt] Hl] Hin Hlast Hne Hsub.
  destruct (OnCardDelete_run st card Hnd Hin) as (st1 & Hrun & Hc & Hn & Hh).
  unfold Board.bind. rewrite Hrun, NewCard_plain.
  destruct (default_card_is_Some subclass Hsub) as [[b sz] ->].
  rewrite decide_True by done.
  assert (Hlast_in : last ∈ Board.cards st).
  { rewrite last_lookup in Hlast. by apply list_elem_of_lookup_2 in Hlast. }
  assert (Hlast1 : last ∈ Board.cards st1).
  { rewrite Hc. apply list_elem_of_filter. split; [congruence|done]. }
  assert (Hnew : Board.next_ref st1 <> last).
  { rewrite Hn. apply Hlt in Hlast_in. lia. }
  assert (Hlab : Board.label
                   (Board.heap
                      (Board.with_new_card
                         (Board.mkCardW (Z.of_nat (length (Board.cards st1)))
                            (Board.rect_at pos sz) b true) st1)
                      (Board.next_ref st1))
                 = Board.label
                     (Board.heap
                        (Board.with_new_card
                           (Board.mkCardW (Z.of_nat (length (Board.cards st1)))
                              (Board.rect_at pos sz) b true) st1) last)).
  { board_simpl. rewrite fn_lookup_insert, fn_lookup_insert_ne by done.
    rewrite Hh by congruence. rewrite last_lookup in Hlast.
    rewrite (Hl _ _ Hlast). simpl. f_equal.
    pose proof (length_filter_ne card _ Hnd Hin) as Hlen.
    rewrite <- Hc in Hlen. lia. }
  eexists _, _. split; [reflexivity|].
  split; [board_simpl; apply elem_of_app; right; left|].
  split; [board_simpl; apply elem_of_app; by left|].
  split; [done|]. split; [exact Hlab|].
  unfold Board.labels_distinct.
  remember (Board.with_new_card
              (Board.mkCardW (Z.of_nat (length (Board.cards st1)))
                 (Board.rect_at pos sz) b true) st1) as st' eqn:Est'.
  assert (Hcs : Board.cards st' = Board.cards st1 ++ [Board.next_ref st1])
    by (by subst st').
  rewrite Hcs, map_app. intros (_ & Hdis & _)%list.NoDup_app.
  apply (Hdis (Board.label (Board.heap st' last))).
  - by apply (elem_of_map (fun c => Board.label (Board.heap st' c))).
  - rewrite <- Hlab. left.
Qed.

Lemma three_cards_sequential : BoardSpec.labels_sequential Board.three_cards.
Proof.
  split; [split|].
  - apply NoDup_by_decision. vm_compute. reflexivity.
  - intros c Hc. vm_compute in Hc.
    repeat (apply elem_of_cons in Hc as [->|Hc]; [vm_compute; lia|]).
    by apply elem_of_nil in Hc.
  - intros i c Hic.
    destruct i as [|[|[|i]]]; vm_compute in Hic; try discriminate Hic;
      injection Hic as <-; vm_compute; reflexivity.
Qed.

Lemma label_reused_after_delete_witness :
  exists new st',
    Board.bind (Board.OnCardDelete 0%nat)
      (fun _ => @Board.NewCard Board.sample_defaults "Content" (7, 7) (-1) ∅)
      Board.three_cards = Board.Return new st'
    /\ Board.label (Board.heap st' new) = Board.label (Board.heap st' 2%nat)
    /\ ~ Board.labels_distinct st'.
Proof.
  destruct (@label_reused_after_delete Board.sample_defaults
              Board.three_cards 0%nat 2%nat "Content" (7, 7))
    as (new & st' & Hrun & _ & _ & _ & Hlab & Hrep).
  - exact three_cards_sequential.
  - vm_compute. left.
  - vm_compute. reflexivity.
  - lia.
  - left.
  - exists new, st'. split; [exact Hrun|]. split; [exact Hlab|exact Hrep].
Defined.

(** ** Placing a card at a given position, and when placing fails *)

Section PlaceAt.
Import Board.
Context `{CardDefaults}.

Lemma default_card_None subclass :
  subclass ∉ ["Content"; "Header"; "Image"] -> default_card subclass = None.
Proof.
  intros Hs. unfold default_card.
  repeat (case_decide; [subst; exfalso; apply Hs;
                        repeat (first [left|right])|]).
  done.
Qed.

(** Where [PlaceNewCard] gets as far as [NewCard], it calls it at some
    position without having changed the board, at [pos] itself when one
    is given. *)
Lemma PlaceNewCard_reduces subclass pos below st :
  (pos = Wx.DefaultPosition -> cards st <> [] -> focus st <> FocusNothing) ->
  exists p,
    PlaceNewCard subclass pos below st
    = (new <- NewCard subclass p (-1) ∅ ;; UnselectAll ;; SetFocus new) st
    /\ (pos <> Wx.DefaultPosition -> p = pos).
Proof.
  intros Hfocus. unfold PlaceNewCard.
  destruct (decide (pos = Wx.DefaultPosition)) as [Hp|Hp]; [|by exists pos].
  rewrite bind_assoc.
  unfold bind at 1. unfold GetCards at 1, gets at 1.
  rewrite bind_assoc.
  destruct (cards st) as [|c0 cs] eqn:Ecards.
  - rewrite decide_True by (simpl; lia).
    unfold bind at 1, ret at 1. by eexists.
  - rewrite decide_False by (simpl; lia).
    destruct (GetFocusedCard_run st) as [o Ho]; [by apply Hfocus|].
    rewrite bind_assoc. unfold bind at 1. rewrite Ho.
    destruct o as [fc|].
    + rewrite bind_assoc. unfold bind at 1. rewrite Ho.
      rewrite bind_assoc. unfold bind at 1, lift at 1, ret at 1.
      rewrite bind_assoc. unfold bind at 1, GetRect at 1, gets at 1.
      destruct below; unfold bind at 1, ret at 1; by eexists.
    + rewrite bind_assoc. unfold bind at 1, gets at 1.
      set (rects := map (fun c => rect (heap st c)) (c0 :: cs)).
      destruct (min_is_Some (map Wx.top rects)) as [t Ht]; [done|].
      destruct (max_is_Some (map Wx.right rects)) as [r Hr]; [done|].
      rewrite bind_assoc. unfold bind at 1. rewrite Ht.
      unfold lift at 1, ret at 1.
      rewrite bind_assoc. unfold bind at 1. rewrite Hr.
      unfold lift at 1, ret at 1.
      unfold bind at 1, ret at 1. by eexists.
Qed.

Lemma PlaceNewCard_no_focus subclass below st :
  cards st <> [] -> focus st = FocusNothing ->
  PlaceNewCard subclass Wx.DefaultPosition below st = Raise st.
Proof.
  intros Hcs Hf. unfold PlaceNewCard. rewrite decide_True by done.
  rewrite bind_assoc.
  unfold bind at 1. unfold GetCards at 1, gets at 1.
  rewrite bind_assoc.
  destruct (cards st) as [|c0 cs] eqn:Ecards; [done|].
  rewrite decide_False by (simpl; lia).
  rewrite bind_assoc. unfold bind at 1.
  unfold GetFocusedCard, bind, gets. by rewrite Hf.
Qed.
End PlaceAt.

(** C4: [PlaceNewCard] called without a position (the toolkit's default
    position) for one of the three card classes.  On a board with no
    cards the new card goes to (CARD_PADDING, CARD_PADDING).  On a board
    with cards: when the focus is on a card, or on a window inside one,
    the card goes to that card's right edge plus CARD_PADDING at its
    top, or with [below] to its left at its bottom edge plus
    CARD_PADDING; when the focus is on a window outside every card, it
    goes to the greatest right edge of all cards plus CARD_PADDING, at
    the least top of all cards.  When no window has the focus at all,
    there is no such fallback: [GetFocusedCard] fails on [None], and
    [PlaceNewCard] raises, leaving the board as it was; so it does on
    the board of three cards below. *)
Theorem PlaceNewCard_default_position `{Board.CardDefaults}
  (st : Board.Board) (subclass : string) (below : bool) :
  subclass ∈ ["Content"; "Header"; "Image"] ->
  let places pos :=
    exists st',
      Board.PlaceNewCard subclass Wx.DefaultPosition below st
      = Board.Return tt st'
      /\ Board.cards st' = Board.cards st ++ [Board.next_ref st]
      /\ Wx.GetPosition (Board.rect (Board.heap st' (Board.next_ref st)))
         = pos in
  let rect_of c := Board.rect (Board.heap st c) in
  (Board.cards st = [] -> places (Board.CARD_PADDING, Board.CARD_PADDING))
  /\ (forall fc, Board.cards st <> [] ->
        Board.focus st = Board.FocusCard fc
        \/ Board.focus st = Board.FocusInEditText fc
        \/ Board.focus st = Board.FocusCardChild fc ->
        places (if below
                then (Wx.left (rect_of fc),
                      Wx.bottom (rect_of fc) + Board.CARD_PADDING)
                else (Wx.right (rect_of fc) + Board.CARD_PADDING,
                      Wx.top (rect_of fc))))
  /\ (Board.cards st <> [] -> Board.focus st = Board.FocusElsewhere ->
      exists pos,
        places pos
        /\ (exists c, c ∈ Board.cards st
                      /\ pos.1 = Wx.right (rect_of c) + Board.CARD_PADDING)
        /\ (forall c, c ∈ Board.cards st ->
              Wx.right (rect_of c) + Board.CARD_PADDING <= pos.1)
        /\ (exists c, c ∈ Board.cards st /\ pos.2 = Wx.top (rect_of c))
        /\ (forall c, c ∈ Board.cards st -> pos.2 <= Wx.top (rect_of c)))
  /\ (Board.cards st <> [] -> Board.focus st = Board.FocusNothing ->
      Board.PlaceNewCard subclass Wx.DefaultPosition below st
      = Board.Raise st)
  /\ (let st0 := Board.set_focus Board.FocusNothing Board.three_cards in
      Board.cards st0 = [0; 1; 2]%nat
      /\ @Board.PlaceNewCard Board.sample_defaults "Content"
           Wx.DefaultPosition false st0 = Board.Raise st0).
Proof.
  intros Hsub places rect_of.
  split; [|split; [|split; [|split]]].
  - intros Hnil.
    destruct (PlaceNewCard_by_focused_card st subclass below Hsub)
      as (st' & Hrun & Hcs & Hempty & _); [done|].
    exists st'. split; [done|]. split; [done|]. by apply Hempty.
  - intros fc Hne Hfocus.
    destruct (PlaceNewCard_by_focused_card st subclass below Hsub)
      as (st' & Hrun & Hcs & _ & Hfoc & _).
    { intros _. destruct Hfocus as [->|[->| ->]]; discriminate. }
    exists st'. split; [done|]. split; [done|]. apply Hfoc; [done|].
    unfold Board.GetFocusedCard, Board.bind, Board.gets.
    by destruct Hfocus as [->|[->| ->]].
  - intros Hne Hfocus.
    destruct (PlaceNewCard_by_focused_card st subclass below Hsub)
      as (st' & Hrun & Hcs & _ & _ & Hfar).
    { intros _. rewrite Hfocus. discriminate. }
    eexists. split; [by exists st'|]. apply Hfar; [done|].
    unfold Board.GetFocusedCard, Board.bind, Board.gets. by rewrite Hfocus.
  - intros Hne Hfocus. by apply PlaceNewCard_no_focus.
  - intros st0. split; [vm_compute; reflexivity|].
    apply (@PlaceNewCard_no_focus Board.sample_defaults);
      [vm_compute; discriminate|reflexivity].
Qed.

Lemma PlaceNewCard_default_position_witness :
  "Content" ∈ ["Content"; "Header"; "Image"]
  /\ Board.focus Board.three_cards = Board.FocusCard 2%nat
  /\ exists st',
       @Board.PlaceNewCard Board.sample_defaults "Content" Wx.DefaultPosition
         false Board.three_cards = Board.Return tt st'
       /\ Board.cards st' = [0; 1; 2; 3]%nat
       /\ Wx.GetPosition (Board.rect (Board.heap st' 3%nat)) = (354, 200).
Proof.
  assert (Hsub : "Content" ∈ ["Content"; "Header"; "Image"]) by left.
  assert (Hfocus : Board.focus Board.three_cards = Board.FocusCard 2%nat)
    by (vm_compute; reflexivity).
  split; [exact Hsub|]. split; [exact Hfocus|].
  destruct (@PlaceNewCard_default_position Board.sample_defaults
              Board.three_cards "Content" false Hsub)
    as (_ & Hfocused & _).
  destruct (Hfocused 2%nat) as (st' & Hrun & Hcards & Hpos).
  - vm_compute. discriminate.
  - left. exact Hfocus.
  - exists st'. split; [exact Hrun|]. split; [exact Hcards|]. exact Hpos.
Defined.

(** X14: [PlaceNewCard] with a position of the caller's (as the board's
    context menu calls it) returns for each of the three card classes,
    whatever has the focus: the new card is appended with the next label
    at exactly that position, nothing is selected any more, the new card
    has the focus, and no other widget has changed. *)
Theorem PlaceNewCard_at_given_position `{Board.CardDefaults}
  (st : Board.Board) (subclass : string) (pos : Wx.Point) (below : bool) :
  subclass ∈ ["Content"; "Header"; "Image"] ->
  pos <> Wx.DefaultPosition ->
  exists st',
    Board.PlaceNewCard subclass pos below st = Board.Return tt st'
    /\ Board.cards st' = Board.cards st ++ [Board.next_ref st]
    /\ Wx.GetPosition (Board.rect (Board.heap st' (Board.next_ref st))) = pos
    /\ Board.label (Board.heap st' (Board.next_ref st))
       = Z.of_nat (length (Board.cards st))
    /\ Board.selected_cards st' = []
    /\ Board.focus st' = Board.FocusCard (Board.next_ref st)
    /\ forall c, c <> Board.next_ref st -> Board.heap st' c = Board.heap st c.
Proof.
  intros Hsub Hpos.
  destruct (default_card_is_Some subclass Hsub) as [[b sz] Hd].
  destruct (PlaceNewCard_reduces subclass pos below st) as (p & -> & Hp);
    [done|].
  rewrite (Hp Hpos), (place_at_run subclass b sz) by done.
  eexists. split; [reflexivity|]. board_simpl.
  rewrite fn_lookup_insert. simpl.
  repeat split; try done.
  - by destruct pos, sz.
  - intros c Hc. by rewrite fn_lookup_insert_ne.
Qed.

Lemma PlaceNewCard_at_given_position_witness :
  exists st',
    @Board.PlaceNewCard Board.sample_defaults "Image" (120, 45) true
      Board.three_cards = Board.Return tt st'
    /\ Wx.GetPosition (Board.rect (Board.heap st' 3%nat)) = (120, 45).
Proof.
  destruct (@PlaceNewCard_at_given_position Board.sample_defaults
              Board.three_cards "Image" (120, 45) true)
    as (st' & Hrun & _ & Hpos & _).
  - right. right. left.
  - vm_compute. discriminate.
  - exists st'. split; [exact Hrun|]. exact Hpos.
Defined.

(** X15: [PlaceNewCard] raises, and then leaves the board exactly as it
    was, in two cases: for a class name other than the three it knows,
    and when it is called without a position on a board that has cards
    while no window has the focus. *)
Theorem PlaceNewCard_raises_unchanged `{Board.CardDefaults}
  (st : Board.Board) (subclass : string) (pos : Wx.Point) (below : bool) :
  subclass ∉ ["Content"; "Header"; "Image"]
  \/ (pos = Wx.DefaultPosition /\ Board.cards st <> []
      /\ Board.focus st = Board.FocusNothing) ->
  Board.PlaceNewCard subclass pos below st = Board.Raise st.
Proof.
  intros [Hsub|(-> & Hcs & Hf)]; [|by apply PlaceNewCard_no_focus].
  assert (Hdec : (pos = Wx.DefaultPosition -> Board.cards st <> [] ->
                  Board.focus st <> Board.FocusNothing)
                 \/ (pos = Wx.DefaultPosition /\ Board.cards st <> []
                     /\ Board.focus st = Board.FocusNothing)).
  { destruct (decide (pos = Wx.DefaultPosition)) as [Hp|Hp]; [|by left].
    destruct (Board.cards st) as [|c0 cs]; [by left|].
    destruct (Board.focus st); first [by right|left; intros; discriminate]. }
  destruct Hdec as [Hok|(-> & Hcs & Hf)]; [|by apply PlaceNewCard_no_focus].
  destruct (PlaceNewCard_reduces subclass pos below st Hok) as (p & -> & _).
  unfold Board.bind. by rewrite NewCard_plain, default_card_None.
Qed.

Lemma PlaceNewCard_raises_unchanged_witness :
  let st := Board.set_focus Board.FocusNothing Board.three_cards in
  @Board.PlaceNewCard Board.sample_defaults "Content" Wx.DefaultPosition false st
  = Board.Raise st
  /\ @Board.PlaceNewCard Board.sample_defaults "Note" (5, 5) false
       Board.three_cards = Board.Raise Board.three_cards.
Proof.
  split.
  - apply (@PlaceNewCard_raises_unchanged Board.sample_defaults).
    right. split; [reflexivity|]. split; [vm_compute; discriminate|].
    reflexivity.
  - apply (@PlaceNewCard_raises_unchanged Board.sample_defaults).
    left. intros Hin.
    repeat (apply elem_of_cons in Hin as [Hin|Hin]; [discriminate Hin|]).
    by apply elem_of_nil in Hin.
Defined.

(** ** Scrolling a point into view *)

(** X16: [ScrollToPoint] calls [Scroll] exactly when the point is not in
    the rectangle in view.  In each direction in which the point lies
    strictly between the edges of the view it passes [wx.DefaultCoord];
    in the other direction(s) it passes the scroll position that starts
    the view at most one scroll step before the pixel [CARD_PADDING]
    short of the point. *)
Theorem ScrollToPoint_scrolls_when_out_of_view
  (view_start client : Z * Z) (pt : Wx.Point) :
  let rect := Scrolling.view_rect view_start client in
  match Scrolling.ScrollToPoint view_start client pt with
  | None => Wx.Contains rect pt = true
  | Some (xsc, ysc) =>
    Wx.Contains rect pt = false
    /\ (if decide (Wx.left rect < pt.1 < Wx.right rect)
        then xsc = WxRect.DefaultCoord
        else Scrolling.brings_into_view pt.1 xsc)
    /\ (if decide (Wx.top rect < pt.2 < Wx.bottom rect)
        then ysc = WxRect.DefaultCoord
        else Scrolling.brings_into_view pt.2 ysc)
  end.
Proof.
  destruct view_start as [vx vy], client as [cw ch], pt as [px py].
  unfold Scrolling.ScrollToPoint, Scrolling.view_rect,
    Scrolling.brings_into_view, AutoSize.SCROLL_STEP, Board.CARD_PADDING,
    Wx.left, Wx.right, Wx.top, Wx.bottom. cbn [fst snd Wx.rx Wx.ry Wx.width Wx.height].
  destruct (Wx.Contains _ _) eqn:Hc; [done|].
  unfold Wx.Contains in Hc. apply bool_decide_eq_false in Hc.
  cbn [fst snd Wx.rx Wx.ry Wx.width Wx.height] in Hc.
  pose proof (Z.mul_div_le (px - 15) 10 ltac:(lia)).
  pose proof (Z.mul_succ_div_gt (px - 15) 10 ltac:(lia)).
  pose proof (Z.mul_div_le (py - 15) 10 ltac:(lia)).
  pose proof (Z.mul_succ_div_gt (py - 15) 10 ltac:(lia)).
  repeat case_decide; cbn [fst snd]; repeat split; try done; try lia.
Qed.

(** X17: a point that lies to the left of the view with an x coordinate
    from 5 to 14 is not scrolled to horizontally: the scroll position
    computed for it is -1, which is [wx.DefaultCoord], the value that
    tells [Scroll] to leave that direction alone.  The same holds
    vertically for a point above the view. *)
Theorem ScrollToPoint_skips_points_near_the_origin
  (view_start client : Z * Z) (pt : Wx.Point) :
  (pt.1 < Wx.left (Scrolling.view_rect view_start client) ->
   5 <= pt.1 <= 14 ->
   exists ysc, Scrolling.ScrollToPoint view_start client pt
               = Some (WxRect.DefaultCoord, ysc))
  /\ (pt.2 < Wx.top (Scrolling.view_rect view_start client) ->
      5 <= pt.2 <= 14 ->
      exists xsc, Scrolling.ScrollToPoint view_start client pt
                  = Some (xsc, WxRect.DefaultCoord)).
Proof.
  destruct view_start as [vx vy], client as [cw ch], pt as [px py].
  unfold Scrolling.ScrollToPoint, Scrolling.view_rect,
    AutoSize.SCROLL_STEP, Board.CARD_PADDING, WxRect.DefaultCoord,
    Wx.left, Wx.right, Wx.top, Wx.bottom, Wx.Contains.
  cbn [fst snd Wx.rx Wx.ry Wx.width Wx.height].
  split; intros Hout Hnear.
  - rewrite bool_decide_eq_false_2 by lia.
    rewrite (decide_True (P := px >= _ \/ px <= _)) by lia.
    assert ((px - 15) / 10 = -1) as ->
      by (symmetry; apply (Z.div_unique_pos _ _ _ (px - 5)); lia).
    case_decide; by eexists.
  - rewrite bool_decide_eq_false_2 by lia.
    assert ((py - 15) / 10 = -1) as ->
      by (symmetry; apply (Z.div_unique_pos _ _ _ (py - 5)); lia).
    repeat case_decide; try lia; by eexists.
Qed.

Lemma ScrollToPoint_skips_points_near_the_origin_witness :
  (10 : Z) < Wx.left (Scrolling.view_rect (30, 0) (400, 300))
  /\ Scrolling.ScrollToPoint (30, 0) (400, 300) (10, 20)
     = Some (WxRect.DefaultCoord, WxRect.DefaultCoord).
Proof.
  assert (Hl : (10 : Z) < Wx.left (Scrolling.view_rect (30, 0) (400, 300)))
    by (vm_compute; reflexivity).
  split; [exact Hl|].
  destruct (ScrollToPoint_skips_points_near_the_origin
              (30, 0) (400, 300) (10, 20)) as [Hx _].
  destruct (Hx Hl ltac:(simpl; lia)) as [ysc Hrun].
  rewrite Hrun. f_equal. f_equal.
  revert Hrun. vm_compute. by intros [= <-].
Defined.

(** ** The virtual size of a scrolled window *)

Section VirtualSize.
Import AutoSize.

Lemma covers_trans a b c :
  WxRect.covers a b -> WxRect.covers b c -> WxRect.covers a c.
Proof. unfold WxRect.covers. lia. Qed.

Lemma Union_covers a b :
  WxRect.nonneg a -> WxRect.nonneg b ->
  WxRect.nonneg (WxRect.Union a b)
  /\ (WxRect.nonempty a -> WxRect.covers (WxRect.Union a b) a)
  /\ (WxRect.nonempty b -> WxRect.covers (WxRect.Union a b) b).
Proof.
  unfold WxRect.nonneg, WxRect.nonempty, WxRect.covers, WxRect.Union.
  destruct a as [ax ay aw ah], b as [bx b_y bw bh].
  cbn [Wx.rx Wx.ry Wx.width Wx.height].
  intros Ha Hb. repeat case_decide; cbn [Wx.rx Wx.ry Wx.width Wx.height]; lia.
Qed.

Lemma foldl_Union_covers l :
  forall acc,
    WxRect.nonneg acc -> (forall c, c ∈ l -> WxRect.nonneg c) ->
    WxRect.nonneg (foldl WxRect.Union acc l)
    /\ (WxRect.nonempty acc -> WxRect.covers (foldl WxRect.Union acc l) acc)
    /\ (forall c, c ∈ l -> WxRect.nonempty c ->
          WxRect.covers (foldl WxRect.Union acc l) c).
Proof.
  induction l as [|b l IH]; intros acc Hacc Hl; simpl.
  - split; [done|]. split; [unfold WxRect.covers; lia|].
    by intros c ?%elem_of_nil.
  - destruct (Union_covers acc b Hacc) as (Hu & Hua & Hub);
      [apply Hl; left|].
    destruct (IH (WxRect.Union acc b) Hu) as (Hn & Hcu & Hcl).
    { intros c Hc. apply Hl. by right. }
    split; [done|]. split.
    + intros Hne. eapply covers_trans; [|by apply Hua].
      apply Hcu. destruct (Hua Hne) as (? & ? & ? & ?).
      unfold WxRect.nonempty in *. lia.
    + intros c [->|Hc]%elem_of_cons Hne; [|by apply Hcl].
      eapply covers_trans; [|by apply Hub].
      apply Hcu. destruct (Hub Hne) as (? & ? & ? & ?).
      unfold WxRect.nonempty in *. lia.
Qed.
End VirtualSize.

Lemma UpdateVirtualSize_step (sz : Z * Z) (self : AutoSize.AutoSize) :
  let self' := AutoSize.UpdateVirtualSize sz self in
  let old := AutoSize._virtual_sz self in
  AutoSize._virtual_sz self' = (Z.max sz.1 old.1, Z.max sz.2 old.2)
  /\ (AutoSize.VirtualSize self = old ->
      AutoSize.VirtualSize self' = AutoSize._virtual_sz self').
Proof.
  destruct sz as [sx sy], self as [[vx vy] tk].
  unfold AutoSize.UpdateVirtualSize.
  cbn [AutoSize._virtual_sz AutoSize.VirtualSize fst snd].
  repeat case_decide; cbn [AutoSize._virtual_sz AutoSize.VirtualSize fst snd];
    repeat split; intros; try (f_equal; lia); try lia; try done.
Qed.

(** X18: after any number of calls of [UpdateVirtualSize] on a window
    whose two sizes agree, the two sizes still agree, and each dimension
    is the least value that is no less than the old one and than the
    ones passed: it never shrinks, it covers every size passed, and it
    is the old value or one of those passed.  So the order of the calls
    does not matter. *)
Theorem UpdateVirtualSize_takes_the_largest
  (szs : list (Z * Z)) (self : AutoSize.AutoSize) :
  AutoSize.VirtualSize self = AutoSize._virtual_sz self ->
  let self' :=
    foldl (fun s sz => AutoSize.UpdateVirtualSize sz s) self szs in
  let old := AutoSize._virtual_sz self in
  let new := AutoSize._virtual_sz self' in
  AutoSize.VirtualSize self' = new
  /\ old.1 <= new.1 /\ old.2 <= new.2
  /\ (forall sz, sz ∈ szs -> sz.1 <= new.1 /\ sz.2 <= new.2)
  /\ (new.1 = old.1 \/ exists sz, sz ∈ szs /\ new.1 = sz.1)
  /\ (new.2 = old.2 \/ exists sz, sz ∈ szs /\ new.2 = sz.2).
Proof.
  revert self. induction szs as [|sz szs IH]; intros self Hsync; simpl.
  - split; [done|]. split; [lia|]. split; [lia|].
    split; [by intros sz ?%elem_of_nil|]. split; by left.
  - destruct (UpdateVirtualSize_step sz self) as [Hmax Hkeep].
    specialize (Hkeep Hsync).
    destruct (IH (AutoSize.UpdateVirtualSize sz self) Hkeep)
      as (Hs & Hx & Hy & Hall & Hfx & Hfy).
    rewrite Hmax in Hx, Hy, Hfx, Hfy. simpl in Hx, Hy, Hfx, Hfy.
    split; [done|]. split; [lia|]. split; [lia|]. split; [|split].
    + intros sz' [->|Hin]%elem_of_cons; [lia|]. by apply Hall.
    + destruct Hfx as [Hfx|(sz' & Hin & Hfx)].
      * destruct (Z.max_spec sz.1 (AutoSize._virtual_sz self).1)
          as [[_ Hm]|[_ Hm]]; rewrite Hm in Hfx.
        -- by left.
        -- right. exists sz. split; [left|done].
      * right. exists sz'. split; [by right|done].
    + destruct Hfy as [Hfy|(sz' & Hin & Hfy)].
      * destruct (Z.max_spec sz.2 (AutoSize._virtual_sz self).2)
          as [[_ Hm]|[_ Hm]]; rewrite Hm in Hfy.
        -- by left.
        -- right. exists sz. split; [left|done].
      * right. exists sz'. split; [by right|done].
Qed.

Lemma UpdateVirtualSize_takes_the_largest_witness :
  let self' :=
    foldl (fun s sz => AutoSize.UpdateVirtualSize sz s)
      (AutoSize.mkAutoSize (300, 200) (300, 200)) [(250, 400); (350, 100)] in
  AutoSize.VirtualSize self' = AutoSize._virtual_sz self'
  /\ 350 <= (AutoSize._virtual_sz self').1.
Proof.
  destruct (UpdateVirtualSize_takes_the_largest [(250, 400); (350, 100)]
              (AutoSize.mkAutoSize (300, 200) (300, 200)))
    as (Hsync & _ & _ & Hall & _).
  - reflexivity.
  - intros self'. split; [exact Hsync|].
    apply (Hall (350, 100)). right. left.
Defined.

(** X19: [FitToChildren] with a padding that is not negative never
    shrinks the virtual size, and leaves it large enough for every child
    window that has a width and a height: the child's right and bottom
    edges lie within it.  Both sizes of the window are written, unless
    the window has no children, and then nothing changes. *)
Theorem FitToChildren_fits_every_child
  (children : list Wx.Rect) (pad : Z) (self : AutoSize.AutoSize) :
  0 <= pad ->
  (forall c, c ∈ children -> 0 <= Wx.width c /\ 0 <= Wx.height c) ->
  let self' := AutoSize.FitToChildren children pad self in
  let old := AutoSize._virtual_sz self in
  let new := AutoSize._virtual_sz self' in
  old.1 <= new.1 /\ old.2 <= new.2
  /\ (forall c, c ∈ children -> 0 < Wx.width c -> 0 < Wx.height c ->
        Wx.right c < new.1 /\ Wx.bottom c < new.2)
  /\ (children <> [] -> AutoSize.VirtualSize self' = new)
  /\ (children = [] -> self' = self).
Proof.
  intros Hpad Hch. unfold AutoSize.FitToChildren.
  destruct children as [|c0 cs].
  - simpl. split; [lia|]. split; [lia|].
    split; [by intros d ?%elem_of_nil|]. done.
  - rewrite decide_False by (simpl; lia).
    destruct (foldl_Union_covers (c0 :: cs) (Wx.mkRect 0 0 0 0))
      as (_ & _ & Hcov); [by split|exact Hch|].
    set (rect := foldl WxRect.Union (Wx.mkRect 0 0 0 0) (c0 :: cs)) in *.
    destruct self as [[vx vy] tk].
    cbn [AutoSize._virtual_sz AutoSize.VirtualSize fst snd].
    cbv zeta.
    assert (Hin : forall c, c ∈ c0 :: cs -> 0 < Wx.width c -> 0 < Wx.height c ->
              Wx.right c <= Wx.right rect /\ Wx.bottom c <= Wx.bottom rect).
    { intros c Hc Hw Hh. destruct (Hcov c Hc) as (? & ? & ? & ?); [by split|].
      unfold Wx.right, Wx.bottom. lia. }
    repeat case_decide;
      cbn [AutoSize._virtual_sz AutoSize.VirtualSize fst snd] in *;
      (split; [lia|]); (split; [lia|]);
      (split; [intros d Hd Hw Hh; destruct (Hin d Hd Hw Hh); lia|]);
      split; done.
Qed.

Lemma FitToChildren_fits_every_child_witness :
  let self' :=
    AutoSize.FitToChildren
      [Wx.mkRect 10 10 125 125; Wx.mkRect 400 40 125 125] 15
      (AutoSize.mkAutoSize (300, 200) (300, 200)) in
  Wx.right (Wx.mkRect 400 40 125 125) < (AutoSize._virtual_sz self').1
  /\ 200 <= (AutoSize._virtual_sz self').2.
Proof.
  destruct (FitToChildren_fits_every_child
              [Wx.mkRect 10 10 125 125; Wx.mkRect 400 40 125 125] 15
              (AutoSize.mkAutoSize (300, 200) (300, 200)))
    as (_ & Hy & Hfit & _).
  - lia.
  - intros c Hc.
    repeat (apply elem_of_cons in Hc as [->|Hc]; [simpl; lia|]).
    by apply elem_of_nil in Hc.
  - intros self'. split; [|exact Hy].
    apply (Hfit (Wx.mkRect 400 40 125 125)); [right; left|simpl; lia..].
Defined.

(** ** Moving a card of the data model *)

(** X20: [MoveBy] on a card whose rect is a list with a position puts
    the position at (x + dx, y + dy), whatever numbers these are, and
    changes nothing else of the card: the id, the size and every later
    item of the rect stay, and the rect is still a list.  On a rect
    with fewer than two items, and on a rect that is a tuple, it raises
    and leaves the card as it was. *)
Theorem MoveBy_adds_to_the_position
  (num : Type) (add : num -> num -> num)
  (self : CardGeometry.Card num) (dx dy : num) :
  (forall l x y,
     CardGeometry.rect self = CardGeometry.PyList l ->
     CardGeometry.Position self = Some (x, y) ->
     exists self' l',
       CardGeometry.MoveBy add self dx dy = CardGeometry.Done self'
       /\ CardGeometry.rect self' = CardGeometry.PyList l'
       /\ CardGeometry.Position self' = Some (add x dx, add y dy)
       /\ CardGeometry.Size self' = CardGeometry.Size self
       /\ CardGeometry.id self' = CardGeometry.id self
       /\ length l' = length l
       /\ drop 2 l' = drop 2 l)
  /\ (CardGeometry.Position self = None
      \/ (exists l, CardGeometry.rect self = CardGeometry.PyTuple l) ->
      CardGeometry.MoveBy add self dx dy = CardGeometry.Failed self).
Proof.
  destruct self as [i r]. unfold CardGeometry.Position, CardGeometry.MoveBy.
  cbn [CardGeometry.rect CardGeometry.id]. split.
  - intros l x y -> Hp. cbn [CardGeometry.items] in *.
    destruct l as [|x0 [|y0 l]]; try discriminate Hp.
    injection Hp as <- <-. eexists _, _. split; [reflexivity|].
    cbn. repeat split; done.
  - intros [Hp|[l ->]].
    + destruct r as [[|x0 [|y0 l]]|[|x0 [|y0 l]]]; try discriminate Hp;
        reflexivity.
    + cbn [CardGeometry.items]. by destruct l as [|x0 [|y0 l]].
Qed.

Lemma MoveBy_adds_to_the_position_witness :
  exists self',
    CardGeometry.MoveBy Qplus
      (CardGeometry.mkCard 7 (CardGeometry.PyList [0; 0; -1; -1]%Q))
      (1 # 2)%Q 4%Q
    = CardGeometry.Done self'
    /\ CardGeometry.Position self' = Some (0 + (1 # 2), 0 + 4)%Q.
Proof.
  destruct (MoveBy_adds_to_the_position Q Qplus
              (CardGeometry.mkCard 7 (CardGeometry.PyList [0; 0; -1; -1]%Q))
              (1 # 2)%Q 4%Q) as [Hmove _].
  destruct (Hmove [0; 0; -1; -1]%Q 0%Q 0%Q eq_refl eq_refl)
    as (self' & l' & Hrun & _ & Hpos & _).
  exists self'. split; [exact Hrun|exact Hpos].
Defined.

(** ** The card a control sits in *)

Section Ancestors.
Import WxUtils.

Lemma ancestors_loop_chain w :
  ancestors_loop w = map Some (chain w) ++ [None].
Proof. induction w as [|i c p IH]; simpl; [done|]. by rewrite IH. Qed.

Lemma GetAncestors_chain w :
  GetAncestors (Some w) = Some (map Some (chain w)).
Proof.
  unfold GetAncestors, del_last. rewrite ancestors_loop_chain.
  rewrite removelast_last. by destruct (map Some (chain w)).
Qed.

Lemma chain_lookup w : forall n, chain w !! n = nth_ancestor n w.
Proof.
  induction w as [|i c p IH]; intros n; [by destruct n|].
  destruct n as [|n]; simpl; [done|]. apply IH.
Qed.

Lemma filter_card_chain l :
  filter (fun p => isinstance_CardWin p = true) (map Some l)
  = map Some (filter (fun a => is_card a = true) l).
Proof.
  induction l as [|a l IH]; simpl; [done|].
  rewrite !filter_cons. simpl. rewrite IH. by case_decide.
Qed.

Lemma filter_first {A} (P : A -> Prop) `{!forall x, Decision (P x)}
  (l : list A) :
  match filter P l with
  | [] => forall n a, l !! n = Some a -> ~ P a
  | c :: _ =>
    exists n, l !! n = Some c /\ P c
              /\ forall m b, (m < n)%nat -> l !! m = Some b -> ~ P b
  end.
Proof.
  induction l as [|x l IH]; simpl.
  - intros n a Hn. by destruct n.
  - rewrite filter_cons. case_decide as Hx.
    + exists 0%nat. split; [done|]. split; [done|]. intros m b Hm. lia.
    + destruct (filter P l) as [|c cs].
      * intros [|n] a Hn; simpl in Hn; [by injection Hn as <-|].
        by apply (IH n).
      * destruct IH as (n & Hn & Hc & Hbefore). exists (S n).
        split; [done|]. split; [done|].
        intros [|m] b Hm Hb; simpl in Hb; [by injection Hb as <-|].
        apply (Hbefore m); [lia|done].
Qed.
End Ancestors.

(** X21: for a control, [GetCardAncestor] returns the nearest card
    window among its proper ancestors (never the control itself, even
    when it is a card window), and Python's [None] exactly when no
    ancestor is a card window; it does not raise.  Called with Python's
    [None], as happens when no window has the focus, it raises: the
    list of ancestors is empty and [del ancestors[-1]] fails. *)
Theorem GetCardAncestor_is_the_nearest (w : WxUtils.Window) :
  match WxUtils.GetCardAncestor (Some w) with
  | None => False
  | Some None =>
    forall n a, WxUtils.nth_ancestor n w = Some a -> WxUtils.is_card a = false
  | Some (Some a) =>
    exists n,
      WxUtils.nth_ancestor n w = Some a /\ WxUtils.is_card a = true
      /\ forall m b, (m < n)%nat -> WxUtils.nth_ancestor m w = Some b ->
            WxUtils.is_card b = false
  end
  /\ WxUtils.GetCardAncestor None = None
  /\ WxUtils.GetAncestors None = None.
Proof.
  split; [|done].
  unfold WxUtils.GetCardAncestor. rewrite GetAncestors_chain.
  cbv zeta. rewrite filter_card_chain.
  pose proof (filter_first (fun a => WxUtils.is_card a = true)
                (WxUtils.chain w)) as Hf.
  destruct (filter _ (WxUtils.chain w)) as [|c cs]; simpl.
  - intros n a Hn. rewrite <- chain_lookup in Hn.
    apply Hf in Hn. by destruct (WxUtils.is_card a).
  - destruct Hf as (n & Hn & Hc & Hbefore). exists n.
    rewrite <- chain_lookup. split; [done|]. split; [done|].
    intros m b Hm Hb. rewrite <- chain_lookup in Hb.
    apply (Hbefore m b Hm) in Hb. by destruct (WxUtils.is_card b).
Qed.

(** ** Going to the next card and back *)

(** X22: on a board whose cards carry distinct labels, [GetPrevCard]
    undoes [GetNextCard] and the other way round: when [GetNextCard]
    from a control in card [cur] returns a card, [GetPrevCard] from a
    control in that card, with the same [cycle], returns [cur]; and the
    same with the two exchanged. *)
Theorem next_and_prev_undo_each_other
  (st : Board.Board) (ctrl : Board.Ctrl) (cur r : Board.ref) (cycle : bool) :
  Board.labels_distinct st ->
  Board.card_of ctrl = Some cur ->
  cur ∈ Board.cards st ->
  (Board.GetNextCard ctrl cycle st = Board.Return (Some r) st ->
   Board.GetPrevCard (Board.ChildOf r) cycle st = Board.Return (Some cur) st)
  /\ (Board.GetPrevCard ctrl cycle st = Board.Return (Some r) st ->
      Board.GetNextCard (Board.ChildOf r) cycle st
      = Board.Return (Some cur) st).
Proof.
  intros Hd Hctrl Hcur.
  assert (Hinj : forall x y, x ∈ Board.cards st -> y ∈ Board.cards st ->
            Board.label (Board.heap st x) = Board.label (Board.heap st y) ->
            x = y).
  { intros x y Hx Hy. by apply (NoDup_map_inj _ _ x y Hd). }
  split; intros Hrun.
  - destruct (GetNextCard_run st ctrl cur cycle Hctrl Hcur)
      as [(n & Hn & Hnin & Hnab & Hnle)|[Hnone Hcyc]].
    + rewrite Hrun in Hn. injection Hn as <-.
      destruct (GetPrevCard_run st (Board.ChildOf r) r cycle eq_refl Hnin)
        as [(p & -> & Hpin & Hpbe & Hple)|[Hno _]].
      * do 2 f_equal. apply Hinj; [done..|].
        unfold Board.above, Board.below in *.
        specialize (Hple cur Hcur ltac:(lia)).
        destruct (decide (Board.label (Board.heap st p)
                          = Board.label (Board.heap st cur))) as [|Hne];
          [done|].
        specialize (Hnle p Hpin ltac:(lia)). lia.
      * exfalso. apply (Hno cur Hcur). unfold Board.above, Board.below in *.
        lia.
    + destruct cycle; [|by rewrite Hrun in Hcyc].
      destruct Hcyc as (n & Hn & Hnin & _ & Hnle).
      rewrite Hrun in Hn. injection Hn as <-.
      destruct (GetPrevCard_run st (Board.ChildOf r) r true eq_refl Hnin)
        as [(p & _ & Hpin & Hpbe & _)|[_ (g & -> & Hgin & _ & Hgle)]].
      * specialize (Hnle p Hpin I). unfold Board.below in Hpbe. lia.
      * do 2 f_equal. apply Hinj; [done..|].
        specialize (Hgle cur Hcur I). specialize (Hnone g Hgin).
        unfold Board.above in Hnone. lia.
  - destruct (GetPrevCard_run st ctrl cur cycle Hctrl Hcur)
      as [(n & Hn & Hnin & Hnbe & Hnle)|[Hnone Hcyc]].
    + rewrite Hrun in Hn. injection Hn as <-.
      destruct (GetNextCard_run st (Board.ChildOf r) r cycle eq_refl Hnin)
        as [(p & -> & Hpin & Hpab & Hple)|[Hno _]].
      * do 2 f_equal. apply Hinj; [done..|].
        unfold Board.above, Board.below in *.
        specialize (Hple cur Hcur ltac:(lia)).
        destruct (decide (Board.label (Board.heap st p)
                          = Board.label (Board.heap st cur))) as [|Hne];
          [done|].
        specialize (Hnle p Hpin ltac:(lia)). lia.
      * exfalso. apply (Hno cur Hcur). unfold Board.above, Board.below in *.
        lia.
    + destruct cycle; [|by rewrite Hrun in Hcyc].
      destruct Hcyc as (n & Hn & Hnin & _ & Hnle).
      rewrite Hrun in Hn. injection Hn as <-.
      destruct (GetNextCard_run st (Board.ChildOf r) r true eq_refl Hnin)
        as [(p & _ & Hpin & Hpab & _)|[_ (g & -> & Hgin & _ & Hgle)]].
      * specialize (Hnle p Hpin I). unfold Board.above in Hpab. lia.
      * do 2 f_equal. apply Hinj; [done..|].
        specialize (Hgle cur Hcur I). specialize (Hnone g Hgin).
        unfold Board.below in Hnone. lia.
Qed.

Lemma next_and_prev_undo_each_other_witness :
  Board.GetNextCard (Board.GrandchildOf 2%nat) true Board.three_cards
  = Board.Return (Some 0%nat) Board.three_cards
  /\ Board.GetPrevCard (Board.ChildOf 0%nat) true Board.three_cards
     = Board.Return (Some 2%nat) Board.three_cards.
Proof.
  assert (Hnext : Board.GetNextCard (Board.GrandchildOf 2%nat) true
                    Board.three_cards
                  = Board.Return (Some 0%nat) Board.three_cards)
    by (vm_compute; reflexivity).
  split; [exact Hnext|].
  apply (next_and_prev_undo_each_other Board.three_cards
           (Board.GrandchildOf 2%nat) 2%nat 0%nat true).
  - apply NoDup_by_decision. vm_compute. reflexivity.
  - reflexivity.
  - vm_compute. right. right. left.
  - exact Hnext.
Defined.

(** ** Rating a card again and again *)

Section Rating.
Import Threepy5.

Lemma IncreaseRating_step (c : Content) :
  0 <= rating c <= RATING_MAX ->
  rating (IncreaseRating c true) = (rating c + 1) mod (RATING_MAX + 1)
  /\ rating (IncreaseRating c false) = Z.min (rating c + 1) RATING_MAX.
Proof.
  unfold IncreaseRating, RATING_MAX. destruct c as [b t k r co cl]; simpl.
  intros Hr.
  assert (Hcase : r = 0 \/ r = 1 \/ r = 2 \/ r = 3) by lia.
  destruct Hcase as [->|[->|[->| ->]]]; by vm_compute.
Qed.
End Rating.

(** X23: [IncreaseRating] applied [n] times to a Content whose rating
    lies in [0, RATING_MAX].  With [wrap] the rating goes round: it is
    the old rating plus [n], modulo RATING_MAX + 1, and RATING_MAX + 1
    calls give the Content back as it was.  Without [wrap] it stops at
    the top: it is the lesser of the old rating plus [n] and
    RATING_MAX. *)
Theorem IncreaseRating_repeated (c : Threepy5.Content) (n : nat) :
  0 <= Threepy5.rating c <= Threepy5.RATING_MAX ->
  Threepy5.rating (Nat.iter n (fun c => Threepy5.IncreaseRating c true) c)
  = (Threepy5.rating c + Z.of_nat n) mod (Threepy5.RATING_MAX + 1)
  /\ Threepy5.rating (Nat.iter n (fun c => Threepy5.IncreaseRating c false) c)
     = Z.min (Threepy5.rating c + Z.of_nat n) Threepy5.RATING_MAX
  /\ Nat.iter (Z.to_nat (Threepy5.RATING_MAX + 1))
       (fun c => Threepy5.IncreaseRating c true) c = c.
Proof.
  intros Hr. split; [|split].
  - induction n as [|n IH].
    + simpl. rewrite Z.add_0_r, Z.mod_small; [done|].
      unfold Threepy5.RATING_MAX in *. lia.
    + rewrite Nat.iter_succ.
      destruct (IncreaseRating_step
                  (Nat.iter n (fun c => Threepy5.IncreaseRating c true) c))
        as [-> _].
      * rewrite IH. unfold Threepy5.RATING_MAX.
        pose proof (Z.mod_pos_bound (Threepy5.rating c + Z.of_nat n) (3 + 1)).
        lia.
      * rewrite IH, Z.add_mod_idemp_l by (unfold Threepy5.RATING_MAX; lia).
        f_equal. lia.
  - induction n as [|n IH].
    + simpl. lia.
    + rewrite Nat.iter_succ.
      destruct (IncreaseRating_step
                  (Nat.iter n (fun c => Threepy5.IncreaseRating c false) c))
        as [_ ->].
      * rewrite IH. lia.
      * rewrite IH. lia.
  - destruct c as [b t k r co cl]. unfold Threepy5.RATING_MAX in *.
    simpl in Hr.
    assert (Hcase : r = 0 \/ r = 1 \/ r = 2 \/ r = 3) by lia.
    destruct Hcase as [->|[->|[->| ->]]]; by vm_compute.
Qed.

Lemma IncreaseRating_repeated_witness :
  Threepy5.rating
    (Nat.iter 6 (fun c => Threepy5.IncreaseRating c true)
       (Threepy5.mkContent (Threepy5.mkCard 7 [10; 20; 250; 150])
          "Protein" "Concept" 2 "Chains of amino-acids" true)) = 0.
Proof.
  destruct (IncreaseRating_repeated
              (Threepy5.mkContent (Threepy5.mkCard 7 [10; 20; 250; 150])
                 "Protein" "Concept" 2 "Chains of amino-acids" true) 6)
    as [Hwrap _].
  - vm_compute. split; discriminate.
  - rewrite Hwrap. vm_compute. reflexivity.
Defined.

(** ** Arranged cards lie apart *)

Section Apart.
Import Board.

Lemma laid_out_from place next coord h l :
  (forall r e, Wx.GetPosition r = place e -> coord r = e) ->
  (forall c, c ∈ l -> coord (rect (h c)) <= next (rect (h c)) + 1) ->
  forall edge d, laid_out place next h l edge -> d ∈ l ->
    edge <= coord (rect (h d)).
Proof.
  intros Hplace. induction l as [|a l IH]; intros Hsz edge d;
    [by intros _ ?%elem_of_nil|].
  simpl. intros [Hp Hl] [->|Hd]%elem_of_cons.
  - by rewrite (Hplace _ _ Hp).
  - assert (Ha : coord (rect (h a)) <= next (rect (h a)) + 1)
      by (apply Hsz; left).
    rewrite (Hplace _ _ Hp) in Ha.
    assert (next (rect (h a)) + CARD_PADDING <= coord (rect (h d))).
    { apply IH; [|done..]. intros c Hc. apply Hsz. by right. }
    unfold CARD_PADDING in *. lia.
Qed.

Lemma laid_out_apart place next coord h l :
  (forall r e, Wx.GetPosition r = place e -> coord r = e) ->
  (forall c, c ∈ l -> coord (rect (h c)) <= next (rect (h c)) + 1) ->
  forall edge, laid_out place next h l edge ->
    forall c d, c ∈ l -> d ∈ l -> c <> d ->
      next (rect (h c)) < coord (rect (h d))
      \/ next (rect (h d)) < coord (rect (h c)).
Proof.
  intros Hplace. induction l as [|a l IH]; intros Hsz edge;
    [by intros _ c d ?%elem_of_nil|].
  simpl. intros [Hp Hl] c d Hc Hd Hne.
  assert (Hsz' : forall c, c ∈ l -> coord (rect (h c)) <= next (rect (h c)) + 1).
  { intros x Hx. apply Hsz. by right. }
  assert (Hafter : forall x, x ∈ l -> next (rect (h a)) < coord (rect (h x))).
  { intros x Hx.
    pose proof (laid_out_from place next coord h l Hplace Hsz' _ x Hl Hx).
    unfold CARD_PADDING in *. lia. }
  apply elem_of_cons in Hc as [->|Hc], Hd as [->|Hd]; [done| | |].
  - left. by apply Hafter.
  - right. by apply Hafter.
  - by apply (IH Hsz' _ Hl).
Qed.

Lemma apart_no_Intersects a b :
  Wx.right a < Wx.left b \/ Wx.right b < Wx.left a
  \/ Wx.bottom a < Wx.top b \/ Wx.bottom b < Wx.top a ->
  Wx.Intersects a b = false.
Proof.
  unfold Wx.Intersects, Wx.Intersect, Wx.right, Wx.left, Wx.bottom, Wx.top.
  intros Hap. apply bool_decide_eq_false. case_decide; simpl; lia.
Qed.

Lemma HArrange_laid_out st :
  selected_cards st <> [] -> NoDup (selected_cards st) ->
  exists st' top edge arrange,
    HArrangeSelectedCards st = Return tt st'
    /\ arrange ≡ₚ selected_cards st
    /\ laid_out (fun left => (left, top)) Wx.right (heap st') arrange edge
    /\ forall c, moved (heap st c) (heap st' c).
Proof.
  intros Hne Hnd. unfold HArrangeSelectedCards.
  unfold bind at 1, gets at 1.
  rewrite decide_False by (destruct (selected_cards st); simpl; [done|lia]).
  unfold bind at 1. rewrite UnselectAll_run.
  unfold bind at 1, gets at 1. board_simpl.
  set (lefts := map _ (selected_cards st)).
  destruct (min_is_Some lefts) as [m Hm].
  { subst lefts. by destruct (selected_cards st). }
  destruct (index_is_Some m lefts) as [i Hi]; [by apply min_Some in Hm as [? _]|].
  assert (exists card, selected_cards st !! i = Some card) as [card Hcard].
  { apply index_Some in Hi as [Hi _]. subst lefts.
    apply lookup_lt_Some in Hi. rewrite length_map in Hi.
    by apply lookup_lt_is_Some_2. }
  unfold bind at 1. rewrite Hm. unfold lift at 1, ret at 1.
  unfold bind at 1. rewrite Hi. unfold lift at 1, ret at 1.
  unfold bind at 1. rewrite Hcard. unfold lift at 1, ret at 1.
  unfold bind at 1, GetRect at 1, gets at 1. board_simpl.
  set (arrange := Py.sort _ (selected_cards st)).
  assert (Hperm : arrange ≡ₚ selected_cards st) by apply sort_perm.
  assert (Hnd' : NoDup arrange) by by rewrite Hperm.
  destruct (place_loop_run
              (fun left => (left, Wx.top (rect (heap st card))))
              Wx.right arrange m (set_selected_cards [] st) Hnd')
    as (st' & Hrun & Hl & _ & Hmv & _).
  by exists st', (Wx.top (rect (heap st card))), m, arrange.
Qed.

Lemma VArrange_laid_out st :
  selected_cards st <> [] -> NoDup (selected_cards st) ->
  exists st' left edge arrange,
    VArrangeSelectedCards st = Return tt st'
    /\ arrange ≡ₚ selected_cards st
    /\ laid_out (fun top => (left, top)) Wx.bottom (heap st') arrange edge
    /\ forall c, moved (heap st c) (heap st' c).
Proof.
  intros Hne Hnd. unfold VArrangeSelectedCards.
  unfold bind at 1, gets at 1.
  rewrite decide_False by (destruct (selected_cards st); simpl; [done|lia]).
  unfold bind at 1. rewrite UnselectAll_run.
  unfold bind at 1, gets at 1. board_simpl.
  set (tops := map _ (selected_cards st)).
  destruct (min_is_Some tops) as [m Hm].
  { subst tops. by destruct (selected_cards st). }
  destruct (index_is_Some m tops) as [i Hi]; [by apply min_Some in Hm as [? _]|].
  assert (exists card, selected_cards st !! i = Some card) as [card Hcard].
  { apply index_Some in Hi as [Hi _]. subst tops.
    apply lookup_lt_Some in Hi. rewrite length_map in Hi.
    by apply lookup_lt_is_Some_2. }
  unfold bind at 1. rewrite Hm. unfold lift at 1, ret at 1.
  unfold bind at 1. rewrite Hi. unfold lift at 1, ret at 1.
  unfold bind at 1. rewrite Hcard. unfold lift at 1, ret at 1.
  unfold bind at 1, GetRect at 1, gets at 1. board_simpl.
  set (arrange := Py.sort _ (selected_cards st)).
  assert (Hperm : arrange ≡ₚ selected_cards st) by apply sort_perm.
  assert (Hnd' : NoDup arrange) by by rewrite Hperm.
  destruct (place_loop_run
              (fun top => (Wx.left (rect (heap st card)), top))
              Wx.bottom arrange m (set_selected_cards [] st) Hnd')
    as (st' & Hrun & Hl & _ & Hmv & _).
  by exists st', (Wx.left (rect (heap st card))), m, arrange.
Qed.

Lemma moved_sizes w w' :
  moved w w' ->
  Wx.width (rect w') = Wx.width (rect w)
  /\ Wx.height (rect w') = Wx.height (rect w).
Proof.
  intros (_ & _ & _ & Hsz). unfold Wx.GetSize in Hsz. by injection Hsz.
Qed.
End Apart.

(** X24: cards that have been arranged do not overlap.  When no selected
    card has a negative width, after [HArrangeSelectedCards] no two of
    the cards that were selected share a pixel; when none has a negative
    height, the same holds after [VArrangeSelectedCards]. *)
Theorem arranged_cards_do_not_overlap (st : Board.Board) :
  Board.selected_cards st <> [] ->
  NoDup (Board.selected_cards st) ->
  ((forall c, c ∈ Board.selected_cards st ->
      0 <= Wx.width (Board.rect (Board.heap st c))) ->
   exists st',
     Board.HArrangeSelectedCards st = Board.Return tt st'
     /\ forall c d, c ∈ Board.selected_cards st ->
          d ∈ Board.selected_cards st -> c <> d ->
          Wx.Intersects (Board.rect (Board.heap st' c))
                        (Board.rect (Board.heap st' d)) = false)
  /\ ((forall c, c ∈ Board.selected_cards st ->
         0 <= Wx.height (Board.rect (Board.heap st c))) ->
      exists st',
        Board.VArrangeSelectedCards st = Board.Return tt st'
        /\ forall c d, c ∈ Board.selected_cards st ->
             d ∈ Board.selected_cards st -> c <> d ->
             Wx.Intersects (Board.rect (Board.heap st' c))
                           (Board.rect (Board.heap st' d)) = false).
Proof.
  intros Hne Hnd. split; intros Hsz.
  - destruct (HArrange_laid_out st Hne Hnd)
      as (st' & top & edge & arrange & Hrun & Hperm & Hl & Hmv).
    exists st'. split; [exact Hrun|]. intros c d Hc Hd Hcd.
    apply apart_no_Intersects.
    destruct (laid_out_apart (fun left => (left, top)) Wx.right Wx.left
                (Board.heap st') arrange) with (edge := edge) (c := c) (d := d)
      as [Hlt|Hlt]; try done; try (by rewrite Hperm); try tauto.
    + intros r e Hp. unfold Wx.GetPosition in Hp. by injection Hp.
    + intros x Hx. rewrite Hperm in Hx.
      destruct (moved_sizes _ _ (Hmv x)) as [Hw _].
      specialize (Hsz x Hx). unfold Wx.left, Wx.right. lia.
  - destruct (VArrange_laid_out st Hne Hnd)
      as (st' & left & edge & arrange & Hrun & Hperm & Hl & Hmv).
    exists st'. split; [exact Hrun|]. intros c d Hc Hd Hcd.
    apply apart_no_Intersects.
    destruct (laid_out_apart (fun top => (left, top)) Wx.bottom Wx.top
                (Board.heap st') arrange) with (edge := edge) (c := c) (d := d)
      as [Hlt|Hlt]; try done; try (by rewrite Hperm); try tauto.
    + intros r e Hp. unfold Wx.GetPosition in Hp. by injection Hp.
    + intros x Hx. rewrite Hperm in Hx.
      destruct (moved_sizes _ _ (Hmv x)) as [_ Hh].
      specialize (Hsz x Hx). unfold Wx.top, Wx.bottom. lia.
Qed.

Lemma arranged_cards_do_not_overlap_witness :
  exists st',
    Board.HArrangeSelectedCards Board.all_selected = Board.Return tt st'
    /\ Wx.Intersects (Board.rect (Board.heap st' 0%nat))
                     (Board.rect (Board.heap st' 1%nat)) = false.
Proof.
  destruct (arranged_cards_do_not_overlap Board.all_selected) as [Hrow _].
  - vm_compute. discriminate.
  - apply NoDup_by_decision. vm_compute. reflexivity.
  - destruct Hrow as (st' & Hrun & Hapart).
    + intros c Hc. vm_compute in Hc.
      repeat (apply elem_of_cons in Hc as [->|Hc]; [vm_compute; discriminate|]).
      by apply elem_of_nil in Hc.
    + exists st'. split; [exact Hrun|].
      apply Hapart; [vm_compute; right; left|vm_compute; left|lia].
Defined.

(** ** Searching the cards' texts *)

Section SearchFacts.
Import Board Search.



End SearchFacts.



Section SearchNavigation.
Import Search.

Lemma getitem_in_range {A} (l : list A) (i : Z) :
  0 <= i < Z.of_nat (length l) ->
  exists x, getitem l i = Some x /\ l !! Z.to_nat i = Some x.
Proof.
  intros Hi. unfold getitem. rewrite decide_True by lia.
  destruct (lookup_lt_is_Some_2 l (Z.to_nat i)) as [x Hx]; [lia|].
  by exists x.
Qed.

Lemma getitem_before {A} (l : list A) (i : Z) :
  0 <= i < Z.of_nat (length l) ->
  getitem l (i - 1) = l !! Z.to_nat ((i - 1) mod Z.of_nat (length l)).
Proof.
  intros Hi. unfold getitem. case_decide as H0.
  - by rewrite Z.mod_small by lia.
  - rewrite decide_True by lia. f_equal. f_equal.
    apply (Z.mod_unique_pos _ _ (-1)); lia.
Qed.

Lemma JumpSearchResults_run self old new :
  0 <= old < Z.of_nat (length (search_find (frame self))) ->
  0 <= new < Z.of_nat (length (search_find (frame self))) ->
  exists self',
    JumpSearchResults old new self = Jumped self'
    /\ shows self new (set_head (Some new) self').
Proof.
  intros Ho Hn. unfold JumpSearchResults.
  destruct (getitem_in_range _ _ Ho) as (x & -> & _).
  destruct (getitem_in_range _ _ Hn) as ([ctrl pos] & -> & Hnew).
  cbv zeta. unfold shows.
  destruct (in_Content ctrl) eqn:Ec; cbn [collapsed frame scrolled_to_card
    scrolled_to_char]; [destruct (collapsed self ctrl.1) eqn:Ecol|];
    eexists; (split; [reflexivity|]); exists ctrl, pos;
    cbn [set_head collapsed frame scrolled_to_card scrolled_to_char];
    rewrite Ec; repeat split; try done.
  - intros c Hc. by rewrite fn_lookup_insert_ne.
  - by rewrite fn_lookup_insert.
Qed.

Lemma NextSearchResult_run self i :
  head_in_range (frame self) i ->
  exists self',
    NextSearchResult self = Jumped self'
    /\ shows self ((i + 1) mod Z.of_nat (length (search_find (frame self))))
         self'.
Proof.
  intros [Hh Hi]. unfold NextSearchResult. rewrite Hh. cbv zeta.
  case_decide as Hn.
  - destruct (JumpSearchResults_run self i 0) as (self' & -> & Hs);
      [lia..|].
    eexists. split; [reflexivity|].
    replace (i + 1) with (Z.of_nat (length (search_find (frame self))))
      by lia.
    by rewrite Z.mod_same by lia.
  - destruct (JumpSearchResults_run self i (i + 1)) as (self' & -> & Hs);
      [lia..|].
    eexists. split; [reflexivity|]. by rewrite Z.mod_small by lia.
Qed.

Lemma PrevSearchResult_run self i :
  head_in_range (frame self) i ->
  exists self',
    PrevSearchResult self = Jumped self'
    /\ shows self ((i - 1) mod Z.of_nat (length (search_find (frame self))))
         self'.
Proof.
  intros [Hh Hi]. unfold PrevSearchResult. rewrite Hh. cbv zeta.
  case_decide as Hn.
  - destruct (JumpSearchResults_run self i
                (Z.of_nat (length (search_find (frame self))) - 1))
      as (self' & -> & Hs); [lia..|].
    eexists. split; [reflexivity|].
    replace ((i - 1) mod Z.of_nat (length (search_find (frame self))))
      with (Z.of_nat (length (search_find (frame self))) - 1); [done|].
    apply (Z.mod_unique_pos _ _ (-1)); lia.
  - destruct (JumpSearchResults_run self i (i - 1)) as (self' & -> & Hs);
      [lia..|].
    eexists. split; [reflexivity|]. by rewrite Z.mod_small by lia.
Qed.

Lemma shows_head_in_range self k self' :
  0 <= k < Z.of_nat (length (search_find (frame self))) ->
  shows self k self' -> head_in_range (frame self') k.
Proof.
  intros Hk (ctrl & pos & _ & -> & _). by split.
Qed.
End SearchNavigation.

(** X26: while the current find is one of the finds,
    [NextSearchResult] and [PrevSearchResult] return and make the find
    one step forward or backward the current one, going round at the
    ends.  The frame's other search variables stay; the card of that
    find is scrolled to; if it is a Content it ends uncollapsed and is
    scrolled to the position of the find; no other card is collapsed or
    uncollapsed.  A step back after a step forward, or forward after
    back, restores the frame's variables, the index among them; what
    was uncollapsed or scrolled on the way is not put back. *)
Theorem search_results_go_round (self : Search.View) (i : Z) :
  Search.head_in_range (Search.frame self) i ->
  let n := Z.of_nat (length (Search.search_find (Search.frame self))) in
  exists next prev,
    Search.NextSearchResult self = Search.Jumped next
    /\ Search.shows self ((i + 1) mod n) next
    /\ Search.PrevSearchResult self = Search.Jumped prev
    /\ Search.shows self ((i - 1) mod n) prev
    /\ (exists back,
          Search.PrevSearchResult next = Search.Jumped back
          /\ Search.frame back = Search.frame self)
    /\ (exists forth,
          Search.NextSearchResult prev = Search.Jumped forth
          /\ Search.frame forth = Search.frame self).
Proof.
  intros Hr n. pose proof Hr as [Hh Hi]. fold n in Hi.
  destruct (NextSearchResult_run self i Hr) as (next & Hnext & Hsn).
  destruct (PrevSearchResult_run self i Hr) as (prev & Hprev & Hsp).
  fold n in Hsn, Hsp.
  assert (Hbn : 0 <= (i + 1) mod n < n) by (apply Z.mod_pos_bound; lia).
  assert (Hbp : 0 <= (i - 1) mod n < n) by (apply Z.mod_pos_bound; lia).
  pose proof (shows_head_in_range _ _ _ Hbn Hsn) as Hrn.
  pose proof (shows_head_in_range _ _ _ Hbp Hsp) as Hrp.
  assert (Hfn : Search.frame next
                = Search.set_search_head (Some ((i + 1) mod n))
                    (Search.frame self))
    by (by destruct Hsn as (? & ? & _ & ? & _)).
  assert (Hfp : Search.frame prev
                = Search.set_search_head (Some ((i - 1) mod n))
                    (Search.frame self))
    by (by destruct Hsp as (? & ? & _ & ? & _)).
  exists next, prev. split; [done|]. split; [done|]. split; [done|].
  split; [done|]. split.
  - destruct (PrevSearchResult_run next _ Hrn)
      as (back & Hback & (? & ? & _ & Hfb & _)).
    exists back. split; [done|]. rewrite Hfb, Hfn.
    destruct (Search.frame self) as [fs str h sh fo ts]. simpl in *.
    subst h. unfold Search.set_search_head. simpl. fold n.
    rewrite Zminus_mod_idemp_l.
    replace (i + 1 - 1) with i by lia. by rewrite Z.mod_small by lia.
  - destruct (NextSearchResult_run prev _ Hrp)
      as (forth & Hforth & (? & ? & _ & Hff & _)).
    exists forth. split; [done|]. rewrite Hff, Hfp.
    destruct (Search.frame self) as [fs str h sh fo ts]. simpl in *.
    subst h. unfold Search.set_search_head. simpl. fold n.
    rewrite Zplus_mod_idemp_l.
    replace (i - 1 + 1) with i by lia. by rewrite Z.mod_small by lia.
Qed.

Lemma search_results_go_round_witness :
  let self :=
    Search.mkView
      (Search.mkFrame
         [((0%nat, Search.TitleField), 3); ((1%nat, Search.HeaderField), 0)]
         "io" (Some 1) true None None)
      (fun _ => true) None None in
  Search.head_in_range (Search.frame self) 1
  /\ exists next,
       Search.NextSearchResult self = Search.Jumped next
       /\ Search.search_head (Search.frame next) = Some 0
       /\ Search.collapsed next 0%nat = false
       /\ Search.collapsed next 1%nat = true.
Proof.
  intros self.
  assert (Hr : Search.head_in_range (Search.frame self) 1)
    by (split; [reflexivity|simpl; lia]).
  split; [exact Hr|].
  destruct (search_results_go_round self 1 Hr)
    as (next & _ & Hnext & (ctrl & pos & Hfind & Hframe & _ & Hothers & Hcard)
        & _).
  exists next. split; [exact Hnext|].
  vm_compute in Hfind. injection Hfind as <- <-.
  split; [by rewrite Hframe|]. split; [exact (proj1 Hcard)|].
  by rewrite (Hothers 1%nat).
Defined.

(** X27: [CancelSearch] with finds at hand gives the focus to the find
    before the current one, not to the current one, and selects the
    found text there; before the first find comes, by Python's negative
    index, the last one, so that cancelling right after a search puts
    the focus on the last find.  It forgets the finds and hides the
    search control. *)
Theorem CancelSearch_focuses_the_find_before
  (sel : list Board.ref) (self : Search.Frame) (i : Z) :
  Search.head_in_range self i ->
  let n := Z.of_nat (length (Search.search_find self)) in
  exists ctrl pos,
    Search.search_find self !! Z.to_nat ((i - 1) mod n) = Some (ctrl, pos)
    /\ Search.CancelSearch sel self
       = Search.Done
           (Search.mkFrame [] "" None false (Some (Search.OnTextCtrl ctrl))
              (Some (ctrl,
                     (pos, pos + Z.of_nat (String.length
                                             (Search.search_str self))))))
    /\ (i = 0 -> list.last (Search.search_find self) = Some (ctrl, pos)).
Proof.
  intros [Hh Hi] n. unfold Search.CancelSearch. rewrite Hh.
  rewrite (getitem_before _ _ Hi). fold n.
  assert (Hb : 0 <= (i - 1) mod n < n) by (apply Z.mod_pos_bound; lia).
  destruct (lookup_lt_is_Some_2 (Search.search_find self)
              (Z.to_nat ((i - 1) mod n))) as [[ctrl pos] Hx]; [lia|].
  exists ctrl, pos. split; [exact Hx|]. rewrite Hx.
  destruct (Search.search_find self) as [|x l] eqn:El; [simpl in Hi; lia|].
  split; [done|]. intros ->. rewrite last_lookup, <- Hx. f_equal.
  replace ((0 - 1) mod n) with (n - 1); [subst n; simpl; lia|].
  apply (Z.mod_unique_pos _ _ (-1)); lia.
Qed.

Lemma CancelSearch_focuses_the_find_before_witness :
  let self :=
    Search.mkFrame
      [((0%nat, Search.TitleField), 3); ((1%nat, Search.HeaderField), 0)]
      "io" (Some 0) true None None in
  Search.head_in_range self 0
  /\ Search.CancelSearch [] self
     = Search.Done
         (Search.mkFrame [] "" None false
            (Some (Search.OnTextCtrl (1%nat, Search.HeaderField)))
            (Some ((1%nat, Search.HeaderField), (0, 2)))).
Proof.
  intros self.
  assert (Hr : Search.head_in_range self 0)
    by (split; [reflexivity|simpl; lia]).
  split; [exact Hr|].
  destruct (CancelSearch_focuses_the_find_before [] self 0 Hr)
    as (ctrl & pos & Hx & Hrun & _).
  rewrite Hrun. vm_compute in Hx. injection Hx as <- <-.
  vm_compute. reflexivity.
Defined.

(** ** The rectangle between two points *)

(** X28: [MakeEncirclingRect] does not depend on the order of its two
    points.  The rectangle covers the pixels from the lesser coordinate
    up to, but not including, the greater one, in each direction: of the
    two points given, at most the one that is the top left corner lies
    in it, and the bottom right corner never does. *)
Theorem MakeEncirclingRect_extent (p1 p2 p : Wx.Point) :
  MakeEncirclingRect p1 p2 = MakeEncirclingRect p2 p1
  /\ (Wx.Contains (MakeEncirclingRect p1 p2) p = true
      <-> Z.min p1.1 p2.1 <= p.1 < Z.max p1.1 p2.1
          /\ Z.min p1.2 p2.2 <= p.2 < Z.max p1.2 p2.2)
  /\ Wx.Contains (MakeEncirclingRect p1 p2)
       (Z.max p1.1 p2.1, Z.max p1.2 p2.2) = false.
Proof.
  destruct p1 as [x1 y1], p2 as [x2 y2], p as [x y].
  unfold MakeEncirclingRect, Wx.Contains. simpl. split; [|split].
  - f_equal; lia.
  - rewrite bool_decide_eq_true. lia.
  - apply bool_decide_eq_false. lia.
Qed.
